(** * iris-i18n: a shallow embedding of [src/extension.ts]

    The extension scans the text of the active editor for [ctx.Tr("key")]
    call sites, looks every key up in the translations read from the locale
    tree of the workspace, and hands two decoration sets to the editor: a
    hover-bearing set and an inline ("in place") set.

    Conventions of the embedding.
    - JavaScript strings are [string]s of 8-bit code units.
    - A JavaScript object used as a dictionary ([translations], a parsed
      JSON document) is the list of its own properties in the order of
      their creation.  A read [o[k]] goes on to [Object.prototype] when
      [o] has no own property [k]; [for ... in] and [Object.assign] visit
      the properties whose names are array indices first, in numeric
      order, and then the others in the order of their creation.  The one
      thing left out is an assignment to the name [__proto__], which
      changes the prototype of the object instead of creating a property:
      no directory of a locale tree and no key of a document bears that
      name.
    - A position of the document is represented by its offset; the host's
      [positionAt] is strictly monotone on the offsets of a document, so
      comparisons of positions and of offsets agree.
    - [JSON.parse] belongs to the host.  It is a parameter of the
      development, typed by the declared type of its uses
      ([{ [key: string]: string }]): a document either fails to parse or
      is a flat object of strings.
    - Real time is not represented.  Whether a call of the throttled
      function falls into the wait of an earlier one is decided by the
      host and comes with the event. *)

From Stdlib Require Import String Ascii List Arith NArith Bool Lia Sorted Permutation.
Import ListNotations.
Open Scope list_scope.
Open Scope string_scope.

(** ** JavaScript values used by the extension *)

Module Js.

(** The own properties of an object, in the order of their creation; also
    the entries of a [Map], in the order of their insertion. *)
Definition Obj (A : Type) : Type := list (string * A).

Definition empty {A : Type} : Obj A := [].

(** The own property [k] of [o], and [map.get(k)]; [None] when there is
    none. *)
Fixpoint get {A : Type} (o : Obj A) (k : string) : option A :=
  match o with
  | [] => None
  | (k', v) :: o' => if String.eqb k' k then Some v else get o' k
  end.

(** [o[k] = v] and [map.set(k, v)]: an existing property keeps its place, a
    new one is created behind the others. *)
Fixpoint set {A : Type} (o : Obj A) (k : string) (v : A) : Obj A :=
  match o with
  | [] => [(k, v)]
  | (k', v') :: o' =>
      if String.eqb k' k then (k', v) :: o' else (k', v') :: set o' k v
  end.

(** [delete o[k]] / [Map.prototype.delete]. *)
Fixpoint remove {A : Type} (o : Obj A) (k : string) : Obj A :=
  match o with
  | [] => []
  | (k', v') :: o' =>
      if String.eqb k' k then remove o' k else (k', v') :: remove o' k
  end.

(** The names of the own properties, in the order of their creation. *)
Definition keys {A : Type} (o : Obj A) : list string := map fst o.

(** *** The order in which an object lists its properties

    A name is an array index when it is the canonical decimal form of a
    number below 2^32 - 1.  [[OwnPropertyKeys]] lists the array indices
    first, in ascending numeric order, and then the other names in the
    order of their creation. *)
Definition digit (c : ascii) : option N :=
  let n := N_of_ascii c in
  if ((48 <=? n) && (n <=? 57))%N then Some (n - 48)%N else None.

Fixpoint decimal (s : string) (acc : N) : option N :=
  match s with
  | EmptyString => Some acc
  | String c s' =>
      match digit c with
      | Some d => decimal s' (acc * 10 + d)%N
      | None => None
      end
  end.

Definition arrayIndex (k : string) : option N :=
  match k with
  | EmptyString => None
  | String c rest =>
      if Ascii.eqb c "0"%char && negb (String.eqb rest EmptyString) then None
      else if (10 <? String.length k)%nat then None
      else match decimal k 0 with
           | Some n => if (n <? 4294967295)%N then Some n else None
           | None => None
           end
  end.

Definition isArrayIndex (k : string) : bool :=
  match arrayIndex k with Some _ => true | None => false end.

(** A property with the index [n] takes its place among the properties
    with an index, which are in ascending order. *)
Fixpoint insert {A : Type} (n : N) (kv : string * A)
    (l : list (N * (string * A))) : list (N * (string * A)) :=
  match l with
  | [] => [(n, kv)]
  | (m, kv') :: l' =>
      if (n <=? m)%N then (n, kv) :: l else (m, kv') :: insert n kv l'
  end.

Fixpoint indexed {A : Type} (o : Obj A) : list (N * (string * A)) :=
  match o with
  | [] => []
  | kv :: o' =>
      match arrayIndex (fst kv) with
      | Some n => insert n kv (indexed o')
      | None => indexed o'
      end
  end.

Definition named {A : Type} (o : Obj A) : Obj A :=
  filter (fun kv => negb (isArrayIndex (fst kv))) o.

(** The own properties in the order in which [for (k in o)] and
    [Object.assign] visit them. *)
Definition entries {A : Type} (o : Obj A) : Obj A :=
  (map snd (indexed o) ++ named o)%list.

(** The names [for (k in o)] visits, in order.  [Object.prototype] has no
    enumerable property, so these are the names of own properties. *)
Definition ownKeys {A : Type} (o : Obj A) : list string :=
  map fst (entries o).

(** [Object.assign(target, source)]. *)
Definition assign {A : Type} (target source : Obj A) : Obj A :=
  fold_left (fun t kv => set t (fst kv) (snd kv)) (entries source) target.

(** *** Reading a property

    The objects of the extension are ordinary objects: what they do not
    have themselves they inherit from [Object.prototype], whose members
    are built-in functions, and the accessor [__proto__]. *)
Inductive Builtin : Type :=
| ObjectPrototype
| FunctionPrototype
| Function (name : string).

(** What a read gives: [undefined] (or another falsy value), a value of
    the data of the object, or a built-in of the host. *)
Inductive Value (A : Type) : Type :=
| Undefined
| Data (a : A)
| Native (b : Builtin).
Arguments Undefined {A}.
Arguments Data {A} a.
Arguments Native {A} b.

Definition native {A : Type} (b : option Builtin) : Value A :=
  match b with
  | Some b' => Native b'
  | None => Undefined
  end.

Definition object_methods : list string :=
  ["__defineGetter__"; "__defineSetter__"; "hasOwnProperty";
   "__lookupGetter__"; "__lookupSetter__"; "isPrototypeOf";
   "propertyIsEnumerable"; "toString"; "valueOf"; "toLocaleString"].

Definition function_methods : list string :=
  ["apply"; "bind"; "call"; "toString"].

(** The member [k] of [Object.prototype], apart from [__proto__]. *)
Definition object_prototype (k : string) : option Builtin :=
  if String.eqb k "constructor" then Some (Function "Object")
  else if existsb (String.eqb k) object_methods then Some (Function k)
  else None.

(** The member [k] of [Function.prototype] or, behind it, of
    [Object.prototype].  The name and the length of [Function.prototype]
    are falsy. *)
Definition function_prototype (k : string) : option Builtin :=
  if String.eqb k "constructor" then Some (Function "Function")
  else if existsb (String.eqb k) function_methods then Some (Function k)
  else object_prototype k.

(** [o[k]] on an ordinary object. *)
Definition read {A : Type} (o : Obj A) (k : string) : Value A :=
  match get o k with
  | Some a => Data a
  | None =>
      if String.eqb k "__proto__" then Native ObjectPrototype
      else native (object_prototype k)
  end.

(** [b[k]] on a built-in.  Of the own properties of a built-in function
    only its name is represented; its length, the static members of
    [Object] and the two poisoned accessors of [Function.prototype] are
    not. *)
Definition read_builtin (b : Builtin) (k : string) : Value string :=
  if String.eqb k "__proto__" then
    match b with
    | ObjectPrototype => Undefined
    | FunctionPrototype => Native ObjectPrototype
    | Function _ => Native FunctionPrototype
    end
  else
    match b with
    | ObjectPrototype => native (object_prototype k)
    | FunctionPrototype => native (function_prototype k)
    | Function n =>
        if String.eqb k "name" then Data n else native (function_prototype k)
    end.

(** [v?.[k]] where [v] is what a read of an object of objects gave. *)
Definition optread (v : Value (Obj string)) (k : string) : Value string :=
  match v with
  | Undefined => Undefined
  | Data o => read o k
  | Native b => read_builtin b k
  end.

(** The text of a built-in in a template literal. *)
Definition text (b : Builtin) : string :=
  match b with
  | ObjectPrototype => "[object Object]"
  | FunctionPrototype => "function () { [native code] }"
  | Function n => "function " ++ n ++ "() { [native code] }"
  end.

(** The text of [v || d] in a template literal: the empty string and
    [undefined] are falsy, a built-in is truthy. *)
Definition or (v : Value string) (d : string) : string :=
  match v with
  | Undefined => d
  | Data EmptyString => d
  | Data s => s
  | Native b => text b
  end.

(** The own property [k] of an object that may be [undefined]. *)
Definition optget {A : Type} (o : option (Obj A)) (k : string) : option A :=
  match o with
  | Some o' => get o' k
  | None => None
  end.

(** [ToPropertyKey] of a string or [undefined]. *)
Definition propertyKey (v : option string) : string :=
  match v with
  | Some s => s
  | None => "undefined"
  end.

End Js.

(** ** Characters and strings *)

Definition dquote : ascii := ascii_of_nat 34.
Definition newline : ascii := ascii_of_nat 10.
Definition carriage_return : ascii := ascii_of_nat 13.
Definition backslash : ascii := ascii_of_nat 92.

Definition str (c : ascii) : string := String c EmptyString.

(** [s.slice(n)]. *)
Fixpoint drop (n : nat) (s : string) : string :=
  match n, s with
  | 0, _ => s
  | S n', String _ s' => drop n' s'
  | S _, EmptyString => EmptyString
  end.

(** [s.startsWith(p)] with the rest of [s] after [p]. *)
Fixpoint strip (p s : string) : option string :=
  match p, s with
  | EmptyString, _ => Some s
  | String a p', String b s' => if Ascii.eqb a b then strip p' s' else None
  | String _ _, EmptyString => None
  end.

Definition startsWith (s p : string) : bool :=
  match strip p s with Some _ => true | None => false end.

(** ** The regular expression of the scanner

    The pattern is the text ctx.Tr( and a double quote, the lazy group
    (.+?), then a double quote and a closing parenthesis; it carries the
    global flag. *)

(** The literal text before the group and the literal text after it. *)
Definition call_open : string := "ctx.Tr(" ++ str dquote.
Definition call_close : string := str dquote ++ ")".

(** [.] matches every code unit but a line terminator. *)
Definition isLineTerminator (c : ascii) : bool :=
  Ascii.eqb c newline || Ascii.eqb c carriage_return.

(** The lazy group followed by the closing text: at least one character,
    then the first place where the closing text matches. *)
Fixpoint lazy_group (s : string) : option string :=
  match s with
  | EmptyString => None
  | String c s' =>
      if isLineTerminator c then None
      else if startsWith s' call_close then Some (str c)
      else match lazy_group s' with
           | Some k => Some (String c k)
           | None => None
           end
  end.

(** The whole pattern tried at the head of [s]; the result is group 1. *)
Definition match_here (s : string) : option string :=
  match strip call_open s with
  | Some rest => lazy_group rest
  | None => None
  end.

(** [RegExpExecArray]: [index], [match[0]], [match[1]]. *)
Record RegExpExecArray : Type := mkMatch {
  index : nat;
  match0 : string;
  match1 : string
}.

(** The leftmost match in [s], whose first character has offset [i]. *)
Fixpoint search (s : string) (i : nat) : option RegExpExecArray :=
  match match_here s with
  | Some k => Some (mkMatch i (call_open ++ k ++ call_close) k)
  | None =>
      match s with
      | EmptyString => None
      | String _ s' => search s' (S i)
      end
  end.

(** [regex.exec(text)] with [regex.lastIndex = lastIndex]. *)
Definition exec (text : string) (lastIndex : nat) : option RegExpExecArray :=
  if (String.length text <? lastIndex)%nat then None
  else search (drop lastIndex text) lastIndex.

(** [while ((match = regex.exec(text)) !== null) { body }]: after a match
    [lastIndex] is the offset just behind it.  Every match is at least
    eleven characters long, so [String.length text] rounds are enough. *)
Fixpoint while_exec {A : Type} (fuel : nat) (text : string) (lastIndex : nat)
    (body : RegExpExecArray -> A -> A) (acc : A) : A :=
  match fuel with
  | 0 => acc
  | S fuel' =>
      match exec text lastIndex with
      | None => acc
      | Some m =>
          while_exec fuel' text (index m + String.length (match0 m)) body (body m acc)
      end
  end.

(** ** Positions and ranges of the host *)

Definition Position : Type := nat.

(** [document.positionAt(offset)]: offsets behind the text are clamped. *)
Definition positionAt (text : string) (offset : nat) : Position :=
  Nat.min offset (String.length text).

Record Range : Type := mkRange { range_start : Position; range_end : Position }.

(** [new vscode.Range(a, b)] orders its two positions. *)
Definition newRange (a b : Position) : Range :=
  if (b <? a)%nat then mkRange b a else mkRange a b.

(** [this.intersection(other)]; [None] is [undefined].  Ranges that only
    touch do intersect (in an empty range). *)
Definition intersection (this other : Range) : option Range :=
  let s := Nat.max (range_start other) (range_start this) in
  let e := Nat.min (range_end other) (range_end this) in
  if (e <? s)%nat then None else Some (mkRange s e).

Definition intersects (this other : Range) : bool :=
  match intersection this other with Some _ => true | None => false end.

(** ** Decorations *)

Record MarkdownString : Type := mkMarkdown {
  md_value : string;
  supportHtml : bool;
  isTrusted : bool
}.

Record After : Type := mkAfter {
  contentText : string;
  color : string;
  border : string
}.

(** [vscode.DecorationOptions]: the hover decorations carry a
    [hoverMessage], the in-place ones [renderOptions.after]. *)
Record DecorationOptions : Type := mkDecoration {
  range : Range;
  hoverMessage : option MarkdownString;
  renderOptions_after : option After
}.

Definition Translations : Type := Js.Obj (Js.Obj string).

(** [translations[lang]?.[key] || key], as a template literal shows it. *)
Definition translated (translations : Translations) (lang key : string) : string :=
  Js.or (Js.optread (Js.read translations lang) key) key.

(** The body of [for (displayLanguage in state.translations)]. *)
Definition hover_lines (translations : Translations) (key : string) : list string :=
  map (fun displayLanguage : string =>
         displayLanguage ++ ": " ++ translated translations displayLanguage key)
      (Js.ownKeys translations).

Definition div_open : string :=
  "<div style=" ++ str dquote ++ "line-height:20px;" ++ str dquote ++ ">".
Definition div_close : string := "</div>".

Definition hover_markdown (lines : list string) : MarkdownString :=
  mkMarkdown
    ("#### iris i18n " ++ str newline ++ div_open
       ++ String.concat (div_close ++ div_open) lines ++ div_close)
    true true.

(** The range of the key of a match: from [match.index + 8] to
    [match.index + match[0].length - 2]. *)
Definition key_range (text : string) (m : RegExpExecArray) : Range :=
  let startPos := positionAt text (index m + 8) in
  let endPos := positionAt text (index m + String.length (match0 m) - 2) in
  newRange startPos endPos.

Definition inplace_annotation (translations : Translations)
    (displayLanguage : option string) (rng : Range) (key : string)
  : DecorationOptions :=
  mkDecoration rng None
    (Some (mkAfter
             (translated translations (Js.propertyKey displayLanguage) key)
             "#d37070"
             "0.5px solid #d37070; border-radius:2px")).

Definition hover_decoration (translations : Translations)
    (rng : Range) (key : string) : DecorationOptions :=
  mkDecoration rng (Some (hover_markdown (hover_lines translations key))) None.

(** The two arrays the loop of [updateDecorationsForWorkspace] fills. *)
Record Arrays : Type := mkArrays {
  decorationsArray : list DecorationOptions;
  inplaceAnnotations : list DecorationOptions
}.

(** One round of the loop of [updateDecorationsForWorkspace]. *)
Definition loop_body (text : string) (selection : Range)
    (translations : Translations) (displayLanguage : option string)
    (m : RegExpExecArray) (acc : Arrays) : Arrays :=
  let rng := key_range text m in
  match intersection selection rng with
  | None =>
      mkArrays (decorationsArray acc)
        (inplaceAnnotations acc
           ++ [inplace_annotation translations displayLanguage rng (match1 m)])%list
  | Some _ =>
      mkArrays
        (decorationsArray acc
           ++ [hover_decoration translations rng (match1 m)])%list
        (inplaceAnnotations acc)
  end.

(** The loop of [updateDecorationsForWorkspace], from empty arrays. *)
Definition decorate (text : string) (selection : Range)
    (translations : Translations) (displayLanguage : option string) : Arrays :=
  while_exec (String.length text) text 0
    (loop_body text selection translations displayLanguage)
    (mkArrays [] []).

(** A reference: the key of a call site and the range of the key. *)
Record Reference : Type := mkReference {
  key : string;
  sourceRange : Range
}.

Definition reference_of (text : string) (m : RegExpExecArray) : Reference :=
  mkReference (match1 m) (key_range text m).

(** The matches the loop visits, in order. *)
Definition matches (text : string) : list RegExpExecArray :=
  while_exec (String.length text) text 0 (fun m acc => (acc ++ [m])%list) [].

(** The scanner: the references of the call sites of [text]. *)
Definition scan (text : string) : list Reference :=
  map (reference_of text) (matches text).

(** ** Paths (POSIX flavour of [node:path]) *)

Definition slash : ascii := "/"%char.
Definition dot : ascii := "."%char.

(** [path.extname(p)], as node computes it: one pass from the last
    character to the first, which stops at the separator before the last
    component. *)
Inductive PreDot : Type := NoneSeen | DotsOnly | NonDotSeen.

Record ExtScan : Type := mkExtScan {
  startDot : option nat;
  startPart : nat;
  ext_end : option nat;
  matchedSlash : bool;
  preDotState : PreDot;
  stopped : bool
}.

Definition ext_step (st : ExtScan) (i : nat) (code : ascii) : ExtScan :=
  if stopped st then st
  else if Ascii.eqb code slash then
    if negb (matchedSlash st) then
      mkExtScan (startDot st) (i + 1) (ext_end st) (matchedSlash st)
        (preDotState st) true
    else st
  else
    let st1 :=
      match ext_end st with
      | None =>
          mkExtScan (startDot st) (startPart st) (Some (i + 1)) false
            (preDotState st) false
      | Some _ => st
      end in
    if Ascii.eqb code dot then
      match startDot st1 with
      | None =>
          mkExtScan (Some i) (startPart st1) (ext_end st1) (matchedSlash st1)
            (preDotState st1) false
      | Some _ =>
          mkExtScan (startDot st1) (startPart st1) (ext_end st1)
            (matchedSlash st1) DotsOnly false
      end
    else
      match startDot st1 with
      | Some _ =>
          mkExtScan (startDot st1) (startPart st1) (ext_end st1)
            (matchedSlash st1) NonDotSeen false
      | None => st1
      end.

(** The characters of [s] from the last to the first, with their offsets. *)
Fixpoint backwards (s : string) (i : nat) (acc : list (nat * ascii))
  : list (nat * ascii) :=
  match s with
  | EmptyString => acc
  | String c s' => backwards s' (S i) ((i, c) :: acc)
  end.

Definition extname (p : string) : string :=
  let st :=
    fold_left (fun st ic => ext_step st (fst ic) (snd ic))
      (backwards p 0 [])
      (mkExtScan None 0 None true NoneSeen false) in
  match startDot st, ext_end st with
  | Some d, Some e =>
      match preDotState st with
      | NoneSeen => EmptyString
      | DotsOnly =>
          if Nat.eqb d (e - 1) && Nat.eqb d (startPart st + 1)
          then EmptyString
          else substring d (e - d) p
      | NonDotSeen => substring d (e - d) p
      end
  | _, _ => EmptyString
  end.

(** [s.split('/')]. *)
Fixpoint split_path (s : string) : list string :=
  match s with
  | EmptyString => [EmptyString]
  | String c s' =>
      if Ascii.eqb c slash then EmptyString :: split_path s'
      else match split_path s' with
           | seg :: segs => String c seg :: segs
           | [] => [str c]
           end
  end.

(** [normalizeString]: empty and one-dot segments vanish, a two-dot
    segment removes the segment before it; [res] is the reversed result. *)
Fixpoint normalize_segments (allowAboveRoot : bool) (segs res : list string)
  : list string :=
  match segs with
  | [] => rev res
  | seg :: rest =>
      if String.eqb seg EmptyString || String.eqb seg "." then
        normalize_segments allowAboveRoot rest res
      else if String.eqb seg ".." then
        match res with
        | top :: res' =>
            if String.eqb top ".." then
              normalize_segments allowAboveRoot rest (seg :: res)
            else normalize_segments allowAboveRoot rest res'
        | [] =>
            if allowAboveRoot then normalize_segments allowAboveRoot rest [seg]
            else normalize_segments allowAboveRoot rest []
        end
      else normalize_segments allowAboveRoot rest (seg :: res)
  end.

Definition isAbsolute (p : string) : bool := startsWith p "/".

Fixpoint endsWithSlash (p : string) : bool :=
  match p with
  | EmptyString => false
  | String c EmptyString => Ascii.eqb c slash
  | String _ p' => endsWithSlash p'
  end.

(** [path.normalize(p)]. *)
Definition normalize (p : string) : string :=
  match p with
  | EmptyString => "."
  | _ =>
      let body :=
        String.concat "/"
          (normalize_segments (negb (isAbsolute p)) (split_path p) []) in
      match body with
      | EmptyString =>
          if isAbsolute p then "/" else if endsWithSlash p then "./" else "."
      | _ =>
          let body' := if endsWithSlash p then body ++ "/" else body in
          if isAbsolute p then "/" ++ body' else body'
      end
  end.

(** [path.join(a, b)]: empty arguments are left out. *)
Definition path_join (a b : string) : string :=
  match a, b with
  | EmptyString, EmptyString => "."
  | EmptyString, _ => normalize b
  | _, EmptyString => normalize a
  | _, _ => normalize (a ++ "/" ++ b)
  end.

(** ** The file system *)

#[local] Set Warnings "-register-all".

Inductive FsNode : Type :=
| File (content : string)
| Dir (entries : list (string * FsNode)).

Fixpoint lookup_entry (entries : list (string * FsNode)) (name : string)
  : option FsNode :=
  match entries with
  | [] => None
  | (n, node) :: rest =>
      if String.eqb n name then Some node else lookup_entry rest name
  end.

Fixpoint walk (node : FsNode) (segs : list string) : option FsNode :=
  match segs with
  | [] => Some node
  | seg :: rest =>
      match node with
      | Dir entries =>
          match lookup_entry entries seg with
          | Some child => walk child rest
          | None => None
          end
      | File _ => None
      end
  end.

(** The node an absolute path names, from the root directory. *)
Definition resolve (root : FsNode) (p : string) : option FsNode :=
  walk root (normalize_segments false (split_path p) []).

(** ** Errors *)

Inductive JsError : Type :=
| TypeError
| SyntaxError
| ENOENT
| ENOTDIR
| EISDIR.

Inductive Outcome (A : Type) : Type :=
| Ok (a : A)
| Throw (e : JsError).
Arguments Ok {A} a.
Arguments Throw {A} e.

(** [fs.readFileSync(p, 'utf8')] on the node [p] names. *)
Definition readFile (node : option FsNode) : Outcome string :=
  match node with
  | Some (File content) => Ok content
  | Some (Dir _) => Throw EISDIR
  | None => Throw ENOENT
  end.

(** [fs.readdirSync(p)] on the node [p] names, with the nodes of the
    entries. *)
Definition readdir (node : option FsNode) : Outcome (list (string * FsNode)) :=
  match node with
  | Some (Dir entries) => Ok entries
  | Some (File _) => Throw ENOTDIR
  | None => Throw ENOENT
  end.

(** [fs.statSync(p).isDirectory()] on an entry. *)
Definition isDirectory (node : FsNode) : bool :=
  match node with
  | Dir _ => true
  | File _ => false
  end.
(** ** Host objects *)

Record TextDocument : Type := mkDocument {
  doc_id : nat;
  uri_scheme : string;
  uri_fsPath : string;
  getText : string
}.

Record TextEditor : Type := mkEditor {
  editor_id : nat;
  document : TextDocument;
  selection : Range
}.

Record WorkspaceFolder : Type := mkFolder {
  uri : string;
  fsPath : string
}.

(** ** The state of a workspace: the values of [workspaceStates] *)

Record WorkspaceState : Type := mkState {
  activeEditor : option nat;
  decorationType : option nat;
  inplaceAnnotationType : option nat;
  translations : Translations;
  displayLanguage : option string;
  localePath : string;
  configJsonPath : string
}.

Definition set_activeEditor (e : option nat) (s : WorkspaceState) :=
  mkState e (decorationType s) (inplaceAnnotationType s) (translations s)
    (displayLanguage s) (localePath s) (configJsonPath s).

Definition set_decorationType (d : option nat) (s : WorkspaceState) :=
  mkState (activeEditor s) d (inplaceAnnotationType s) (translations s)
    (displayLanguage s) (localePath s) (configJsonPath s).

Definition set_inplaceAnnotationType (i : option nat) (s : WorkspaceState) :=
  mkState (activeEditor s) (decorationType s) i (translations s)
    (displayLanguage s) (localePath s) (configJsonPath s).

Definition set_translations (t : Translations) (s : WorkspaceState) :=
  mkState (activeEditor s) (decorationType s) (inplaceAnnotationType s) t
    (displayLanguage s) (localePath s) (configJsonPath s).

Definition set_config (l : string) (d : option string) (s : WorkspaceState) :=
  mkState (activeEditor s) (decorationType s) (inplaceAnnotationType s)
    (translations s) d l (configJsonPath s).

(** What a callback given to [fs.watch] does. *)
Inductive WatchKind : Type :=
| LocaleFiles
| ConfigFile.

Record Watcher : Type := mkWatcher {
  watch_path : string;
  watch_recursive : bool;
  watch_kind : WatchKind;
  watch_folder : WorkspaceFolder
}.

(** The three listeners [initializeWorkspace] registers.  Each closes over
    the state object it created ([listener_state], a reference into the
    heap) and over its workspace folder. *)
Inductive ListenerKind : Type :=
| OnDidChangeActiveTextEditor
| OnDidChangeTextDocument
| OnDidChangeTextEditorSelection.

Record Listener : Type := mkListener {
  listener_kind : ListenerKind;
  listener_state : nat;
  listener_folder : WorkspaceFolder
}.

(** ** The world: the module state of the extension and the host

    [subscriptions] are the listeners pushed to [context.subscriptions],
    [folderListeners] counts the listeners given to
    [onDidChangeWorkspaceFolders], and [deferred] holds the selection
    listeners whose throttled function keeps a call for the end of its
    wait. *)

Record World : Type := mkWorld {
  fs : FsNode;
  editors : list TextEditor;
  visibleTextEditors : list nat;
  workspaceFolders : list WorkspaceFolder;
  heap : list WorkspaceState;
  workspaceStates : Js.Obj nat;
  rendered : list (nat * nat * list DecorationOptions);
  nextDecorationType : nat;
  watchers : list Watcher;
  subscriptions : list Listener;
  folderListeners : nat;
  deferred : list Listener;
  console : list string;
  unhandled : list JsError
}.

Definition with_heap (h : list WorkspaceState) (w : World) : World :=
  mkWorld (fs w) (editors w) (visibleTextEditors w) (workspaceFolders w) h
    (workspaceStates w) (rendered w) (nextDecorationType w) (watchers w)
    (subscriptions w) (folderListeners w) (deferred w) (console w)
    (unhandled w).

Definition with_workspaceStates (m : Js.Obj nat) (w : World) : World :=
  mkWorld (fs w) (editors w) (visibleTextEditors w) (workspaceFolders w)
    (heap w) m (rendered w) (nextDecorationType w) (watchers w)
    (subscriptions w) (folderListeners w) (deferred w) (console w)
    (unhandled w).

Definition with_rendered (r : list (nat * nat * list DecorationOptions))
    (w : World) : World :=
  mkWorld (fs w) (editors w) (visibleTextEditors w) (workspaceFolders w)
    (heap w) (workspaceStates w) r (nextDecorationType w) (watchers w)
    (subscriptions w) (folderListeners w) (deferred w) (console w)
    (unhandled w).

Definition with_nextDecorationType (n : nat) (w : World) : World :=
  mkWorld (fs w) (editors w) (visibleTextEditors w) (workspaceFolders w)
    (heap w) (workspaceStates w) (rendered w) n (watchers w)
    (subscriptions w) (folderListeners w) (deferred w) (console w)
    (unhandled w).

Definition with_watchers (l : list Watcher) (w : World) : World :=
  mkWorld (fs w) (editors w) (visibleTextEditors w) (workspaceFolders w)
    (heap w) (workspaceStates w) (rendered w) (nextDecorationType w) l
    (subscriptions w) (folderListeners w) (deferred w) (console w)
    (unhandled w).

Definition with_subscriptions (l : list Listener) (w : World) : World :=
  mkWorld (fs w) (editors w) (visibleTextEditors w) (workspaceFolders w)
    (heap w) (workspaceStates w) (rendered w) (nextDecorationType w)
    (watchers w) l (folderListeners w) (deferred w) (console w)
    (unhandled w).

Definition with_folderListeners (n : nat) (w : World) : World :=
  mkWorld (fs w) (editors w) (visibleTextEditors w) (workspaceFolders w)
    (heap w) (workspaceStates w) (rendered w) (nextDecorationType w)
    (watchers w) (subscriptions w) n (deferred w) (console w)
    (unhandled w).

Definition with_deferred (l : list Listener) (w : World) : World :=
  mkWorld (fs w) (editors w) (visibleTextEditors w) (workspaceFolders w)
    (heap w) (workspaceStates w) (rendered w) (nextDecorationType w)
    (watchers w) (subscriptions w) (folderListeners w) l (console w)
    (unhandled w).

Definition with_console (l : list string) (w : World) : World :=
  mkWorld (fs w) (editors w) (visibleTextEditors w) (workspaceFolders w)
    (heap w) (workspaceStates w) (rendered w) (nextDecorationType w)
    (watchers w) (subscriptions w) (folderListeners w) (deferred w) l
    (unhandled w).

Definition with_unhandled (l : list JsError) (w : World) : World :=
  mkWorld (fs w) (editors w) (visibleTextEditors w) (workspaceFolders w)
    (heap w) (workspaceStates w) (rendered w) (nextDecorationType w)
    (watchers w) (subscriptions w) (folderListeners w) (deferred w)
    (console w) l.

Definition with_host (f : FsNode) (es : list TextEditor) (vis : list nat)
    (wf : list WorkspaceFolder) (w : World) : World :=
  mkWorld f es vis wf (heap w) (workspaceStates w) (rendered w)
    (nextDecorationType w) (watchers w) (subscriptions w)
    (folderListeners w) (deferred w) (console w) (unhandled w).

(** ** Computations: state passing with exceptions

    A thrown exception keeps the world as it was when it was thrown. *)

Definition M (A : Type) : Type := World -> Outcome A * World.

Definition ret {A : Type} (a : A) : M A := fun w => (Ok a, w).

Definition bind {A B : Type} (c : M A) (k : A -> M B) : M B :=
  fun w =>
    match c w with
    | (Ok a, w') => k a w'
    | (Throw e, w') => (Throw e, w')
    end.

Definition throw {A : Type} (e : JsError) : M A := fun w => (Throw e, w).

(** [try { c } catch (error) { handler }]. *)
Definition try_catch {A : Type} (c : M A) (handler : JsError -> M A) : M A :=
  fun w =>
    match c w with
    | (Ok a, w') => (Ok a, w')
    | (Throw e, w') => handler e w'
    end.

Definition gets {A : Type} (f : World -> A) : M A := fun w => (Ok (f w), w).

Definition modify (f : World -> World) : M unit := fun w => (Ok tt, f w).

Definition lift {A : Type} (o : Outcome A) : M A := fun w => (o, w).

Declare Scope js_scope.
Delimit Scope js_scope with js.
Notation "x <- c ;; k" := (bind c (fun x => k))
  (at level 61, c at next level, right associativity) : js_scope.
Notation "c ;;; k" := (bind c (fun _ => k))
  (at level 61, right associativity) : js_scope.
Open Scope js_scope.

(** [array.forEach(f)]: a throw ends the iteration. *)
Fixpoint forEach {A : Type} (l : list A) (f : A -> M unit) : M unit :=
  match l with
  | [] => ret tt
  | a :: l' => f a ;;; forEach l' f
  end.

(** [console.error(message, error)]. *)
Definition console_error (message : string) : M unit :=
  modify (fun w => with_console (console w ++ [message])%list w).

(** ** The heap of state objects *)

Fixpoint update_nth {A : Type} (n : nat) (f : A -> A) (l : list A) : list A :=
  match n, l with
  | _, [] => []
  | 0, a :: l' => f a :: l'
  | S n', a :: l' => a :: update_nth n' f l'
  end.

(** A property read of the state object [r]. *)
Definition read_state (r : nat) : M WorkspaceState :=
  fun w =>
    match nth_error (heap w) r with
    | Some s => (Ok s, w)
    | None => (Throw TypeError, w)
    end.

(** A property write on the state object [r]. *)
Definition write_state (r : nat) (f : WorkspaceState -> WorkspaceState)
  : M unit :=
  modify (fun w => with_heap (update_nth r f (heap w)) w).

(** [workspaceStates.get(workspaceFolder.uri.toString())!] followed by a
    property access: on [undefined] the access throws a [TypeError]. *)
Definition the_state (folder : WorkspaceFolder) : M nat :=
  fun w =>
    match Js.get (workspaceStates w) (uri folder) with
    | Some r => (Ok r, w)
    | None => (Throw TypeError, w)
    end.

(** ** Decorations in the host *)

Definition find_editor (w : World) (id : nat) : option TextEditor :=
  find (fun e => Nat.eqb (editor_id e) id) (editors w).

(** [vscode.window.createTextEditorDecorationType(...)]. *)
Definition createTextEditorDecorationType : M nat :=
  fun w =>
    (Ok (nextDecorationType w),
     with_nextDecorationType (S (nextDecorationType w)) w).

Definition drop_rendered (editor type : nat)
    (r : list (nat * nat * list DecorationOptions)) :=
  filter (fun x => negb (Nat.eqb (fst (fst x)) editor
                         && Nat.eqb (snd (fst x)) type)) r.

(** [editor.setDecorations(type, options)]: the set the editor shows for
    this type is replaced. *)
Definition setDecorations (editor type : nat) (options : list DecorationOptions)
  : M unit :=
  modify (fun w =>
    with_rendered ((editor, type, options) :: drop_rendered editor type (rendered w)) w).

(** [type.dispose()]: no editor shows a decoration of this type any more. *)
Definition dispose (type : nat) : M unit :=
  modify (fun w =>
    with_rendered
      (filter (fun x => negb (Nat.eqb (snd (fst x)) type)) (rendered w)) w).

(** The decorations [editor] shows for [type]. *)
Definition shown (w : World) (editor type : nat) : list DecorationOptions :=
  match find (fun x => Nat.eqb (fst (fst x)) editor
                        && Nat.eqb (snd (fst x)) type) (rendered w) with
  | Some x => snd x
  | None => []
  end.

(** ** The extension *)

Section Extension.

(** [JSON.parse] on the text of a file: [None] when it throws. *)
Variable JSON_parse : string -> option (Js.Obj string).

Definition parse (content : string) : Outcome (Js.Obj string) :=
  match JSON_parse content with
  | Some value => Ok value
  | None => Throw SyntaxError
  end.

Definition config_name : string := ".iris-i18n.json".

(** *** [isPluginActiveInWorkspace] *)
Definition isPluginActiveInWorkspace (workspaceFolder : WorkspaceFolder)
  : M bool :=
  let configJsonPath := path_join (fsPath workspaceFolder) config_name in
  gets (fun w =>
          match resolve (fs w) configJsonPath with
          | Some _ => true
          | None => false
          end).

(** *** [updateDecorationsForWorkspace]

    The loop is [decorate]; an editor the host no longer knows shows
    nothing. *)
Definition updateDecorationsForWorkspace (workspaceFolder : WorkspaceFolder)
  : M unit :=
  r <- the_state workspaceFolder ;;
  state <- read_state r ;;
  match activeEditor state, decorationType state,
        inplaceAnnotationType state with
  | Some e, Some decoration, Some inplace =>
      editor <- gets (fun w => find_editor w e) ;;
      match editor with
      | Some editor =>
          let text := getText (document editor) in
          let arrays :=
            decorate text (selection editor) (translations state)
              (displayLanguage state) in
          setDecorations e decoration (decorationsArray arrays) ;;;
          setDecorations e inplace (inplaceAnnotations arrays)
      | None => ret tt
      end
  | _, _, _ => ret tt
  end.

(** *** [updateTranslationsForWorkspace]

    The two nested [forEach] callbacks thread the [translations] object
    and the lines written to the console. *)
Definition Loading : Type := (Translations * list string)%type.

(** [JSON.parse(fs.readFileSync(filePath, 'utf8'))]. *)
Definition read_document (node : FsNode) : Outcome (Js.Obj string) :=
  match readFile (Some node) with
  | Ok content => parse content
  | Throw e => Throw e
  end.

Definition error_reading (file : string) : string :=
  "Error reading " ++ file ++ ":".

(** The callback of the inner [forEach]: one file of a language folder.
    The read [state.translations[languageFolder]] finds the own property
    the outer callback created. *)
Definition load_file (languageFolder : string) (st : Loading)
    (entry : string * FsNode) : Loading :=
  let file := fst entry in
  if String.eqb (extname file) ".json" then
    match read_document (snd entry), Js.get (fst st) languageFolder with
    | Ok translationData, Some target =>
        (Js.set (fst st) languageFolder (Js.assign target translationData),
         snd st)
    | _, _ => (fst st, (snd st ++ [error_reading file])%list)
    end
  else st.

(** The callback of the outer [forEach]: one entry of the locale path. *)
Definition load_language (st : Loading) (entry : string * FsNode) : Loading :=
  let languageFolder := fst entry in
  match snd entry with
  | Dir files =>
      fold_left (load_file languageFolder) files
        (Js.set (fst st) languageFolder Js.empty, snd st)
  | File _ => st
  end.

Definition load_locale_tree (entries : list (string * FsNode)) : Loading :=
  fold_left load_language entries (Js.empty, []).

Definition updateTranslationsForWorkspace (workspaceFolder : WorkspaceFolder)
  : M unit :=
  r <- the_state workspaceFolder ;;
  state <- read_state r ;;
  match localePath state with
  | EmptyString => ret tt
  | _ =>
      write_state r (set_translations Js.empty) ;;;
      root <- gets fs ;;
      entries <- lift (readdir (resolve root (localePath state))) ;;
      let loaded := load_locale_tree entries in
      write_state r (set_translations (fst loaded)) ;;;
      modify (fun w => with_console (console w ++ snd loaded)%list w) ;;;
      updateDecorationsForWorkspace workspaceFolder
  end.

(** *** [readConfigFileForWorkspace]

    [locale_path] and [display_language] name no member of
    [Object.prototype]: the two reads of [config] give its own properties
    or [undefined].  With [undefined] for the locale path, [path.join]
    throws a [TypeError]. *)
Definition readConfigFileForWorkspace (workspaceFolder : WorkspaceFolder)
  : M unit :=
  let configJsonPath := path_join (fsPath workspaceFolder) config_name in
  try_catch
    (root <- gets fs ;;
     content <- lift (readFile (resolve root configJsonPath)) ;;
     config <- lift (parse content) ;;
     r <- the_state workspaceFolder ;;
     match Js.get config "locale_path" with
     | Some locale_path =>
         write_state r
           (set_config (path_join (fsPath workspaceFolder) locale_path)
              (Js.get config "display_language")) ;;;
         updateTranslationsForWorkspace workspaceFolder
     | None => throw TypeError
     end)
    (fun _ => console_error "Error reading .iris-i18n.json:").

(** *** [fs.watch] and the two watchers *)
Definition fs_watch (p : string) (recursive : bool) (kind : WatchKind)
    (workspaceFolder : WorkspaceFolder) : M unit :=
  root <- gets fs ;;
  match resolve root p with
  | Some _ =>
      modify (fun w =>
        with_watchers
          (watchers w ++ [mkWatcher p recursive kind workspaceFolder])%list w)
  | None => throw ENOENT
  end.

Definition watchConfigFileForWorkspace (workspaceFolder : WorkspaceFolder)
  : M unit :=
  let configJsonPath := path_join (fsPath workspaceFolder) config_name in
  fs_watch configJsonPath false ConfigFile workspaceFolder.

Definition watchLocaleFilesForWorkspace (workspaceFolder : WorkspaceFolder)
  : M unit :=
  r <- the_state workspaceFolder ;;
  state <- read_state r ;;
  match localePath state with
  | EmptyString => ret tt
  | p => fs_watch p true LocaleFiles workspaceFolder
  end.

(** The callback both watchers share, up to the function they call. *)
Definition watch_callback (watcher : Watcher) (eventType : string)
    (filename : option string) : M unit :=
  if String.eqb eventType "change" then
    match filename with
    | Some name =>
        if String.eqb (extname name) ".json" then
          match watch_kind watcher with
          | LocaleFiles =>
              updateTranslationsForWorkspace (watch_folder watcher)
          | ConfigFile => readConfigFileForWorkspace (watch_folder watcher)
          end
        else ret tt
    | None => throw TypeError
    end
  else ret tt.

(** *** [createDecorationTypeForWorkspace] *)
Definition createDecorationTypeForWorkspace
    (workspaceFolder : WorkspaceFolder) : M unit :=
  decoration <- createTextEditorDecorationType ;;
  r <- the_state workspaceFolder ;;
  write_state r (set_decorationType (Some decoration)) ;;;
  inplace <- createTextEditorDecorationType ;;
  write_state r (set_inplaceAnnotationType (Some inplace)).

(** *** [activate] *)

(** The test both [initializeWorkspace] and the listener of the active
    editor apply to an editor. *)
Definition belongs (editor : TextEditor) (workspaceFolder : WorkspaceFolder)
  : bool :=
  String.eqb (uri_scheme (document editor)) "file"
  && startsWith (uri_fsPath (document editor)) (fsPath workspaceFolder).

Definition adopt_editor (r : nat) (workspaceFolder : WorkspaceFolder)
    (editor : TextEditor) : M unit :=
  if belongs editor workspaceFolder then
    write_state r (set_activeEditor (Some (editor_id editor))) ;;;
    updateDecorationsForWorkspace workspaceFolder
  else ret tt.

Definition new_state (workspaceFolder : WorkspaceFolder) : WorkspaceState :=
  mkState None None None Js.empty (Some EmptyString) EmptyString
    (path_join (fsPath workspaceFolder) config_name).

Definition initializeWorkspace (workspaceFolder : WorkspaceFolder) : M unit :=
  active <- isPluginActiveInWorkspace workspaceFolder ;;
  if active then
    r <- gets (fun w => List.length (heap w)) ;;
    modify (fun w =>
      with_heap (heap w ++ [new_state workspaceFolder])%list w) ;;;
    modify (fun w =>
      with_workspaceStates
        (Js.set (workspaceStates w) (uri workspaceFolder) r) w) ;;;
    readConfigFileForWorkspace workspaceFolder ;;;
    createDecorationTypeForWorkspace workspaceFolder ;;;
    updateDecorationsForWorkspace workspaceFolder ;;;
    watchLocaleFilesForWorkspace workspaceFolder ;;;
    watchConfigFileForWorkspace workspaceFolder ;;;
    visible <- gets (fun w =>
      flat_map (fun id =>
                  match find_editor w id with
                  | Some editor => [editor]
                  | None => []
                  end) (visibleTextEditors w)) ;;
    forEach visible (adopt_editor r workspaceFolder) ;;;
    modify (fun w =>
      with_subscriptions
        (subscriptions w
           ++ [mkListener OnDidChangeActiveTextEditor r workspaceFolder;
               mkListener OnDidChangeTextDocument r workspaceFolder;
               mkListener OnDidChangeTextEditorSelection r workspaceFolder])%list
        w)
  else ret tt.

(** The callback of [event.removed.forEach]. *)
Definition forget_workspace (workspaceFolder : WorkspaceFolder) : M unit :=
  state <- gets (fun w =>
    match Js.get (workspaceStates w) (uri workspaceFolder) with
    | Some r => nth_error (heap w) r
    | None => None
    end) ;;
  match state with
  | Some s =>
      match decorationType s with
      | Some decoration => dispose decoration
      | None => ret tt
      end
  | None => ret tt
  end ;;;
  modify (fun w =>
    with_workspaceStates
      (Js.remove (workspaceStates w) (uri workspaceFolder)) w).

(** The listener [activate] gives to [onDidChangeWorkspaceFolders]. *)
Definition onDidChangeWorkspaceFolders (added removed : list WorkspaceFolder)
  : M unit :=
  forEach removed forget_workspace ;;;
  forEach added initializeWorkspace.

(** [activate]: the open folders are initialized, then the listener of
    the workspace folders is registered. *)
Definition activate : M unit :=
  folders <- gets workspaceFolders ;;
  forEach folders initializeWorkspace ;;;
  modify (fun w => with_folderListeners (S (folderListeners w)) w).

(** *** The listeners of a workspace *)

Definition onDidChangeActiveTextEditor (l : Listener)
    (editor : option TextEditor) : M unit :=
  match editor with
  | Some editor => adopt_editor (listener_state l) (listener_folder l) editor
  | None => ret tt
  end.

Definition onDidChangeTextDocument (l : Listener) (doc : nat) : M unit :=
  state <- read_state (listener_state l) ;;
  active <- gets (fun w =>
    match activeEditor state with
    | Some e => find_editor w e
    | None => None
    end) ;;
  match active with
  | Some editor =>
      if Nat.eqb doc (doc_id (document editor)) then
        updateDecorationsForWorkspace (listener_folder l)
      else ret tt
  | None => ret tt
  end.

(** The listeners that share the throttled function of [l]: the
    function is created once per call of [initializeWorkspace], and so
    once per state object. *)
Definition same_throttle (l x : Listener) : bool :=
  Nat.eqb (listener_state x) (listener_state l).

(** The throttled function forgets the call it kept. *)
Definition forget_deferred (l : Listener) : M unit :=
  modify (fun w =>
    with_deferred (filter (fun x => negb (same_throttle l x)) (deferred w)) w).

(** [throttle(updateDecorationsForWorkspace, 100)] called with the
    workspace folder.  A call that does not fall into the wait of an
    earlier one runs the function at once; a call that does ([held]) is
    kept in place of the one kept before, and the function runs with it
    when the wait is over. *)
Definition throttledUpdateDecorations (l : Listener) (held : bool) : M unit :=
  if held then
    modify (fun w =>
      with_deferred
        (l :: filter (fun x => negb (same_throttle l x)) (deferred w)) w)
  else
    forget_deferred l ;;;
    updateDecorationsForWorkspace (listener_folder l).

Definition onDidChangeTextEditorSelection (l : Listener) (textEditor : nat)
    (held : list nat) : M unit :=
  state <- read_state (listener_state l) ;;
  match activeEditor state with
  | Some e =>
      if Nat.eqb textEditor e then
        throttledUpdateDecorations l
          (existsb (Nat.eqb (listener_state l)) held)
      else ret tt
  | None => ret tt
  end.

(** The end of the wait of the throttled function of [l]: the call that
    was kept runs. *)
Definition throttleElapsed (l : Listener) : M unit :=
  forget_deferred l ;;;
  updateDecorationsForWorkspace (listener_folder l).

(** ** Events of the host

    A change of the selection comes in two forms: one that no throttled
    function holds back, and one that falls into the wait of the
    throttled functions of the state objects [held].  [ThrottleElapsed r]
    is the end of the wait of the throttled function of the state object
    [r]. *)

Inductive Event : Type :=
| DidChangeWorkspaceFolders (added removed : list WorkspaceFolder)
| DidChangeActiveTextEditor (editor : option TextEditor)
| DidChangeTextDocument (doc : nat) (text : string)
| DidChangeTextEditorSelection (textEditor : nat) (sel : Range)
| DidChangeTextEditorSelectionWithin (textEditor : nat) (sel : Range)
    (held : list nat)
| ThrottleElapsed (r : nat)
| FileChanged (fs' : FsNode) (watched : string) (eventType : string)
    (filename : option string).

(** The host calls a listener and reports what it throws. *)
Definition call (c : M unit) (w : World) : World :=
  match c w with
  | (Ok _, w') => w'
  | (Throw e, w') => with_unhandled (unhandled w' ++ [e])%list w'
  end.

Definition fire {A : Type} (targets : list A) (c : A -> M unit) (w : World)
  : World :=
  fold_left (fun w t => call (c t) w) targets w.

Definition of_kind (k : ListenerKind) (l : Listener) : bool :=
  match k, listener_kind l with
  | OnDidChangeActiveTextEditor, OnDidChangeActiveTextEditor => true
  | OnDidChangeTextDocument, OnDidChangeTextDocument => true
  | OnDidChangeTextEditorSelection, OnDidChangeTextEditorSelection => true
  | _, _ => false
  end.

Definition upsert_editor (editor : TextEditor) (l : list TextEditor)
  : list TextEditor :=
  editor :: filter (fun e => negb (Nat.eqb (editor_id e) (editor_id editor))) l.

Definition set_text (doc : nat) (text : string) (e : TextEditor) : TextEditor :=
  if Nat.eqb (doc_id (document e)) doc then
    mkEditor (editor_id e)
      (mkDocument doc (uri_scheme (document e)) (uri_fsPath (document e)) text)
      (selection e)
  else e.

Definition set_selection (id : nat) (sel : Range) (e : TextEditor) : TextEditor :=
  if Nat.eqb (editor_id e) id then mkEditor id (document e) sel else e.

Definition remove_folders (removed l : list WorkspaceFolder) :=
  filter (fun f => negb (existsb (fun g => String.eqb (uri f) (uri g)) removed)) l.

Definition selection_changed (textEditor : nat) (sel : Range)
    (held : list nat) (w : World) : World :=
  let w1 :=
    with_host (fs w) (map (set_selection textEditor sel) (editors w))
      (visibleTextEditors w) (workspaceFolders w) w in
  fire (filter (of_kind OnDidChangeTextEditorSelection) (subscriptions w1))
    (fun l => onDidChangeTextEditorSelection l textEditor held) w1.

(** One event: the host changes its own objects, then calls the
    listeners registered for the event. *)
Definition step (ev : Event) (w : World) : World :=
  match ev with
  | DidChangeWorkspaceFolders added removed =>
      let w1 :=
        with_host (fs w) (editors w) (visibleTextEditors w)
          (remove_folders removed (workspaceFolders w) ++ added)%list w in
      fire (repeat tt (folderListeners w1))
        (fun _ => onDidChangeWorkspaceFolders added removed) w1
  | DidChangeActiveTextEditor editor =>
      let w1 :=
        match editor with
        | Some e =>
            with_host (fs w) (upsert_editor e (editors w))
              (visibleTextEditors w) (workspaceFolders w) w
        | None => w
        end in
      fire (filter (of_kind OnDidChangeActiveTextEditor) (subscriptions w1))
        (fun l => onDidChangeActiveTextEditor l editor) w1
  | DidChangeTextDocument doc text =>
      let w1 :=
        with_host (fs w) (map (set_text doc text) (editors w))
          (visibleTextEditors w) (workspaceFolders w) w in
      fire (filter (of_kind OnDidChangeTextDocument) (subscriptions w1))
        (fun l => onDidChangeTextDocument l doc) w1
  | DidChangeTextEditorSelection textEditor sel =>
      selection_changed textEditor sel [] w
  | DidChangeTextEditorSelectionWithin textEditor sel held =>
      selection_changed textEditor sel held w
  | ThrottleElapsed r =>
      fire (filter (fun l => Nat.eqb (listener_state l) r) (deferred w))
        throttleElapsed w
  | FileChanged fs' watched eventType filename =>
      let w1 :=
        with_host fs' (editors w) (visibleTextEditors w)
          (workspaceFolders w) w in
      fire (filter (fun x => String.eqb (watch_path x) watched) (watchers w1))
        (fun x => watch_callback x eventType filename) w1
  end.

End Extension.

(** ** A reader of flat documents, for the examples

    It reads the documents [render] writes: an object of string members,
    without blanks and without escapes.  Anything else fails to parse. *)

Definition quoted (s : string) : string := str dquote ++ s ++ str dquote.

Fixpoint render_members (members : list (string * string)) : string :=
  match members with
  | [] => EmptyString
  | [(k, v)] => quoted k ++ ":" ++ quoted v
  | (k, v) :: rest => quoted k ++ ":" ++ quoted v ++ "," ++ render_members rest
  end.

Definition render (members : list (string * string)) : string :=
  "{" ++ render_members members ++ "}".

(** The characters up to the next double quote, and what follows it. *)
Fixpoint until_quote (s : string) : option (string * string) :=
  match s with
  | EmptyString => None
  | String c s' =>
      if Ascii.eqb c dquote then Some (EmptyString, s')
      else if Ascii.eqb c backslash then None
      else match until_quote s' with
           | Some (k, rest) => Some (String c k, rest)
           | None => None
           end
  end.

Definition read_string (s : string) : option (string * string) :=
  match s with
  | String c s' => if Ascii.eqb c dquote then until_quote s' else None
  | EmptyString => None
  end.

Fixpoint read_members (fuel : nat) (s : string) (acc : Js.Obj string)
  : option (Js.Obj string) :=
  match fuel with
  | 0 => None
  | S fuel' =>
      match read_string s with
      | Some (k, String c1 s1) =>
          if Ascii.eqb c1 ":"%char then
            match read_string s1 with
            | Some (v, String c2 s2) =>
                if Ascii.eqb c2 ","%char then
                  read_members fuel' s2 (Js.set acc k v)
                else if Ascii.eqb c2 "}"%char then
                  match s2 with
                  | EmptyString => Some (Js.set acc k v)
                  | _ => None
                  end
                else None
            | _ => None
            end
          else None
      | _ => None
      end
  end.

Definition read_flat (s : string) : option (Js.Obj string) :=
  match s with
  | String c s' =>
      if Ascii.eqb c "{"%char then
        if String.eqb s' "}" then Some Js.empty
        else read_members (String.length s') s' Js.empty
      else None
  | EmptyString => None
  end.

(** ** An example workspace

    The folder [/w/app] carries a descriptor and a locale tree with the
    locales [en] and [fr]; the folder [/w/app2] next to it is no
    workspace. *)

Module Demo.

Definition call_site (k : string) : string := call_open ++ k ++ call_close.

Definition greetings : Translations :=
  [("en", [("greet", "Hi")]); ("fr", [("greet", "Salut")])].

Definition descriptor : string :=
  render [("locale_path", "./locale"); ("display_language", "fr")].

Definition descriptor_without_language : string :=
  render [("locale_path", "./locale")].

Definition locale_tree : list (string * FsNode) :=
  [("en", Dir [("common.json", File (render [("greet", "Hi")]))]);
   ("fr", Dir [("common.json", File (render [("greet", "Salut")]))])].

Definition disk (descriptor : string) (locales : list (string * FsNode))
  : FsNode :=
  Dir [("w", Dir [
    ("app", Dir [
       (".iris-i18n.json", File descriptor);
       ("locale", Dir locales);
       ("main.go", File (call_site "greet"))]);
    ("app2", Dir [("main.go", File (call_site "greet"))])])].

Definition app : WorkspaceFolder := mkFolder "file:///w/app" "/w/app".

(** An editor on [/w/app/main.go], the cursor at the start of the text. *)
Definition editor1 : TextEditor :=
  mkEditor 1 (mkDocument 1 "file" "/w/app/main.go" (call_site "greet"))
    (mkRange 0 0).

(** An editor on [/w/app2/main.go], outside the workspace folder. *)
Definition editor2 : TextEditor :=
  mkEditor 2 (mkDocument 2 "file" "/w/app2/main.go" (call_site "greet"))
    (mkRange 0 0).

Definition boot (d : FsNode) : World :=
  mkWorld d [editor1] [1] [app] [] [] [] 0 [] [] 0 [] [] [].

(** The world once the extension is activated. *)
Definition started (d : FsNode) : World :=
  call (activate read_flat) (boot d).

(** The example workspace, running. *)
Definition running : World := started (disk descriptor locale_tree).

(** The example workspace with a descriptor that names no display
    language. *)
Definition running_without_language : World :=
  started (disk descriptor_without_language locale_tree).

(** The example workspace after its folder is removed from the open
    folders. *)
Definition removed : World :=
  step read_flat (DidChangeWorkspaceFolders [] [app]) running.

(** The running example after the cursor of the editor moved into the
    key. *)
Definition hovering : World :=
  step read_flat (DidChangeTextEditorSelection 1 (mkRange 9 9)) running.

(** The running example after the editor on [/w/app2/main.go] becomes
    the active editor. *)
Definition sibling_opened : World :=
  step read_flat (DidChangeActiveTextEditor (Some editor2)) running.

(** A locale tree in which two documents of [en] give the key greet. *)
Definition colliding_tree : list (string * FsNode) :=
  [("en", Dir [("a.json", File (render [("greet", "Hi"); ("bye", "Bye")]));
               ("b.json", File (render [("greet", "Hello")]))]);
   ("README", File "locales");
   ("fr", Dir [("a.json", File (render [("greet", "Salut")]))])].

(** A locale tree in which one of the three documents of [fr] does not
    parse. *)
Definition damaged_tree : list (string * FsNode) :=
  [("en", Dir [("common.json", File (render [("greet", "Hi")]))]);
   ("fr", Dir [("common.json", File (render [("greet", "Salut")]));
               ("bad.json", File "{oops");
               ("extra.json", File (render [("bye", "Au revoir")]))])].

(** A locale tree with two locales whose names are numbers. *)
Definition numbered_tree : list (string * FsNode) :=
  [("10", Dir [("a.json", File (render [("greet", "Ten")]))]);
   ("9", Dir [("a.json", File (render [("greet", "Nine")]))]);
   ("en", Dir [("a.json", File (render [("greet", "Hi")]))])].

(** The state of the workspace [app] once the extension is activated on
    a disk with the given locale tree. *)
Definition app_state (tr : Translations) : WorkspaceState :=
  mkState (Some 1) (Some 0) (Some 1) tr (Some "fr") "/w/app/locale"
    "/w/app/.iris-i18n.json".

End Demo.

(** ** Vocabulary of the statements *)

(** The characters of a string, for statements about each of them. *)
Definition chars (s : string) : list ascii := list_ascii_of_string s.

Definition snoc (m : RegExpExecArray) (acc : list RegExpExecArray) :=
  (acc ++ [m])%list.

(** A double quote of [s] that no backslash escapes. *)
Fixpoint has_unescaped_quote (s : string) : bool :=
  match s with
  | EmptyString => false
  | String c s' =>
      if Ascii.eqb c dquote then true
      else if Ascii.eqb c backslash then
        match s' with
        | EmptyString => false
        | String _ s'' => has_unescaped_quote s''
        end
      else has_unescaped_quote s'
  end.

Definition inline_color : string := "#d37070".
Definition inline_border : string := "0.5px solid #d37070; border-radius:2px".

(** An in-place annotation that shows [text] behind [rng]. *)
Definition inline_payload (rng : Range) (text : string) : DecorationOptions :=
  mkDecoration rng None (Some (mkAfter text inline_color inline_border)).

(** A hover decoration on [rng] with the given lines. *)
Definition hover_payload (rng : Range) (lines : list string) : DecorationOptions :=
  mkDecoration rng (Some (hover_markdown lines)) None.

(** The text of a hover message with the given lines: the heading, and
    every line in a block of its own. *)
Definition hover_text (lines : list string) : string :=
  "#### iris i18n " ++ str newline
    ++ "<div style=" ++ str dquote ++ "line-height:20px;" ++ str dquote ++ ">"
    ++ String.concat
         ("</div><div style=" ++ str dquote ++ "line-height:20px;"
            ++ str dquote ++ ">") lines
    ++ "</div>".

(** A hover decoration on [rng] that shows the given lines. *)
Definition hover_message (rng : Range) (lines : list string)
  : DecorationOptions :=
  mkDecoration rng (Some (mkMarkdown (hover_text lines) true true)) None.

(** The names of the members of [Object.prototype]. *)
Definition prototype_names : list string :=
  ["constructor"; "__defineGetter__"; "__defineSetter__"; "hasOwnProperty";
   "__lookupGetter__"; "__lookupSetter__"; "isPrototypeOf";
   "propertyIsEnumerable"; "toString"; "valueOf"; "__proto__";
   "toLocaleString"].

(** A name that is not the name of a member of [Object.prototype]. *)
Definition plain_name (k : string) : bool :=
  negb (existsb (String.eqb k) prototype_names).

(** The translation a mapping gives for a key, and the raw key when the
    mapping is missing, has no such key, or gives the empty string. *)
Definition resolved (mapping : option (Js.Obj string)) (k : string) : string :=
  match Js.optget mapping k with
  | Some EmptyString => k
  | Some translation => translation
  | None => k
  end.

(** Two names that are array indices, the first not above the second,
    and the first below the second. *)
Definition index_le (a b : string) : Prop :=
  match Js.arrayIndex a, Js.arrayIndex b with
  | Some i, Some j => (i <= j)%N
  | _, _ => False
  end.

Definition index_lt (a b : string) : Prop :=
  match Js.arrayIndex a, Js.arrayIndex b with
  | Some i, Some j => (i < j)%N
  | _, _ => False
  end.

(** The weight of a digit that stands before the numeral [s]. *)
Definition weight (s : string) : N := (10 ^ N.of_nat (String.length s))%N.

(** The names of the immediate subdirectories of a directory. *)
Definition subdirectories (entries : list (string * FsNode)) : list string :=
  map fst (filter (fun e => isDirectory (snd e)) entries).

(** The value of the last pair with the key [k]: the union of key-value
    pairs in which the later pair wins. *)
Fixpoint last_value (pairs : list (string * string)) (k : string)
  : option string :=
  match pairs with
  | [] => None
  | (k', v) :: rest =>
      match last_value rest k with
      | Some v' => Some v'
      | None => if String.eqb k' k then Some v else None
      end
  end.

(** The key-value pairs of a file of a language folder: those of the
    document when the file has the extension of a JSON document and
    parses, none otherwise. *)
Definition pairs_of_file (JSON_parse : string -> option (Js.Obj string))
    (f : string * FsNode) : list (string * string) :=
  if String.eqb (extname (fst f)) ".json" then
    match snd f with
    | File content =>
        match JSON_parse content with
        | Some pairs => pairs
        | None => []
        end
    | Dir _ => []
    end
  else [].

(** The pairs of the documents of a language folder, in listing order. *)
Definition document_pairs (JSON_parse : string -> option (Js.Obj string))
    (files : list (string * FsNode)) : list (string * string) :=
  flat_map (pairs_of_file JSON_parse) files.

(** A file that is a flat JSON document: it has the extension and it
    parses. *)
Definition is_document (JSON_parse : string -> option (Js.Obj string))
    (f : string * FsNode) : bool :=
  String.eqb (extname (fst f)) ".json"
  && match snd f with
     | File content =>
         match JSON_parse content with Some _ => true | None => false end
     | Dir _ => false
     end.

Fixpoint distinct (names : list string) : bool :=
  match names with
  | [] => true
  | n :: rest => negb (existsb (String.eqb n) rest) && distinct rest
  end.

(** A well-formed locale tree: the entries of the root bear distinct
    names, and every immediate subdirectory holds flat JSON documents
    only. *)
Definition well_formed_locale_tree
    (JSON_parse : string -> option (Js.Obj string))
    (entries : list (string * FsNode)) : bool :=
  distinct (map fst entries)
  && forallb (fun e =>
                match snd e with
                | Dir files => forallb (is_document JSON_parse) files
                | File _ => true
                end) entries.

(** A path that lies under a directory: the directory itself, or the
    directory, a separator and more. *)
Definition lies_under (dir p : string) : bool :=
  String.eqb p dir || startsWith p (dir ++ "/").

(** Two references of which the first ends before the call syntax of the
    second begins: the closing quote and parenthesis of the first and the
    opening of the second, ten characters, lie between the two keys. *)
Definition well_separated (r1 r2 : Reference) : Prop :=
  range_end (sourceRange r1) + 10 <= range_start (sourceRange r2).

(** A text that holds a call site: the opening of a call, a key that is
    not empty and has no line terminator, and the closing. *)
Definition holds_call_site (text : string) : Prop :=
  exists pre k post,
    text = pre ++ call_open ++ k ++ call_close ++ post
    /\ k <> EmptyString
    /\ (forall c, In c (chars k) -> isLineTerminator c = false).

(** A call site at the offset [i] of the text, with the key [k]: the
    opening of a call, the key, which is not empty and holds no line
    terminator, and the closing; no closing starts inside the key behind
    its first character. *)
Definition call_site_at (text : string) (i : nat) (k : string) : Prop :=
  exists pre post,
    text = pre ++ call_open ++ k ++ call_close ++ post
    /\ String.length pre = i
    /\ k <> EmptyString
    /\ (forall c, In c (chars k) -> isLineTerminator c = false)
    /\ (forall k1 k2, k = k1 ++ k2 ->
          k1 <> EmptyString -> k2 <> EmptyString ->
          startsWith (k2 ++ call_close ++ post) call_close = false).

(** The listeners and the watchers of [w] are still registered in [w'],
    in their places. *)
Definition keeps_registrations (w w' : World) : Prop :=
  (exists more, subscriptions w' = (subscriptions w ++ more)%list)
  /\ (exists more, watchers w' = (watchers w ++ more)%list).

(** Two worlds whose workspaces other than [folder] are the same: the map
    of the states is the same and every state object but the one of
    [folder] is unchanged. *)
Definition same_other_workspaces (folder : WorkspaceFolder) (w w' : World)
  : Prop :=
  workspaceStates w' = workspaceStates w
  /\ List.length (heap w') = List.length (heap w)
  /\ forall r, Js.get (workspaceStates w) (uri folder) <> Some r ->
               nth_error (heap w') r = nth_error (heap w) r.

(** A computation that, started in a world where [P] holds, leaves a
    world related to it by [R], whether it returns or throws. *)
Definition preserves_if {A : Type} (P : World -> Prop)
    (R : World -> World -> Prop) (c : M A) : Prop :=
  forall w, P w -> R w (snd (c w)).

(** The precondition that holds in every world. *)
Definition anywhere (w : World) : Prop := True.

(** The worlds in which [workspaceStates] gives [r] for the folder. *)
Definition has_state (folder : WorkspaceFolder) (r : option nat) (w : World)
  : Prop :=
  Js.get (workspaceStates w) (uri folder) = r.

(** Two worlds with the same listeners. *)
Definition same_subscriptions (w w' : World) : Prop :=
  subscriptions w' = subscriptions w.

(** A computation that registers no listener when it throws. *)
Definition quiet_throw {A : Type} (c : M A) : Prop :=
  forall w e w', c w = (Throw e, w') -> subscriptions w' = subscriptions w.

(** A language folder without the files the reader skips: what stays are
    the JSON documents that parse. *)
Definition keep_documents (JSON_parse : string -> option (Js.Obj string))
    (e : string * FsNode) : string * FsNode :=
  match snd e with
  | Dir files => (fst e, Dir (filter (is_document JSON_parse) files))
  | File _ => e
  end.

(** * Properties *)

(** ** Strings *)

Lemma append_assoc (a b c : string) : (a ++ b) ++ c = a ++ (b ++ c).
Proof. induction a as [|x a IH]; simpl; [reflexivity | now rewrite IH]. Qed.

Lemma append_empty_r (a : string) : a ++ EmptyString = a.
Proof. induction a as [|x a IH]; simpl; [reflexivity | now rewrite IH]. Qed.

Lemma length_append (a b : string) :
  String.length (a ++ b) = String.length a + String.length b.
Proof. induction a as [|x a IH]; simpl; [reflexivity | now rewrite IH]. Qed.

Lemma strip_Some (p s rest : string) : strip p s = Some rest <-> s = p ++ rest.
Proof.
  revert s; induction p as [|a p IH]; intros s; simpl.
  - split; [intros [= ->] | intros ->]; reflexivity.
  - destruct s as [|b s]; [split; discriminate|].
    destruct (Ascii.eqb_spec a b) as [->|Hab].
    + rewrite IH. split; [intros ->; reflexivity | intros [= ->]; reflexivity].
    + split; [discriminate | intros [= E _]; congruence].
Qed.

Lemma startsWith_true (s p : string) :
  startsWith s p = true <-> exists rest, s = p ++ rest.
Proof.
  unfold startsWith. destruct (strip p s) as [rest|] eqn:E.
  - apply strip_Some in E. split; [eauto | reflexivity].
  - split; [discriminate|]. intros [rest H].
    apply strip_Some in H. congruence.
Qed.

Lemma drop_append (a b : string) : drop (String.length a) (a ++ b) = b.
Proof. induction a as [|x a IH]; simpl; [reflexivity | exact IH]. Qed.

Lemma drop_length_le (n : nat) (s : string) :
  String.length (drop n s) <= String.length s.
Proof.
  revert s; induction n as [|n IH]; intros s; simpl; [lia|].
  destruct s as [|c s]; simpl; [lia|]. specialize (IH s). lia.
Qed.

Lemma drop_split (n : nat) (s : string) :
  n <= String.length s ->
  exists pre, s = pre ++ drop n s /\ String.length pre = n.
Proof.
  revert s; induction n as [|n IH]; intros s Hn.
  - exists EmptyString. split; reflexivity.
  - destruct s as [|c s]; simpl in Hn; [lia|].
    destruct (IH s) as [pre [E L]]; [lia|].
    exists (String c pre). simpl. split; [now rewrite <- E | now rewrite L].
Qed.

(** ** The regular expression *)

Arguments call_open : simpl never.
Arguments call_close : simpl never.

(** What a successful lazy group says about the text it ran on: the key is
    not empty, holds no line terminator, is followed by the closing text,
    and the closing text does not start at any earlier place behind the
    first character of the key. *)
Lemma lazy_group_Some (s k : string) :
  lazy_group s = Some k ->
  exists rest,
    s = k ++ call_close ++ rest
    /\ k <> EmptyString
    /\ (forall c, In c (chars k) -> isLineTerminator c = false)
    /\ (forall k1 k2, k = k1 ++ k2 -> k1 <> EmptyString -> k2 <> EmptyString ->
          startsWith (k2 ++ call_close ++ rest) call_close = false).
Proof.
  revert k; induction s as [|c s IH]; intros k; simpl; [discriminate|].
  destruct (isLineTerminator c) eqn:Hc; [discriminate|].
  destruct (startsWith s call_close) eqn:Hs.
  - intros [= <-]. apply startsWith_true in Hs as [rest ->].
    exists rest. repeat split; try discriminate.
    + intros c' [<-|[]]. exact Hc.
    + intros k1 k2 E N1 N2. destruct k1 as [|a k1]; [congruence|].
      simpl in E. injection E as _ E. destruct k1; simpl in E; [|discriminate].
      congruence.
  - destruct (lazy_group s) as [k'|] eqn:Hk; [|discriminate].
    intros [= <-]. destruct (IH k' eq_refl) as [rest [E [N [L Mn]]]].
    exists rest. repeat split; try discriminate.
    + change (String c s = String c (k' ++ call_close ++ rest)).
      now f_equal.
    + intros c' [<-|H]; [exact Hc | now apply L].
    + intros k1 k2 E' N1 N2. destruct k1 as [|a k1]; [congruence|].
      simpl in E'. injection E' as _ E'.
      destruct k1 as [|b k1].
      * simpl in E'. subst k2. rewrite E in Hs. exact Hs.
      * apply (Mn (String b k1) k2); [exact E' | discriminate | exact N2].
Qed.

Lemma match_here_Some (s k : string) :
  match_here s = Some k ->
  exists rest,
    s = call_open ++ k ++ call_close ++ rest
    /\ lazy_group (k ++ call_close ++ rest) = Some k.
Proof.
  unfold match_here. destruct (strip call_open s) as [r|] eqn:E; [|discriminate].
  intros H. apply strip_Some in E.
  destruct (lazy_group_Some _ _ H) as [rest [Er _]].
  exists rest. split; [now rewrite E, Er | now rewrite <- Er].
Qed.

(** A match of [search] lies in the text it searched: its [index] counts
    the characters before it, [match[0]] is the call site and [match[1]]
    the key between the quotes. *)
Lemma search_Some (s : string) (i : nat) (m : RegExpExecArray) :
  search s i = Some m ->
  exists pre rest,
    s = pre ++ match0 m ++ rest
    /\ index m = i + String.length pre
    /\ match0 m = call_open ++ match1 m ++ call_close
    /\ lazy_group (match1 m ++ call_close ++ rest) = Some (match1 m).
Proof.
  revert i; induction s as [|c s IH]; intros i; simpl.
  - destruct (match_here EmptyString) as [k|] eqn:E; [|discriminate].
    apply match_here_Some in E as [rest [E _]]. discriminate.
  - destruct (match_here (String c s)) as [k|] eqn:E.
    + intros [= <-]. apply match_here_Some in E as [rest [E L]].
      exists EmptyString, rest. simpl. repeat split.
      * rewrite E. unfold call_open. simpl.
        now rewrite !append_assoc.
      * lia.
      * exact L.
    + intros H. destruct (IH _ H) as [pre [rest [E' [I [M0 L]]]]].
      exists (String c pre), rest. simpl. repeat split.
      * now rewrite <- E'.
      * rewrite I. lia.
      * exact M0.
      * exact L.
Qed.

Lemma exec_Some (text : string) (lastIndex : nat) (m : RegExpExecArray) :
  exec text lastIndex = Some m ->
  exists pre rest,
    text = pre ++ match0 m ++ rest
    /\ index m = String.length pre
    /\ lastIndex <= index m
    /\ match0 m = call_open ++ match1 m ++ call_close
    /\ lazy_group (match1 m ++ call_close ++ rest) = Some (match1 m).
Proof.
  unfold exec. destruct (Nat.ltb_spec (String.length text) lastIndex) as [|Hle];
    [discriminate|].
  intros H. destruct (search_Some _ _ _ H) as [pre [rest [E [I [M0 L]]]]].
  destruct (drop_split lastIndex text Hle) as [pre0 [E0 L0]].
  exists (pre0 ++ pre), rest. repeat split.
  - rewrite append_assoc, <- E. exact E0.
  - rewrite I, length_append. lia.
  - lia.
  - exact M0.
  - exact L.
Qed.

(** ** The loop over the matches *)

Lemma while_exec_snoc (fuel : nat) (text : string) (i : nat)
    (l : list RegExpExecArray) :
  while_exec fuel text i snoc l = (l ++ while_exec fuel text i snoc [])%list.
Proof.
  revert i l; induction fuel as [|fuel IH]; intros i l; simpl.
  - now rewrite app_nil_r.
  - destruct (exec text i) as [m|]; [|now rewrite app_nil_r].
    rewrite (IH _ (snoc m l)), (IH _ (snoc m [])). unfold snoc.
    now rewrite <- app_assoc.
Qed.

(** The loop runs its body on the matches, in order. *)
Lemma while_exec_fold {A : Type} (fuel : nat) (text : string) (i : nat)
    (body : RegExpExecArray -> A -> A) (acc : A) :
  while_exec fuel text i body acc
  = fold_left (fun a m => body m a) (while_exec fuel text i snoc []) acc.
Proof.
  revert i acc; induction fuel as [|fuel IH]; intros i acc; simpl.
  - reflexivity.
  - destruct (exec text i) as [m|]; [|reflexivity].
    rewrite while_exec_snoc. simpl. apply IH.
Qed.

Lemma while_exec_In (fuel : nat) (text : string) (i : nat)
    (m : RegExpExecArray) :
  In m (while_exec fuel text i snoc []) ->
  exists lastIndex, exec text lastIndex = Some m.
Proof.
  revert i; induction fuel as [|fuel IH]; intros i; simpl; [intros []|].
  destruct (exec text i) as [m'|] eqn:E; [|intros []].
  rewrite while_exec_snoc. simpl. intros [<-|H]; [eauto | eapply IH, H].
Qed.

Lemma matches_exec (text : string) (m : RegExpExecArray) :
  In m (matches text) -> exists lastIndex, exec text lastIndex = Some m.
Proof. apply while_exec_In. Qed.

(** A match is behind [lastIndex], inside the text, and not empty. *)
Lemma exec_bounds (text : string) (lastIndex : nat) (m : RegExpExecArray) :
  exec text lastIndex = Some m ->
  lastIndex < index m + String.length (match0 m)
  /\ index m + String.length (match0 m) <= String.length text.
Proof.
  intros H. destruct (exec_Some _ _ _ H) as [pre [rest [E [I [Hle [M0 L]]]]]].
  assert (Hlen : String.length text
                 = String.length pre + String.length (match0 m)
                   + String.length rest)
    by (rewrite E at 1; rewrite !length_append; lia).
  assert (0 < String.length (match0 m))
    by (rewrite M0, length_append; unfold call_open; simpl; lia).
  lia.
Qed.

(** The fuel of the loop is never short: more of it changes nothing, so
    the loop ends because [exec] finds no further match. *)
Lemma while_exec_fuel {A : Type} (fuel extra : nat) (text : string) (i : nat)
    (body : RegExpExecArray -> A -> A) (acc : A) :
  String.length text <= i + fuel ->
  while_exec (fuel + extra) text i body acc = while_exec fuel text i body acc.
Proof.
  revert i acc; induction fuel as [|fuel IH]; intros i acc Hlen; simpl.
  - destruct extra as [|extra]; simpl; [reflexivity|].
    destruct (exec text i) as [m|] eqn:E; [|reflexivity].
    apply exec_bounds in E. lia.
  - destruct (exec text i) as [m|] eqn:E; [|reflexivity].
    apply IH. apply exec_bounds in E. lia.
Qed.

Lemma decorate_fuel (extra : nat) (text : string) (sel : Range)
    (tr : Translations) (lang : option string) :
  while_exec (String.length text + extra) text 0
    (loop_body text sel tr lang) (mkArrays [] [])
  = decorate text sel tr lang.
Proof. apply while_exec_fuel. lia. Qed.

Lemma filter_map {A B : Type} (f : A -> B) (p : B -> bool) (l : list A) :
  filter p (map f l) = map f (filter (fun a => p (f a)) l).
Proof.
  induction l as [|a l IH]; simpl; [reflexivity|].
  destruct (p (f a)); simpl; now rewrite IH.
Qed.

Lemma fold_loop_body (text : string) (sel : Range) (tr : Translations)
    (lang : option string) (ms : list RegExpExecArray) (acc : Arrays) :
  fold_left (fun a m => loop_body text sel tr lang m a) ms acc
  = mkArrays
      (decorationsArray acc
         ++ map (fun m => hover_decoration tr (key_range text m) (match1 m))
              (filter (fun m => intersects sel (key_range text m)) ms))%list
      (inplaceAnnotations acc
         ++ map (fun m =>
                   inplace_annotation tr lang (key_range text m) (match1 m))
              (filter (fun m => negb (intersects sel (key_range text m))) ms))%list.
Proof.
  revert acc; induction ms as [|m ms IH]; intros acc; simpl.
  - rewrite !app_nil_r. now destruct acc.
  - rewrite IH. unfold loop_body, intersects.
    destruct (intersection sel (key_range text m)); simpl;
      now rewrite <- app_assoc.
Qed.

(** The two arrays of [updateDecorationsForWorkspace], reference by
    reference: the hover decorations are those of the references that
    intersect the selection, the in-place annotations those of the
    references that do not, both in the order of the text. *)
Lemma decorate_scan (text : string) (sel : Range) (tr : Translations)
    (lang : option string) :
  decorate text sel tr lang
  = mkArrays
      (map (fun r => hover_decoration tr (sourceRange r) (key r))
         (filter (fun r => intersects sel (sourceRange r)) (scan text)))
      (map (fun r => inplace_annotation tr lang (sourceRange r) (key r))
         (filter (fun r => negb (intersects sel (sourceRange r))) (scan text))).
Proof.
  unfold decorate. rewrite while_exec_fold.
  fold (matches text). rewrite fold_loop_body. simpl.
  unfold scan. rewrite !filter_map, !map_map. reflexivity.
Qed.

(** ** The scanner *)

(** Where a reference of the scanner lies in the text. *)
Lemma scan_reference (text : string) (r : Reference) :
  In r (scan text) ->
  exists pre post,
    text = pre ++ call_open ++ key r ++ call_close ++ post
    /\ sourceRange r
       = mkRange (String.length pre + 8)
           (String.length pre + 8 + String.length (key r))
    /\ lazy_group (key r ++ call_close ++ post) = Some (key r).
Proof.
  unfold scan. rewrite in_map_iff. intros [m [<- Hm]].
  apply matches_exec in Hm as [i Hm].
  destruct (exec_bounds _ _ _ Hm) as [_ Hin].
  destruct (exec_Some _ _ _ Hm) as [pre [post [E [I [_ [M0 L]]]]]].
  exists pre, post. simpl. repeat split.
  - rewrite E, M0. now rewrite !append_assoc.
  - unfold key_range, positionAt, newRange.
    assert (Hl : String.length (match0 m) = 8 + String.length (match1 m) + 2).
    { rewrite M0, !length_append. reflexivity. }
    rewrite I in *. rewrite Hl in *.
    rewrite !Nat.min_l by lia.
    destruct (Nat.ltb_spec (String.length pre + (8 + String.length (match1 m) + 2) - 2)
                (String.length pre + 8)); [lia|].
    f_equal. lia.
  - exact L.
Qed.

Lemma exec_key_range (text : string) (lastIndex : nat) (m : RegExpExecArray) :
  exec text lastIndex = Some m ->
  String.length (match0 m) = 10 + String.length (match1 m)
  /\ key_range text m
     = mkRange (index m + 8) (index m + 8 + String.length (match1 m)).
Proof.
  intros H. destruct (exec_bounds _ _ _ H) as [_ Hin].
  destruct (exec_Some _ _ _ H) as [pre [post [_ [_ [_ [M0 _]]]]]].
  assert (Hl : String.length (match0 m) = 10 + String.length (match1 m)).
  { rewrite M0, !length_append. unfold call_open, call_close. simpl. lia. }
  split; [exact Hl|].
  unfold key_range, positionAt, newRange. rewrite Hl in *.
  rewrite !Nat.min_l by lia.
  destruct (Nat.ltb_spec (index m + (10 + String.length (match1 m)) - 2)
              (index m + 8)); [lia|].
  f_equal. lia.
Qed.

Lemma while_exec_from (fuel : nat) (text : string) (i : nat)
    (m : RegExpExecArray) :
  In m (while_exec fuel text i snoc []) -> i <= index m.
Proof.
  revert i; induction fuel as [|fuel IH]; intros i; simpl; [intros []|].
  destruct (exec text i) as [m'|] eqn:E; [|intros []].
  rewrite while_exec_snoc. simpl. intros [<-|H].
  - destruct (exec_Some _ _ _ E) as [? [? [_ [_ [Hle _]]]]]. exact Hle.
  - apply IH in H. apply exec_bounds in E. lia.
Qed.

Lemma while_exec_sorted (fuel : nat) (text : string) (i : nat) :
  StronglySorted
    (fun m1 m2 => index m1 + String.length (match0 m1) <= index m2)
    (while_exec fuel text i snoc []).
Proof.
  revert i; induction fuel as [|fuel IH]; intros i; simpl; [constructor|].
  destruct (exec text i) as [m|] eqn:E; [|constructor].
  rewrite while_exec_snoc. simpl. constructor; [apply IH|].
  apply Forall_forall. intros m' Hm'. now apply while_exec_from in Hm'.
Qed.

Lemma StronglySorted_map_In {A B : Type} (f : A -> B) (R : A -> A -> Prop)
    (S : B -> B -> Prop) (l : list A) :
  (forall a b, In a l -> In b l -> R a b -> S (f a) (f b)) ->
  StronglySorted R l -> StronglySorted S (map f l).
Proof.
  intros H Hs. induction Hs as [|a l Hs IH Hall]; simpl; [constructor|].
  constructor.
  - apply IH. intros x y Hx Hy. apply H; now right.
  - apply Forall_forall. intros b Hb. apply in_map_iff in Hb as [x [<- Hx]].
    rewrite Forall_forall in Hall. apply H; [now left | now right | auto].
Qed.

(** The references stand in the order of the text, the call syntax of
    each before the one of the next. *)
Lemma scan_separated (text : string) :
  StronglySorted well_separated (scan text).
Proof.
  unfold scan, matches.
  apply (StronglySorted_map_In (reference_of text)
           (fun m1 m2 => index m1 + String.length (match0 m1) <= index m2)).
  - intros a b Ha Hb Hab.
    apply while_exec_In in Ha as [ia Ha]. apply while_exec_In in Hb as [ib Hb].
    destruct (exec_key_range _ _ _ Ha) as [La Ra].
    destruct (exec_key_range _ _ _ Hb) as [Lb Rb].
    unfold well_separated, reference_of. simpl. rewrite Ra, Rb. simpl. lia.
  - apply while_exec_sorted.
Qed.

Lemma StronglySorted_In {A : Type} (R : A -> A -> Prop) (l : list A)
    (a b : A) :
  StronglySorted R l -> In a l -> In b l -> a = b \/ R a b \/ R b a.
Proof.
  induction 1 as [|x l Hs IH Hall]; [intros []|].
  rewrite Forall_forall in Hall.
  intros [<-|Ha] [<-|Hb]; auto.
Qed.

(** The lazy group succeeds on every key that is not empty and holds no
    line terminator, when the closing text follows. *)
Lemma lazy_group_complete (k post : string) :
  k <> EmptyString ->
  (forall c, In c (chars k) -> isLineTerminator c = false) ->
  exists k', lazy_group (k ++ call_close ++ post) = Some k'.
Proof.
  induction k as [|c k IH]; intros Hne Hlt; [congruence|].
  change (String c k ++ call_close ++ post)
    with (String c (k ++ call_close ++ post)).
  cbn [lazy_group]. rewrite (Hlt c (or_introl eq_refl)).
  destruct (startsWith (k ++ call_close ++ post) call_close) eqn:Hs;
    [eauto|].
  destruct k as [|c' k'].
  - exfalso. assert (startsWith (call_close ++ post) call_close = true)
      by (apply startsWith_true; eauto).
    change (startsWith (call_close ++ post) call_close = false) in Hs.
    congruence.
  - destruct IH as [k'' Hk]; [discriminate | intros x Hx; apply Hlt; now right|].
    rewrite Hk. eauto.
Qed.

Lemma strip_append (p s : string) : strip p (p ++ s) = Some s.
Proof. now apply strip_Some. Qed.

Lemma search_None (s : string) (i : nat) (pre rest : string) :
  search s i = None -> s = pre ++ rest -> match_here rest = None.
Proof.
  revert i pre; induction s as [|c s IH]; intros i pre; simpl.
  - destruct (match_here EmptyString) eqn:E; [discriminate|].
    intros _ Hs. destruct pre; [|discriminate]. simpl in Hs. now subst.
  - destruct (match_here (String c s)) eqn:E; [discriminate|].
    intros Hn Hs. destruct pre as [|a pre].
    + simpl in Hs. now subst.
    + simpl in Hs. injection Hs as _ Hs. eapply IH; eauto.
Qed.

Lemma scan_reference_key (text : string) (r : Reference) :
  In r (scan text) ->
  key r <> EmptyString
  /\ (forall c, In c (chars (key r)) -> isLineTerminator c = false)
  /\ exists pre post, text = pre ++ call_open ++ key r ++ call_close ++ post.
Proof.
  intros H. destruct (scan_reference _ _ H) as [pre [post [E [_ L]]]].
  destruct (lazy_group_Some _ _ L) as [rest [_ [N [Lt _]]]].
  split; [exact N|]. split; [exact Lt | eauto].
Qed.

Lemma search_here (s k : string) (i : nat) :
  match_here s = Some k ->
  search s i = Some (mkMatch i (call_open ++ k ++ call_close) k).
Proof.
  intros H. destruct s.
  - vm_compute in H. discriminate.
  - cbn [search]. now rewrite H.
Qed.

(** The lazy group gives exactly the key that is not empty, holds no
    line terminator, and inside which no closing text starts. *)
Lemma lazy_group_exact (k post : string) :
  k <> EmptyString ->
  (forall c, In c (chars k) -> isLineTerminator c = false) ->
  (forall k1 k2, k = k1 ++ k2 -> k1 <> EmptyString -> k2 <> EmptyString ->
     startsWith (k2 ++ call_close ++ post) call_close = false) ->
  lazy_group (k ++ call_close ++ post) = Some k.
Proof.
  induction k as [|c k IH]; intros Hne Hlt Hmin; [congruence|].
  change (String c k ++ call_close ++ post)
    with (String c (k ++ call_close ++ post)).
  cbn [lazy_group]. rewrite (Hlt c (or_introl eq_refl)).
  destruct k as [|c' k'].
  - replace (startsWith (EmptyString ++ call_close ++ post) call_close)
      with true; [reflexivity|].
    symmetry. apply startsWith_true. exists post. reflexivity.
  - rewrite (Hmin (str c) (String c' k'));
      [|reflexivity | discriminate | discriminate].
    rewrite IH; [reflexivity | discriminate | |].
    + intros x Hx. apply Hlt. right. exact Hx.
    + intros k1 k2 E N1 N2. apply (Hmin (String c k1) k2);
        [simpl; now rewrite E | discriminate | exact N2].
Qed.

(** At a call site the pattern matches, with the key of the call site. *)
Lemma call_site_match (text : string) (i : nat) (k : string) :
  call_site_at text i k ->
  match_here (drop i text) = Some k
  /\ i + 10 + String.length k <= String.length text.
Proof.
  intros [pre [post [E [L [N [Lt Mn]]]]]]. subst i.
  rewrite E, drop_append. unfold match_here. rewrite strip_append. split.
  - now apply lazy_group_exact.
  - rewrite !length_append. unfold call_open, call_close. simpl. lia.
Qed.

(** The search finds a match at the first place where the pattern
    matches, or before it. *)
Lemma search_leftmost (s : string) (j : nat) (pre rest k : string) :
  s = pre ++ rest -> match_here rest = Some k ->
  exists m, search s j = Some m /\ index m <= j + String.length pre.
Proof.
  revert j pre. induction s as [|c s IH]; intros j pre E Hm.
  - destruct pre; [|discriminate]. simpl in E. subst rest.
    vm_compute in Hm. discriminate.
  - cbn [search]. destruct (match_here (String c s)) as [k'|] eqn:Eh.
    + eexists. split; [reflexivity|]. simpl. lia.
    + destruct pre as [|a pre].
      * simpl in E. subst rest. congruence.
      * simpl in E. injection E as _ E.
        destruct (IH (S j) pre E Hm) as [m [Hs Hi]].
        exists m. split; [exact Hs|]. simpl. lia.
Qed.

Lemma drop_between (j i : nat) (text : string) :
  j <= i -> i <= String.length text ->
  exists pre, drop j text = pre ++ drop i text /\ String.length pre = i - j.
Proof.
  revert i text; induction j as [|j IH]; intros i text Hji Hi.
  - destruct (drop_split i text Hi) as [pre [E L]].
    exists pre. split; [exact E | lia].
  - destruct text as [|c text]; [simpl in Hi; lia|].
    destruct i as [|i]; [lia|]. simpl in *. apply IH; lia.
Qed.

(** Every place where the pattern matches lies in a match of the loop:
    it is the start of the match, or it is inside the match. *)
Lemma while_exec_covers (fuel : nat) (text : string) (j i : nat)
    (k : string) :
  String.length text <= j + fuel -> j <= i ->
  i + 10 + String.length k <= String.length text ->
  match_here (drop i text) = Some k ->
  exists m,
    In m (while_exec fuel text j snoc [])
    /\ index m <= i < index m + String.length (match0 m).
Proof.
  revert j; induction fuel as [|fuel IH]; intros j Hf Hji Hi Hm; [lia|].
  destruct (drop_between j i text Hji ltac:(lia)) as [pre [E L]].
  destruct (search_leftmost (drop j text) j pre (drop i text) k E Hm)
    as [m [Hs Hidx]].
  assert (He : exec text j = Some m).
  { unfold exec. destruct (Nat.ltb_spec (String.length text) j);
      [lia | exact Hs]. }
  cbn [while_exec]. rewrite He, while_exec_snoc.
  destruct (Nat.lt_ge_cases i (index m + String.length (match0 m)))
    as [Hin|Hout].
  - exists m. split; [left; reflexivity | lia].
  - destruct (IH (index m + String.length (match0 m))) as [m' [Hin' Hb]];
      try assumption.
    + apply exec_bounds in He. lia.
    + exists m'. split; [|exact Hb]. apply in_or_app. now right.
Qed.

(** C9.  Scanning the text made of the one call site of the key
    hello.world gives exactly one reference; its key is hello.world and
    its range goes from offset 8 to offset 19, the characters of the key
    without the call syntax and the quotes around it. *)
Theorem scan_hello_world :
  scan (Demo.call_site "hello.world")
  = [mkReference "hello.world" (mkRange 8 19)]
  /\ substring 8 (19 - 8) (Demo.call_site "hello.world") = "hello.world"
  /\ substring 0 8 (Demo.call_site "hello.world") = call_open
  /\ drop 19 (Demo.call_site "hello.world") = call_close.
Proof. repeat split. Qed.

(** C8, as stated, fails: in the text that opens a call site, then holds
    an a, a double quote and a b, and then closes the call site, the
    scanner finds the key made of a, the double quote and b, whose double
    quote is not escaped. *)
Lemma scan_key_with_unescaped_quote :
  scan (Demo.call_site ("a" ++ str dquote ++ "b"))
  = [mkReference ("a" ++ str dquote ++ "b") (mkRange 8 11)]
  /\ has_unescaped_quote ("a" ++ str dquote ++ "b") = true.
Proof. split; reflexivity. Qed.

(** C8, amended.  For every text, the call sites the scanner recognizes
    are exactly these: the places where the opening of a call site is
    followed by a key that is not empty and holds no line terminator and
    by the closing quote and parenthesis, the key being the shortest such
    run (no closing quote and parenthesis starts inside it behind its
    first character), and that do not lie inside another recognized call
    site.  The reference of a recognized call site has that key, and its
    range covers exactly the key.  The key may hold double quotes. *)
Theorem scan_call_sites (text : string) (r : Reference) :
  In r (scan text) <->
  exists i,
    call_site_at text i (key r)
    /\ sourceRange r = mkRange (i + 8) (i + 8 + String.length (key r))
    /\ forall r', In r' (scan text) ->
         ~ (range_start (sourceRange r') < i + 8
            /\ i < range_end (sourceRange r') + 2).
Proof.
  split.
  - intros H. destruct (scan_reference _ _ H) as [pre [post [E [R L]]]].
    destruct (lazy_group_Some _ _ L) as [rest [Er [N [Lt Mn]]]].
    assert (rest = post).
    { clear - Er. revert Er. generalize (key r) as k.
      induction k as [|c k IH]; simpl.
      - unfold call_close. simpl. now intros [= ->].
      - intros [= Hk]. now apply IH. }
    subst rest. exists (String.length pre). split; [|split].
    + exists pre, post. repeat split; assumption.
    + exact R.
    + intros r' Hr' [H1 H2].
      destruct (StronglySorted_In _ _ _ _ (scan_separated text) H Hr')
        as [<-|[Hs|Hs]]; unfold well_separated in *;
        rewrite R in *; simpl in *; lia.
  - intros [i [Hc [Hrange Hfree]]].
    destruct (call_site_match _ _ _ Hc) as [Hm Hlen].
    destruct (while_exec_covers (String.length text) text 0 i (key r)
                ltac:(lia) ltac:(lia) Hlen Hm) as [m [Hin [Hlo Hhi]]].
    change (In m (matches text)) in Hin.
    assert (Hr : In (reference_of text m) (scan text))
      by (apply in_map; exact Hin).
    destruct (matches_exec _ _ Hin) as [j He].
    destruct (exec_key_range _ _ _ He) as [Hl Hk].
    assert (Hi : index m = i).
    { destruct (Nat.eq_dec (index m) i) as [|Hne]; [assumption|].
      exfalso. apply (Hfree _ Hr). unfold reference_of. simpl.
      rewrite Hk. simpl. lia. }
    subst i.
    assert (Hkey : match1 m = key r).
    { destruct (exec_Some _ _ _ He) as [pre [rest [E [I [_ [M0 L]]]]]].
      assert (Hd : drop (index m) text
                   = call_open ++ match1 m ++ call_close ++ rest).
      { rewrite I. rewrite E at 1. rewrite drop_append, M0.
        now rewrite !append_assoc. }
      rewrite Hd in Hm. unfold match_here in Hm.
      rewrite strip_append in Hm. congruence. }
    replace r with (reference_of text m); [exact Hr|].
    destruct r as [k rng]. simpl in *. unfold reference_of.
    now rewrite Hk, Hkey, Hrange.
Qed.

Lemma scan_call_sites_witness :
  In (mkReference "hello.world" (mkRange 8 19))
    (scan (Demo.call_site "hello.world"))
  /\ exists i,
       call_site_at (Demo.call_site "hello.world") i "hello.world"
       /\ mkRange 8 19 = mkRange (i + 8) (i + 8 + 11).
Proof.
  split; [left; reflexivity|].
  destruct (proj1 (scan_call_sites (Demo.call_site "hello.world")
                     (mkReference "hello.world" (mkRange 8 19)))
              (or_introl eq_refl)) as [i [H1 [H2 _]]].
  exists i. split; [exact H1 | exact H2].
Defined.

(** Places the scanner does not recognize: a call with an empty key, a
    call whose key holds a line terminator, and a call site that lies
    inside the key of another one. *)
Example call_sites_not_recognized :
  scan (call_open ++ call_close) = []
  /\ scan (Demo.call_site ("a" ++ str newline ++ "b")) = []
  /\ scan (call_open ++ Demo.call_site "a")
     = [mkReference (call_open ++ "a") (mkRange 8 17)].
Proof. repeat split. Qed.

(** ** The two decoration sets *)

Lemma In_inplaceAnnotations (text : string) (sel : Range) (tr : Translations)
    (lang : option string) (d : DecorationOptions) :
  In d (inplaceAnnotations (decorate text sel tr lang)) <->
  exists r, In r (scan text)
            /\ intersects sel (sourceRange r) = false
            /\ d = inplace_annotation tr lang (sourceRange r) (key r).
Proof.
  rewrite decorate_scan. simpl. rewrite in_map_iff. split.
  - intros [r [<- H]]. apply filter_In in H as [H1 H2].
    exists r. apply negb_true_iff in H2. auto.
  - intros [r [H1 [H2 ->]]]. exists r. split; [reflexivity|].
    apply filter_In. split; [exact H1 | now rewrite H2].
Qed.

Lemma In_decorationsArray (text : string) (sel : Range) (tr : Translations)
    (lang : option string) (d : DecorationOptions) :
  In d (decorationsArray (decorate text sel tr lang)) <->
  exists r, In r (scan text)
            /\ intersects sel (sourceRange r) = true
            /\ d = hover_decoration tr (sourceRange r) (key r).
Proof.
  rewrite decorate_scan. simpl. rewrite in_map_iff. split.
  - intros [r [<- H]]. apply filter_In in H as [H1 H2]. eauto.
  - intros [r [H1 [H2 ->]]]. exists r. split; [reflexivity|].
    apply filter_In. auto.
Qed.

(** C1, as stated, fails.  With the preferred locale fr set and the
    cursor inside the key (offset 10), the reference intersects the
    selection and the loop produces no inline payload for it, only a
    hover decoration; with the cursor at offset 0 the reference does not
    intersect the selection and the loop produces no hover decoration for
    it, only an inline payload. *)
Lemma hovered_reference_gets_no_inline :
  scan (Demo.call_site "greet") = [mkReference "greet" (mkRange 8 13)]
  /\ intersects (mkRange 10 10) (mkRange 8 13) = true
  /\ inplaceAnnotations
       (decorate (Demo.call_site "greet") (mkRange 10 10)
          Demo.greetings (Some "fr")) = []
  /\ intersects (mkRange 0 0) (mkRange 8 13) = false
  /\ decorationsArray
       (decorate (Demo.call_site "greet") (mkRange 0 0)
          Demo.greetings (Some "fr")) = [].
Proof. repeat split. Qed.

Lemma get_In_keys {A : Type} (o : Js.Obj A) (k : string) (v : A) :
  Js.get o k = Some v -> In k (Js.keys o).
Proof.
  induction o as [|[k' v'] o IH]; simpl; [discriminate|].
  destruct (String.eqb_spec k' k) as [->|]; [now left | right; auto].
Qed.

Lemma In_keys_get {A : Type} (o : Js.Obj A) (k : string) :
  In k (Js.keys o) -> exists v, Js.get o k = Some v.
Proof.
  induction o as [|[k' v'] o IH]; simpl; [intros []|].
  destruct (String.eqb_spec k' k) as [->|Hne]; [eauto|].
  intros [E|H]; [congruence | auto].
Qed.

(** A plain name reads as the own property of that name, if any. *)
Lemma read_plain {A : Type} (o : Js.Obj A) (k : string) :
  plain_name k = true ->
  Js.read o k
  = match Js.get o k with
    | Some a => Js.Data a
    | None => Js.Undefined
    end.
Proof.
  unfold plain_name, prototype_names. cbn [existsb].
  rewrite negb_true_iff, !orb_false_iff.
  intros [H1 [H2 [H3 [H4 [H5 [H6 [H7 [H8 [H9 [H10 [H11 [H12 _]]]]]]]]]]]].
  unfold Js.read, Js.object_prototype, Js.object_methods. cbn [existsb].
  destruct (Js.get o k); [reflexivity|].
  now rewrite H1, H2, H3, H4, H5, H6, H7, H8, H9, H10, H11, H12.
Qed.

(** The text shown for a plain key in a language that is a locale of the
    translations or bears a plain name. *)
Lemma translated_plain (tr : Translations) (lang k : string) :
  plain_name k = true ->
  plain_name lang = true \/ In lang (Js.keys tr) ->
  translated tr lang k = resolved (Js.get tr lang) k.
Proof.
  intros Hk Hl. unfold translated, resolved.
  destruct (Js.get tr lang) as [mapping|] eqn:E.
  - unfold Js.read. rewrite E. cbn [Js.optread Js.optget].
    rewrite (read_plain mapping k Hk).
    now destruct (Js.get mapping k) as [[|c t]|].
  - destruct Hl as [Hl|Hl].
    + rewrite (read_plain tr lang Hl), E. reflexivity.
    + apply In_keys_get in Hl as [v Hv]. congruence.
Qed.

Lemma Permutation_insert {A : Type} (n : N) (kv : string * A)
    (l : list (N * (string * A))) :
  Permutation (Js.insert n kv l) ((n, kv) :: l).
Proof.
  induction l as [|[m kv'] l IH]; simpl; [reflexivity|].
  destruct (n <=? m)%N; [reflexivity|].
  rewrite IH. apply perm_swap.
Qed.

(** The order of enumeration lists every own property once. *)
Lemma Permutation_entries {A : Type} (o : Js.Obj A) :
  Permutation (Js.entries o) o.
Proof.
  unfold Js.entries. induction o as [|kv o IH]; [reflexivity|].
  cbn [Js.indexed Js.named filter]. unfold Js.isArrayIndex.
  destruct (Js.arrayIndex (fst kv)) as [n|]; cbn [negb].
  - rewrite Permutation_insert. cbn [map snd app]. now constructor.
  - rewrite <- Permutation_middle. now constructor.
Qed.

Lemma Permutation_ownKeys {A : Type} (o : Js.Obj A) :
  Permutation (Js.ownKeys o) (Js.keys o).
Proof. unfold Js.ownKeys, Js.keys. apply Permutation_map, Permutation_entries. Qed.

(** *** Array indices

    Two names with the same array index are the same name. *)

Lemma weight_cons (c : ascii) (s : string) :
  weight (String c s) = (10 * weight s)%N.
Proof.
  unfold weight. cbn [String.length]. rewrite Nat2N.inj_succ.
  apply N.pow_succ_r'.
Qed.

Lemma weight_pos (s : string) : (0 < weight s)%N.
Proof.
  unfold weight. pose proof (N.pow_nonzero 10 (N.of_nat (String.length s))).
  lia.
Qed.

Lemma digit_bound (c : ascii) (d : N) : Js.digit c = Some d -> (d <= 9)%N.
Proof.
  unfold Js.digit. destruct (N.leb_spec 48 (N_of_ascii c)); simpl; [|discriminate].
  destruct (N.leb_spec (N_of_ascii c) 57); [|discriminate].
  intros [= <-]. lia.
Qed.

Lemma digit_inj (c1 c2 : ascii) (d : N) :
  Js.digit c1 = Some d -> Js.digit c2 = Some d -> c1 = c2.
Proof.
  unfold Js.digit.
  destruct (N.leb_spec 48 (N_of_ascii c1)); simpl; [|discriminate].
  destruct (N.leb_spec (N_of_ascii c1) 57); [|discriminate].
  destruct (N.leb_spec 48 (N_of_ascii c2)); simpl; [|discriminate].
  destruct (N.leb_spec (N_of_ascii c2) 57); [|discriminate].
  intros [= <-] [= E].
  rewrite <- (ascii_N_embedding c1), <- (ascii_N_embedding c2).
  f_equal. lia.
Qed.

Lemma digit_zero (c : ascii) : Js.digit c = Some 0%N -> c = "0"%char.
Proof. intros H. apply (digit_inj c "0"%char 0%N H). reflexivity. Qed.

Lemma decimal_shift (s : string) (acc : N) :
  Js.decimal s acc
  = option_map (fun v => (acc * weight s + v)%N) (Js.decimal s 0).
Proof.
  revert acc; induction s as [|c s IH]; intros acc; cbn [Js.decimal].
  - unfold weight. simpl. f_equal. lia.
  - destruct (Js.digit c) as [d|]; [|reflexivity].
    rewrite (IH (acc * 10 + d)%N), (IH (0 * 10 + d)%N), weight_cons.
    destruct (Js.decimal s 0) as [x|]; [|reflexivity].
    cbn [option_map]. f_equal. lia.
Qed.

Lemma decimal_bound (s : string) (v : N) :
  Js.decimal s 0 = Some v -> (v < weight s)%N.
Proof.
  revert v; induction s as [|c s IH]; intros v; cbn [Js.decimal].
  - intros [= <-]. unfold weight. simpl. lia.
  - destruct (Js.digit c) as [d|] eqn:Ed; [|discriminate].
    rewrite decimal_shift, weight_cons.
    destruct (Js.decimal s 0) as [x|]; [|discriminate].
    intros [= <-]. apply digit_bound in Ed. specialize (IH x eq_refl). nia.
Qed.

Lemma decimal_inj (s1 s2 : string) (v : N) :
  String.length s1 = String.length s2 ->
  Js.decimal s1 0 = Some v -> Js.decimal s2 0 = Some v -> s1 = s2.
Proof.
  revert s2 v; induction s1 as [|c1 s1 IH]; intros [|c2 s2] v L;
    try discriminate; [reflexivity|].
  injection L as L. cbn [Js.decimal].
  destruct (Js.digit c1) as [d1|] eqn:E1; [|discriminate].
  destruct (Js.digit c2) as [d2|] eqn:E2; [|discriminate].
  rewrite (decimal_shift s1), (decimal_shift s2).
  destruct (Js.decimal s1 0) as [x1|] eqn:H1; [|discriminate].
  destruct (Js.decimal s2 0) as [x2|] eqn:H2; [|discriminate].
  cbn [option_map]. intros [= <-] [= E].
  pose proof (decimal_bound _ _ H1) as B1.
  pose proof (decimal_bound _ _ H2) as B2.
  assert (W : weight s1 = weight s2) by (unfold weight; now rewrite L).
  rewrite W in *.
  assert (d1 = d2) by nia. subst d2.
  assert (x1 = x2) by nia. subst x2.
  f_equal; [eapply digit_inj; eauto | eapply IH; eauto].
Qed.

(** A canonical numeral of more digits names a greater number. *)
Lemma decimal_low (c : ascii) (s : string) (v : N) :
  c <> "0"%char -> Js.decimal (String c s) 0 = Some v -> (weight s <= v)%N.
Proof.
  intros Hc. cbn [Js.decimal].
  destruct (Js.digit c) as [d|] eqn:Ed; [|discriminate].
  rewrite decimal_shift. destruct (Js.decimal s 0) as [x|]; [|discriminate].
  intros [= <-].
  assert (d <> 0%N) by (intros ->; now apply Hc, digit_zero).
  nia.
Qed.

Lemma weight_mono (s1 s2 : string) :
  String.length s1 <= String.length s2 -> (weight s1 <= weight s2)%N.
Proof. intros H. unfold weight. apply N.pow_le_mono_r; lia. Qed.

Lemma arrayIndex_inj (a b : string) (n : N) :
  Js.arrayIndex a = Some n -> Js.arrayIndex b = Some n -> a = b.
Proof.
  assert (Hcanon : forall k m, Js.arrayIndex k = Some m ->
            Js.decimal k 0 = Some m
            /\ exists c rest, k = String c rest
                 /\ (c = "0"%char -> rest = EmptyString)).
  { intros k m. unfold Js.arrayIndex. destruct k as [|c rest]; [discriminate|].
    destruct (Ascii.eqb_spec c "0"%char) as [->|Hc]; cbn [andb].
    - destruct (String.eqb_spec rest EmptyString) as [->|]; cbn [negb];
        [|discriminate].
      destruct (10 <? _)%nat; [discriminate|].
      destruct (Js.decimal _ 0) as [x|]; [|discriminate].
      destruct (x <? _)%N; [|discriminate]. intros [= <-]. eauto 6.
    - destruct (10 <? _)%nat; [discriminate|].
      destruct (Js.decimal _ 0) as [x|]; [|discriminate].
      destruct (x <? _)%N; [|discriminate]. intros [= <-].
      split; [reflexivity|]. exists c, rest. split; [reflexivity|].
      intros ->. congruence. }
  intros Ha Hb.
  destruct (Hcanon _ _ Ha) as [Da [ca [ra [-> Ca]]]].
  destruct (Hcanon _ _ Hb) as [Db [cb [rb [-> Cb]]]].
  assert (Hlen : forall c1 r1 c2 r2 v,
            (c1 = "0"%char -> r1 = EmptyString) ->
            (c2 = "0"%char -> r2 = EmptyString) ->
            Js.decimal (String c1 r1) 0 = Some v ->
            Js.decimal (String c2 r2) 0 = Some v ->
            String.length r1 < String.length r2 -> False).
  { intros c1 r1 c2 r2 v C1 C2 D1 D2 L.
    destruct (Ascii.eqb_spec c2 "0"%char) as [->|H2].
    - rewrite (C2 eq_refl) in L. simpl in L. lia.
    - pose proof (decimal_low c2 r2 v H2 D2) as Lo.
      pose proof (decimal_bound _ _ D1) as Hi.
      pose proof (weight_mono (String c1 r1) r2 ltac:(simpl; lia)). lia. }
  destruct (Nat.lt_trichotomy (String.length ra) (String.length rb))
    as [L|[L|L]].
  - exfalso. eapply (Hlen ca ra cb rb); eauto.
  - apply (decimal_inj _ _ n); [simpl; now rewrite L | assumption..].
  - exfalso. eapply (Hlen cb rb ca ra); eauto.
Qed.

(** Which names are array indices. *)
Example array_indices :
  Js.arrayIndex "0" = Some 0%N
  /\ Js.arrayIndex "9" = Some 9%N
  /\ Js.arrayIndex "10" = Some 10%N
  /\ Js.arrayIndex "4294967294" = Some 4294967294%N
  /\ Js.arrayIndex "4294967295" = None
  /\ Js.arrayIndex "07" = None
  /\ Js.arrayIndex "-1" = None
  /\ Js.arrayIndex "1.5" = None
  /\ Js.arrayIndex "en" = None
  /\ Js.arrayIndex EmptyString = None.
Proof. repeat split. Qed.

Lemma insert_sorted {A : Type} (n : N) (kv : string * A)
    (l : list (N * (string * A))) :
  StronglySorted (fun x y => (fst x <= fst y)%N) l ->
  StronglySorted (fun x y => (fst x <= fst y)%N) (Js.insert n kv l).
Proof.
  intros Hs. induction Hs as [|[m kv'] l Hs IH Hall]; cbn [Js.insert].
  - repeat constructor.
  - destruct (N.leb_spec n m) as [Hle|Hgt].
    + constructor; [now constructor|].
      constructor; [exact Hle|].
      eapply Forall_impl; [|exact Hall]. intros x Hx. simpl in *. lia.
    + constructor; [exact IH|].
      apply Forall_forall. intros x Hx.
      eapply Permutation_in in Hx; [|apply Permutation_insert].
      destruct Hx as [<-|Hx]; [simpl; lia|].
      rewrite Forall_forall in Hall. now apply Hall.
Qed.

Lemma indexed_sorted {A : Type} (o : Js.Obj A) :
  StronglySorted (fun x y => (fst x <= fst y)%N) (Js.indexed o).
Proof.
  induction o as [|kv o IH]; cbn [Js.indexed]; [constructor|].
  destruct (Js.arrayIndex (fst kv)); [now apply insert_sorted | exact IH].
Qed.

Lemma Forall_insert {A : Type} (n : N) (kv : string * A)
    (l : list (N * (string * A))) :
  Js.arrayIndex (fst kv) = Some n ->
  Forall (fun x => Js.arrayIndex (fst (snd x)) = Some (fst x)) l ->
  Forall (fun x => Js.arrayIndex (fst (snd x)) = Some (fst x))
    (Js.insert n kv l).
Proof.
  intros Hn Hl. induction Hl as [|[m kv'] l Hm Hl IH]; cbn [Js.insert].
  - now repeat constructor.
  - destruct (n <=? m)%N; repeat constructor; auto.
Qed.

Lemma Forall_indexed {A : Type} (o : Js.Obj A) :
  Forall (fun x => Js.arrayIndex (fst (snd x)) = Some (fst x)) (Js.indexed o).
Proof.
  induction o as [|kv o IH]; cbn [Js.indexed]; [constructor|].
  destruct (Js.arrayIndex (fst kv)) as [n|] eqn:E; [|exact IH].
  now apply Forall_insert.
Qed.

(** The order in which an object enumerates its properties: the names
    that are array indices in ascending order, then the other names in
    the order of their creation. *)
Lemma ownKeys_order {A : Type} (o : Js.Obj A) :
  exists numeric,
    Js.ownKeys o
    = (numeric ++ filter (fun n => negb (Js.isArrayIndex n)) (Js.keys o))%list
    /\ Permutation numeric (filter Js.isArrayIndex (Js.keys o))
    /\ StronglySorted index_le numeric.
Proof.
  exists (map (fun x => fst (snd x)) (Js.indexed o)). split; [|split].
  - unfold Js.ownKeys, Js.entries, Js.named, Js.keys.
    now rewrite map_app, map_map, filter_map.
  - unfold Js.keys. induction o as [|kv o IH]; [reflexivity|].
    cbn [Js.indexed map filter]. unfold Js.isArrayIndex at 1.
    destruct (Js.arrayIndex (fst kv)) as [n|]; [|exact IH].
    rewrite Permutation_insert. cbn [map fst snd]. now constructor.
  - pose proof (Forall_indexed o) as Hf. pose proof (indexed_sorted o) as Hs.
    induction Hs as [|x l Hs IH Hall]; cbn [map]; [constructor|].
    inversion Hf as [|? ? Hx Hl]; subst.
    constructor; [now apply IH|].
    rewrite Forall_forall in *. intros name Hin.
    apply in_map_iff in Hin as [y [<- Hy]].
    unfold index_le. rewrite Hx, (Hl y Hy). now apply Hall.
Qed.

Lemma StronglySorted_strict {A : Type} (R S : A -> A -> Prop) (l : list A) :
  (forall a b, R a b -> a <> b -> S a b) ->
  NoDup l -> StronglySorted R l -> StronglySorted S l.
Proof.
  intros H Hn Hs. induction Hs as [|a l Hs IH Hall]; [constructor|].
  inversion Hn as [|? ? Hnotin Hn']; subst.
  constructor; [now apply IH|].
  rewrite Forall_forall in *. intros b Hb. apply H; [now apply Hall|].
  intros ->. contradiction.
Qed.

Lemma NoDup_filter {A : Type} (p : A -> bool) (l : list A) :
  NoDup l -> NoDup (filter p l).
Proof.
  induction 1 as [|a l Hn Hd IH]; simpl; [constructor|].
  destruct (p a); [|exact IH]. constructor; [|exact IH].
  intros Hin. apply filter_In in Hin. tauto.
Qed.

(** Among distinct names the array indices are distinct, and so in
    strictly ascending order. *)
Lemma ownKeys_strict_order {A : Type} (o : Js.Obj A) :
  NoDup (Js.keys o) ->
  exists numeric,
    Js.ownKeys o
    = (numeric ++ filter (fun n => negb (Js.isArrayIndex n)) (Js.keys o))%list
    /\ Permutation numeric (filter Js.isArrayIndex (Js.keys o))
    /\ StronglySorted index_lt numeric.
Proof.
  intros Hn. destruct (ownKeys_order o) as [numeric [Ho [Hp Hs]]].
  exists numeric. split; [exact Ho|]. split; [exact Hp|].
  apply (StronglySorted_strict index_le); [| |exact Hs].
  - intros a b Hab Hne. unfold index_le, index_lt in *.
    destruct (Js.arrayIndex a) as [i|] eqn:Ea; [|contradiction].
    destruct (Js.arrayIndex b) as [j|] eqn:Eb; [|contradiction].
    destruct (N.eq_dec i j) as [->|]; [|lia].
    exfalso. apply Hne. exact (arrayIndex_inj a b j Ea Eb).
  - eapply Permutation_NoDup; [apply Permutation_sym, Hp|].
    now apply NoDup_filter.
Qed.

Lemma hover_markdown_text (lines : list string) :
  hover_markdown lines = mkMarkdown (hover_text lines) true true.
Proof. reflexivity. Qed.

(** The lines of the hover decoration of a plain key. *)
Lemma hover_lines_plain (tr : Translations) (k : string) :
  plain_name k = true ->
  hover_lines tr k
  = map (fun locale : string =>
           locale ++ ": " ++ resolved (Js.get tr locale) k)
      (Js.ownKeys tr).
Proof.
  intros Hk. unfold hover_lines. apply map_ext_in. intros locale Hin.
  rewrite translated_plain; [reflexivity | exact Hk|].
  right. eapply Permutation_in; [apply Permutation_ownKeys | exact Hin].
Qed.

(** C1, amended.  Take a reference whose key is not the name of a member
    of [Object.prototype].  If its range does not intersect the
    selection, the loop produces an inline payload whose text resolves
    the key in the translations of the display language (the translation,
    and the raw key when the lookup gives nothing or the empty string),
    whether or not a display language is set, provided the display
    language is a locale of the index or no such name either.  If its
    range intersects the selection, the loop produces a hover decoration
    whose message has one line per locale of the index, the locale, a
    colon and the key resolved in that locale. *)
Theorem plan_by_selection (text : string) (sel : Range) (tr : Translations)
    (lang : option string) (r : Reference) :
  In r (scan text) ->
  plain_name (key r) = true ->
  (intersects sel (sourceRange r) = false ->
     plain_name (Js.propertyKey lang) = true
     \/ In (Js.propertyKey lang) (Js.keys tr) ->
     In (inline_payload (sourceRange r)
           (resolved (Js.get tr (Js.propertyKey lang)) (key r)))
        (inplaceAnnotations (decorate text sel tr lang)))
  /\ (intersects sel (sourceRange r) = true ->
        In (hover_message (sourceRange r)
              (map (fun locale : string =>
                      locale ++ ": " ++ resolved (Js.get tr locale) (key r))
                 (Js.ownKeys tr)))
           (decorationsArray (decorate text sel tr lang))
        /\ Permutation (Js.ownKeys tr) (Js.keys tr)).
Proof.
  intros Hr Hk. split; intros Hi.
  - intros Hl. apply In_inplaceAnnotations. exists r.
    split; [exact Hr|]. split; [exact Hi|].
    unfold inline_payload, inplace_annotation.
    now rewrite (translated_plain tr _ _ Hk Hl).
  - split; [|apply Permutation_ownKeys].
    apply In_decorationsArray. exists r.
    split; [exact Hr|]. split; [exact Hi|].
    unfold hover_message, hover_decoration.
    now rewrite hover_markdown_text, (hover_lines_plain tr _ Hk).
Qed.

Lemma plan_by_selection_witness :
  In (mkReference "greet" (mkRange 8 13)) (scan (Demo.call_site "greet"))
  /\ plain_name "greet" = true
  /\ intersects (mkRange 0 0) (mkRange 8 13) = false
  /\ In (inline_payload (mkRange 8 13) "Salut")
       (inplaceAnnotations
          (decorate (Demo.call_site "greet") (mkRange 0 0)
             Demo.greetings (Some "fr")))
  /\ intersects (mkRange 10 10) (mkRange 8 13) = true
  /\ In (hover_message (mkRange 8 13) ["en: Hi"; "fr: Salut"])
       (decorationsArray
          (decorate (Demo.call_site "greet") (mkRange 10 10)
             Demo.greetings (Some "fr"))).
Proof.
  split; [left; reflexivity|]. split; [reflexivity|].
  split; [reflexivity|]. split.
  - exact (proj1 (plan_by_selection (Demo.call_site "greet") (mkRange 0 0)
                    Demo.greetings (Some "fr")
                    (mkReference "greet" (mkRange 8 13))
                    (or_introl eq_refl) eq_refl)
             eq_refl (or_introl eq_refl)).
  - split; [reflexivity|].
    exact (proj1 (proj2 (plan_by_selection (Demo.call_site "greet")
                           (mkRange 10 10) Demo.greetings (Some "fr")
                           (mkReference "greet" (mkRange 8 13))
                           (or_introl eq_refl) eq_refl)
                    eq_refl)).
Defined.

(** C2.  With the index of the two locales en (greet is Hi) and fr (greet
    is Salut) and the display language fr, a reference to the key greet
    whose range does not intersect the selection gets an inline payload
    whose text is Salut; one whose range intersects the selection gets a
    hover decoration whose text holds the line of en and the line of fr,
    and no inline payload lies on its range. *)
Theorem greet_payloads (text : string) (sel : Range) (r : Reference) :
  In r (scan text) ->
  key r = "greet" ->
  (intersects sel (sourceRange r) = false ->
     In (inline_payload (sourceRange r) "Salut")
        (inplaceAnnotations (decorate text sel Demo.greetings (Some "fr"))))
  /\ (intersects sel (sourceRange r) = true ->
        In (mkDecoration (sourceRange r)
              (Some (mkMarkdown
                       ("#### iris i18n " ++ str newline
                          ++ div_open ++ "en: Hi" ++ div_close
                          ++ div_open ++ "fr: Salut" ++ div_close)
                       true true))
              None)
           (decorationsArray (decorate text sel Demo.greetings (Some "fr")))
        /\ forall d,
             In d (inplaceAnnotations
                     (decorate text sel Demo.greetings (Some "fr"))) ->
             range d <> sourceRange r).
Proof.
  intros Hr Hk. split; intros Hi.
  - apply In_inplaceAnnotations. exists r. repeat split; try assumption.
    now rewrite Hk.
  - split.
    + apply In_decorationsArray. exists r. repeat split; try assumption.
      now rewrite Hk.
    + intros d Hd E. apply In_inplaceAnnotations in Hd as [r' [_ [Hi' ->]]].
      simpl in E. rewrite E in Hi'. congruence.
Qed.

Lemma greet_payloads_witness :
  In (mkReference "greet" (mkRange 8 13)) (scan (Demo.call_site "greet"))
  /\ intersects (mkRange 0 0) (mkRange 8 13) = false
  /\ In (inline_payload (mkRange 8 13) "Salut")
       (inplaceAnnotations
          (decorate (Demo.call_site "greet") (mkRange 0 0)
             Demo.greetings (Some "fr"))).
Proof.
  split; [left; reflexivity|]. split; [reflexivity|].
  exact (proj1 (greet_payloads (Demo.call_site "greet") (mkRange 0 0)
                  (mkReference "greet" (mkRange 8 13))
                  (or_introl eq_refl) eq_refl)
           eq_refl).
Defined.

(** C7, as stated, fails.  The descriptor of the example workspace names
    no display language, so the state holds [undefined] for it; the
    editor, whose cursor is away from the key, still shows an inline
    payload, the raw key. *)
Lemma inline_without_display_language_shown :
  map displayLanguage (heap Demo.running_without_language) = [None]
  /\ map inplaceAnnotationType (heap Demo.running_without_language)
     = [Some 1]
  /\ shown Demo.running_without_language 1 1
     = [inline_payload (mkRange 8 13) "greet"].
Proof. vm_compute. repeat split. Qed.

(** C7, amended.  When the display language is absent and no locale bears
    the name undefined, an inline payload is still produced for every
    reference whose range does not intersect the selection, and its text
    is the raw key; the references that intersect the selection get their
    hover decorations as with any display language. *)
Theorem inline_without_display_language (text : string) (sel : Range)
    (tr : Translations) (r : Reference) :
  Js.get tr "undefined" = None ->
  In r (scan text) ->
  (intersects sel (sourceRange r) = false ->
     In (inline_payload (sourceRange r) (key r))
        (inplaceAnnotations (decorate text sel tr None)))
  /\ (intersects sel (sourceRange r) = true ->
        In (hover_payload (sourceRange r) (hover_lines tr (key r)))
           (decorationsArray (decorate text sel tr None)))
  /\ (forall lang,
        decorationsArray (decorate text sel tr None)
        = decorationsArray (decorate text sel tr lang)).
Proof.
  intros Hu Hr. repeat split.
  - intros Hi. apply In_inplaceAnnotations. exists r. repeat split; auto.
    unfold inplace_annotation, inline_payload, translated, Js.read.
    cbn [Js.propertyKey]. now rewrite Hu.
  - intros Hi. apply In_decorationsArray. exists r. auto.
  - intros lang. now rewrite !decorate_scan.
Qed.

Lemma inline_without_display_language_witness :
  Js.get Demo.greetings "undefined" = None
  /\ In (mkReference "greet" (mkRange 8 13)) (scan (Demo.call_site "greet"))
  /\ intersects (mkRange 0 0) (mkRange 8 13) = false
  /\ In (inline_payload (mkRange 8 13) "greet")
       (inplaceAnnotations
          (decorate (Demo.call_site "greet") (mkRange 0 0)
             Demo.greetings None)).
Proof.
  split; [reflexivity|]. split; [left; reflexivity|]. split; [reflexivity|].
  exact (proj1 (inline_without_display_language (Demo.call_site "greet")
                  (mkRange 0 0) Demo.greetings
                  (mkReference "greet" (mkRange 8 13))
                  eq_refl (or_introl eq_refl))
           eq_refl).
Defined.

(** C10.  When the index maps a locale to a key whose value is the empty
    string, the raw key is shown instead.  The message of the hover
    decoration of a reference to the key has, at the place of that locale
    among the locales, the line made of the locale, a colon and the key;
    and with that locale as display language the inline payload of the
    reference is the key. *)
Theorem empty_translation_falls_back (text : string) (sel : Range)
    (tr : Translations) (locale : string) (mapping : Js.Obj string)
    (r : Reference) :
  Js.get tr locale = Some mapping ->
  Js.get mapping (key r) = Some EmptyString ->
  In r (scan text) ->
  (intersects sel (sourceRange r) = true ->
     forall lang, exists before after,
       In (hover_message (sourceRange r)
             (before ++ (locale ++ ": " ++ key r) :: after))
          (decorationsArray (decorate text sel tr lang))
       /\ List.length before + S (List.length after)
          = List.length (Js.keys tr))
  /\ (intersects sel (sourceRange r) = false ->
        In (inline_payload (sourceRange r) (key r))
           (inplaceAnnotations (decorate text sel tr (Some locale)))).
Proof.
  intros Hl Hk Hr.
  assert (Ht : translated tr locale (key r) = key r).
  { unfold translated, Js.read. rewrite Hl. cbn [Js.optread].
    unfold Js.read. now rewrite Hk. }
  split.
  - intros Hi lang.
    assert (Hin : In locale (Js.ownKeys tr)).
    { eapply Permutation_in;
        [apply Permutation_sym, Permutation_ownKeys | eapply get_In_keys, Hl]. }
    apply in_split in Hin as [l1 [l2 E]].
    exists (map (fun l => l ++ ": " ++ translated tr l (key r)) l1),
           (map (fun l => l ++ ": " ++ translated tr l (key r)) l2).
    split.
    + apply In_decorationsArray. exists r.
      split; [exact Hr|]. split; [exact Hi|].
      unfold hover_message, hover_decoration.
      rewrite hover_markdown_text. unfold hover_lines.
      now rewrite E, map_app, map_cons, Ht.
    + rewrite !length_map.
      rewrite <- (Permutation_length (Permutation_ownKeys tr)), E, length_app.
      reflexivity.
  - intros Hi. apply In_inplaceAnnotations. exists r. repeat split; auto.
    unfold inplace_annotation, inline_payload. cbn [Js.propertyKey].
    now rewrite Ht.
Qed.

Lemma empty_translation_falls_back_witness :
  In (mkReference "greet" (mkRange 8 13)) (scan (Demo.call_site "greet"))
  /\ intersects (mkRange 9 9) (mkRange 8 13) = true
  /\ (exists before after,
        In (hover_message (mkRange 8 13) (before ++ "en: greet" :: after))
           (decorationsArray
              (decorate (Demo.call_site "greet") (mkRange 9 9)
                 [("en", [("greet", EmptyString)]);
                  ("fr", [("greet", "Salut")])] (Some "fr")))
        /\ List.length before + S (List.length after) = 2)
  /\ intersects (mkRange 0 0) (mkRange 8 13) = false
  /\ In (inline_payload (mkRange 8 13) "greet")
       (inplaceAnnotations
          (decorate (Demo.call_site "greet") (mkRange 0 0)
             [("en", [("greet", EmptyString)]);
              ("fr", [("greet", "Salut")])] (Some "en"))).
Proof.
  split; [left; reflexivity|]. split; [reflexivity|]. split.
  - exact (proj1 (empty_translation_falls_back (Demo.call_site "greet")
                    (mkRange 9 9)
                    [("en", [("greet", EmptyString)]);
                     ("fr", [("greet", "Salut")])] "en"
                    [("greet", EmptyString)]
                    (mkReference "greet" (mkRange 8 13))
                    eq_refl eq_refl (or_introl eq_refl))
             eq_refl (Some "fr")).
  - split; [reflexivity|].
    exact (proj2 (empty_translation_falls_back (Demo.call_site "greet")
                    (mkRange 0 0)
                    [("en", [("greet", EmptyString)]);
                     ("fr", [("greet", "Salut")])] "en"
                    [("greet", EmptyString)]
                    (mkReference "greet" (mkRange 8 13))
                    eq_refl eq_refl (or_introl eq_refl))
             eq_refl).
Defined.

(** ** Objects used as dictionaries *)

Lemma get_set {A : Type} (o : Js.Obj A) (k k' : string) (v : A) :
  Js.get (Js.set o k v) k' = if String.eqb k k' then Some v else Js.get o k'.
Proof.
  induction o as [|[k0 v0] o IH]; simpl.
  - reflexivity.
  - destruct (String.eqb_spec k0 k) as [->|Hne]; simpl.
    + destruct (String.eqb k k'); reflexivity.
    + destruct (String.eqb_spec k0 k') as [->|Hne'].
      * destruct (String.eqb_spec k k'); [congruence | reflexivity].
      * exact IH.
Qed.

Lemma keys_set {A : Type} (o : Js.Obj A) (k : string) (v : A) (l : string) :
  In l (Js.keys (Js.set o k v)) <-> l = k \/ In l (Js.keys o).
Proof.
  induction o as [|[k0 v0] o IH]; simpl.
  - intuition.
  - destruct (String.eqb_spec k0 k) as [->|Hne]; simpl.
    + intuition.
    + rewrite IH. intuition.
Qed.

Lemma keys_set_present {A : Type} (o : Js.Obj A) (k : string) (v : A) :
  In k (Js.keys o) -> Js.keys (Js.set o k v) = Js.keys o.
Proof.
  induction o as [|[k0 v0] o IH]; simpl; [intros []|].
  destruct (String.eqb_spec k0 k) as [->|Hne]; simpl; [reflexivity|].
  intros [E|H]; [congruence | now rewrite IH].
Qed.

Lemma NoDup_keys_set {A : Type} (o : Js.Obj A) (k : string) (v : A) :
  NoDup (Js.keys o) -> NoDup (Js.keys (Js.set o k v)).
Proof.
  induction o as [|[k0 v0] o IH]; simpl; intros H.
  - constructor; [intros [] | constructor].
  - inversion H as [|? ? Hn Hd]; subst.
    destruct (String.eqb_spec k0 k) as [->|Hne]; simpl.
    + now constructor.
    + constructor; [|now apply IH].
      intros Hin. apply keys_set in Hin as [E|Hin]; congruence.
Qed.

Lemma get_remove {A : Type} (o : Js.Obj A) (k : string) :
  Js.get (Js.remove o k) k = None.
Proof.
  induction o as [|[k0 v0] o IH]; simpl; [reflexivity|].
  destruct (String.eqb_spec k0 k) as [->|Hne]; simpl; [exact IH|].
  destruct (String.eqb_spec k0 k); [congruence | exact IH].
Qed.

Lemma last_value_app (a b : list (string * string)) (k : string) :
  last_value (a ++ b) k
  = match last_value b k with
    | Some v => Some v
    | None => last_value a k
    end.
Proof.
  induction a as [|[k0 v0] a IH]; simpl.
  - now destruct (last_value b k).
  - rewrite IH. now destruct (last_value b k).
Qed.

Lemma get_fold_set (pairs : list (string * string)) (target : Js.Obj string)
    (k : string) :
  Js.get (fold_left (fun t kv => Js.set t (fst kv) (snd kv)) pairs target) k
  = match last_value pairs k with
    | Some v => Some v
    | None => Js.get target k
    end.
Proof.
  revert target.
  induction pairs as [|[k0 v0] pairs IH]; intros target; simpl.
  - reflexivity.
  - rewrite IH, get_set. simpl.
    destruct (last_value pairs k); [reflexivity|].
    now destruct (String.eqb k0 k).
Qed.

Lemma keys_fold_set (pairs : list (string * string)) (target : Js.Obj string)
    (k : string) :
  In k (Js.keys (fold_left (fun t kv => Js.set t (fst kv) (snd kv))
                   pairs target))
  <-> In k (Js.keys target) \/ In k (map fst pairs).
Proof.
  revert target.
  induction pairs as [|[k0 v0] pairs IH]; intros target; simpl.
  - intuition.
  - rewrite IH, keys_set. intuition.
Qed.

(** A pair that moves past the pairs of other keys leaves the last value
    of every key as it was. *)
Lemma last_value_insert (n : N) (kv : string * string)
    (l : list (N * (string * string))) (k : string) :
  Js.arrayIndex (fst kv) = Some n ->
  Forall (fun x => Js.arrayIndex (fst (snd x)) = Some (fst x)) l ->
  last_value (map snd (Js.insert n kv l)) k
  = last_value (kv :: map snd l) k.
Proof.
  intros Hn Hl. induction Hl as [|[m [k1 v1]] l Hm Hl IH]; [reflexivity|].
  cbn [Js.insert]. destruct (N.leb_spec n m) as [Hle|Hgt]; [reflexivity|].
  cbn [map snd last_value]. rewrite IH. destruct kv as [k0 v0].
  cbn [map snd last_value fst] in *.
  destruct (last_value (map snd l) k); [reflexivity|].
  destruct (String.eqb_spec k0 k) as [->|];
    [|now destruct (String.eqb k1 k)].
  destruct (String.eqb_spec k1 k) as [->|]; [|reflexivity].
  rewrite Hn in Hm. injection Hm as <-. lia.
Qed.

Lemma last_value_indexed (o : Js.Obj string) (k : string) :
  last_value (map snd (Js.indexed o)) k
  = if Js.isArrayIndex k then last_value o k else None.
Proof.
  unfold Js.isArrayIndex.
  induction o as [|[k0 v0] o IH]; cbn [Js.indexed fst].
  - now destruct (Js.arrayIndex k).
  - destruct (Js.arrayIndex k0) as [n|] eqn:E0.
    + rewrite last_value_insert; [|exact E0 | apply Forall_indexed].
      cbn [last_value]. rewrite IH.
      destruct (Js.arrayIndex k) as [m|] eqn:Ek; [reflexivity|].
      destruct (String.eqb_spec k0 k) as [->|]; [congruence | reflexivity].
    + rewrite IH. cbn [last_value].
      destruct (Js.arrayIndex k) as [m|] eqn:Ek; [|reflexivity].
      destruct (last_value o k); [reflexivity|].
      destruct (String.eqb_spec k0 k) as [->|]; [congruence | reflexivity].
Qed.

Lemma last_value_named (o : Js.Obj string) (k : string) :
  last_value (Js.named o) k
  = if Js.isArrayIndex k then None else last_value o k.
Proof.
  unfold Js.named.
  induction o as [|[k0 v0] o IH]; cbn [filter fst].
  - now destruct (Js.isArrayIndex k).
  - destruct (Js.isArrayIndex k0) eqn:E0; cbn [negb last_value]; rewrite IH.
    + destruct (Js.isArrayIndex k) eqn:Ek; [reflexivity|].
      destruct (last_value o k); [reflexivity|].
      destruct (String.eqb_spec k0 k) as [->|]; [congruence | reflexivity].
    + destruct (Js.isArrayIndex k) eqn:Ek; [|reflexivity].
      destruct (String.eqb_spec k0 k) as [->|]; [congruence | reflexivity].
Qed.

(** The order in which the properties of a source are visited does not
    change which pair of a key is the last. *)
Lemma last_value_entries (o : Js.Obj string) (k : string) :
  last_value (Js.entries o) k = last_value o k.
Proof.
  unfold Js.entries.
  rewrite last_value_app, last_value_named, last_value_indexed.
  destruct (Js.isArrayIndex k); [reflexivity|].
  now destruct (last_value o k).
Qed.

(** [Object.assign] gives every key the value of its last pair in the
    source and keeps the other properties of the target. *)
Lemma get_assign (target source : Js.Obj string) (k : string) :
  Js.get (Js.assign target source) k
  = match last_value source k with
    | Some v => Some v
    | None => Js.get target k
    end.
Proof.
  unfold Js.assign. now rewrite get_fold_set, last_value_entries.
Qed.

Lemma keys_assign (target source : Js.Obj string) (k : string) :
  In k (Js.keys (Js.assign target source))
  <-> In k (Js.keys target) \/ In k (Js.keys source).
Proof.
  unfold Js.assign. rewrite keys_fold_set.
  assert (In k (map fst (Js.entries source)) <-> In k (Js.keys source)).
  { split; apply Permutation_in;
      [|apply Permutation_sym]; apply (Permutation_ownKeys source). }
  tauto.
Qed.

Lemma distinct_NoDup (names : list string) :
  distinct names = true -> NoDup names.
Proof.
  induction names as [|n names IH]; simpl; intros H; [constructor|].
  apply andb_true_iff in H as [H1 H2]. constructor; [|auto].
  intros Hin. apply negb_true_iff in H1.
  assert (existsb (String.eqb n) names = true); [|congruence].
  apply existsb_exists. exists n. split; [exact Hin | apply String.eqb_refl].
Qed.

(** ** Reading the locale tree *)

Section Loading.

Variable JSON_parse : string -> option (Js.Obj string).

#[local] Abbreviation load_file := (load_file JSON_parse).
#[local] Abbreviation load_language := (load_language JSON_parse).
#[local] Abbreviation load_locale_tree := (load_locale_tree JSON_parse).
#[local] Abbreviation pairs_of_file := (pairs_of_file JSON_parse).
#[local] Abbreviation document_pairs := (document_pairs JSON_parse).

(** One file: the object of the language folder takes the pairs of the
    file, nothing else changes. *)
Lemma load_file_get (lang : string) (st : Loading) (f : string * FsNode)
    (target : Js.Obj string) :
  Js.get (fst st) lang = Some target ->
  exists target',
    Js.get (fst (load_file lang st f)) lang = Some target'
    /\ (forall k, Js.get target' k
                  = match last_value (pairs_of_file f) k with
                    | Some v => Some v
                    | None => Js.get target k
                    end)
    /\ (forall k, In k (Js.keys target')
                  <-> In k (Js.keys target) \/ In k (map fst (pairs_of_file f)))
    /\ (forall l, l <> lang ->
          Js.get (fst (load_file lang st f)) l = Js.get (fst st) l)
    /\ Js.keys (fst (load_file lang st f)) = Js.keys (fst st).
Proof.
  intros Ht. unfold load_file, pairs_of_file, read_document, parse, readFile.
  destruct f as [file node]; simpl.
  destruct (String.eqb (extname file) ".json").
  - destruct node as [content|entries].
    + destruct (JSON_parse content) as [data|].
      * rewrite Ht. simpl. exists (Js.assign target data).
        rewrite get_set, String.eqb_refl. repeat split.
        -- apply get_assign.
        -- apply keys_assign.
        -- apply keys_assign.
        -- intros l Hl. rewrite get_set.
           destruct (String.eqb_spec lang l); [congruence | reflexivity].
        -- apply keys_set_present. eapply get_In_keys, Ht.
      * simpl. exists target. repeat split; simpl; intuition.
    + simpl. exists target. repeat split; simpl; intuition.
  - exists target. repeat split; simpl; intuition.
Qed.

(** The files of a language folder, one after the other. *)
Lemma load_files_get (lang : string) (files : list (string * FsNode))
    (st : Loading) (target : Js.Obj string) :
  Js.get (fst st) lang = Some target ->
  exists target',
    Js.get (fst (fold_left (load_file lang) files st)) lang = Some target'
    /\ (forall k, Js.get target' k
                  = match last_value (document_pairs files) k with
                    | Some v => Some v
                    | None => Js.get target k
                    end)
    /\ (forall k, In k (Js.keys target')
                  <-> In k (Js.keys target)
                      \/ In k (map fst (document_pairs files)))
    /\ (forall l, l <> lang ->
          Js.get (fst (fold_left (load_file lang) files st)) l
          = Js.get (fst st) l)
    /\ Js.keys (fst (fold_left (load_file lang) files st)) = Js.keys (fst st).
Proof.
  revert st target; induction files as [|f files IH]; intros st target Ht.
  - exists target. simpl. repeat split; intuition.
  - destruct (load_file_get lang st f target Ht)
      as [t1 [G1 [V1 [K1 [O1 Ks1]]]]].
    destruct (IH _ _ G1) as [t2 [G2 [V2 [K2 [O2 Ks2]]]]].
    exists t2. simpl. repeat split.
    + exact G2.
    + intros k. unfold document_pairs in *. simpl.
      rewrite last_value_app, V2, V1.
      now destruct (last_value (flat_map pairs_of_file files) k).
    + rewrite K2, K1. unfold document_pairs. simpl.
      rewrite map_app, in_app_iff. tauto.
    + rewrite K2, K1. unfold document_pairs. simpl.
      rewrite map_app, in_app_iff. tauto.
    + intros l Hl. now rewrite O2, O1.
    + now rewrite Ks2, Ks1.
Qed.

(** The translations do not depend on what was written to the console. *)
Lemma load_file_console (lang : string) (t : Translations)
    (c1 c2 : list string) (f : string * FsNode) :
  fst (load_file lang (t, c1) f) = fst (load_file lang (t, c2) f).
Proof.
  unfold load_file; simpl.
  destruct (String.eqb (extname (fst f)) ".json"); [|reflexivity].
  destruct (read_document JSON_parse (snd f)); [|reflexivity].
  destruct (Js.get t lang); reflexivity.
Qed.

Lemma load_files_console (lang : string) (files : list (string * FsNode))
    (t : Translations) (c1 c2 : list string) :
  fst (fold_left (load_file lang) files (t, c1))
  = fst (fold_left (load_file lang) files (t, c2)).
Proof.
  revert t c1 c2; induction files as [|f files IH]; intros t c1 c2; simpl.
  - reflexivity.
  - pose proof (load_file_console lang t c1 c2 f) as E.
    destruct (load_file lang (t, c1) f) as [t1 d1].
    destruct (load_file lang (t, c2) f) as [t2 d2].
    simpl in E. subst t2. apply IH.
Qed.

Lemma load_language_console (t : Translations) (c1 c2 : list string)
    (e : string * FsNode) :
  fst (load_language (t, c1) e) = fst (load_language (t, c2) e).
Proof.
  unfold load_language; simpl. destruct (snd e); [reflexivity|].
  apply load_files_console.
Qed.

Lemma load_entries_console (entries : list (string * FsNode))
    (t : Translations) (c1 c2 : list string) :
  fst (fold_left load_language entries (t, c1))
  = fst (fold_left load_language entries (t, c2)).
Proof.
  revert t c1 c2; induction entries as [|e entries IH]; intros t c1 c2; simpl.
  - reflexivity.
  - pose proof (load_language_console t c1 c2 e) as E.
    destruct (load_language (t, c1) e) as [t1 d1].
    destruct (load_language (t, c2) e) as [t2 d2].
    simpl in E. subst t2. apply IH.
Qed.

(** One entry of the locale path. *)
Lemma load_language_get (st : Loading) (e : string * FsNode) :
  (forall l, In l (Js.keys (fst (load_language st e)))
             <-> In l (Js.keys (fst st)) \/ In l (subdirectories [e]))
  /\ (forall files, snd e = Dir files ->
        exists mapping,
          Js.get (fst (load_language st e)) (fst e) = Some mapping
          /\ (forall k, Js.get mapping k = last_value (document_pairs files) k)
          /\ (forall k, In k (Js.keys mapping)
                        <-> In k (map fst (document_pairs files))))
  /\ (forall l, l <> fst e ->
        Js.get (fst (load_language st e)) l = Js.get (fst st) l)
  /\ (NoDup (Js.keys (fst st)) ->
      NoDup (Js.keys (fst (load_language st e)))).
Proof.
  destruct e as [lang node]. unfold load_language, subdirectories. simpl.
  destruct node as [content|files]; simpl.
  - split; [tauto|]. split; [intros files [=]|]. split; [reflexivity | tauto].
  - destruct (load_files_get lang files
                (Js.set (fst st) lang Js.empty, snd st) Js.empty)
      as [m [G [V [K [O Ks]]]]].
    { simpl. now rewrite get_set, String.eqb_refl. }
    simpl in *. split; [|split; [|split]].
    + intros l. rewrite Ks, keys_set. intuition congruence.
    + intros files' [= <-]. exists m. split; [exact G|]. split.
      * intros k. rewrite V. now destruct (last_value (document_pairs files) k).
      * intros k. rewrite K. simpl. tauto.
    + intros l Hl. rewrite O by exact Hl. rewrite get_set.
      destruct (String.eqb_spec lang l); [congruence | reflexivity].
    + intros Hn. rewrite Ks. now apply NoDup_keys_set.
Qed.

Lemma subdirectories_cons (e : string * FsNode)
    (entries : list (string * FsNode)) (l : string) :
  In l (subdirectories (e :: entries))
  <-> In l (subdirectories [e]) \/ In l (subdirectories entries).
Proof.
  unfold subdirectories. simpl. destruct (isDirectory (snd e)); simpl; tauto.
Qed.

(** The entries of the locale path, one after the other. *)
Lemma load_entries_get (entries : list (string * FsNode)) (st : Loading) :
  NoDup (map fst entries) ->
  (forall l, In l (Js.keys (fst (fold_left load_language entries st)))
             <-> In l (Js.keys (fst st)) \/ In l (subdirectories entries))
  /\ (forall lang files, In (lang, Dir files) entries ->
        exists mapping,
          Js.get (fst (fold_left load_language entries st)) lang
          = Some mapping
          /\ (forall k, Js.get mapping k = last_value (document_pairs files) k)
          /\ (forall k, In k (Js.keys mapping)
                        <-> In k (map fst (document_pairs files))))
  /\ (forall l, ~ In l (map fst entries) ->
        Js.get (fst (fold_left load_language entries st)) l
        = Js.get (fst st) l)
  /\ (NoDup (Js.keys (fst st)) ->
      NoDup (Js.keys (fst (fold_left load_language entries st)))).
Proof.
  revert st; induction entries as [|e entries IH]; intros st Hnd; simpl.
  - split; [unfold subdirectories; simpl; tauto|].
    split; [intros lang files []|]. split; [reflexivity | tauto].
  - inversion Hnd as [|? ? Hnotin Hnd']; subst.
    destruct (load_language_get st e) as [K1 [G1 [O1 N1]]].
    destruct (IH (load_language st e) Hnd') as [K2 [G2 [O2 N2]]].
    split; [|split; [|split]].
    + intros l. rewrite (subdirectories_cons e entries l), K2, K1. tauto.
    + intros lang files [E|Hin].
      * subst e. rewrite O2 by exact Hnotin. now apply G1.
      * now apply G2.
    + intros l Hl. simpl in Hl.
      rewrite O2 by (intros H; apply Hl; now right). apply O1.
      intros E. apply Hl. left. congruence.
    + intros Hn. auto.
Qed.

End Loading.

(** ** The functions of the extension on the world *)

Lemma nth_error_update_nth {A : Type} (r : nat) (f : A -> A) (l : list A) :
  nth_error (update_nth r f l) r = option_map f (nth_error l r).
Proof.
  revert l; induction r as [|r IH]; intros [|a l]; simpl; auto.
Qed.

(** [updateDecorationsForWorkspace] on a workspace that has a state: it
    returns, and it touches nothing but the decorations the editors
    show. *)
Lemma updateDecorationsForWorkspace_returns (folder : WorkspaceFolder)
    (w : World) (r : nat) (state : WorkspaceState) :
  Js.get (workspaceStates w) (uri folder) = Some r ->
  nth_error (heap w) r = Some state ->
  exists w',
    updateDecorationsForWorkspace folder w = (Ok tt, w')
    /\ heap w' = heap w
    /\ console w' = console w
    /\ workspaceStates w' = workspaceStates w
    /\ watchers w' = watchers w
    /\ subscriptions w' = subscriptions w.
Proof.
  intros Hs Hh. unfold updateDecorationsForWorkspace, bind, the_state, read_state.
  rewrite Hs, Hh.
  destruct (activeEditor state) as [e|]; [|exists w; now repeat split].
  destruct (decorationType state) as [d|]; [|exists w; now repeat split].
  destruct (inplaceAnnotationType state) as [i|]; [|exists w; now repeat split].
  unfold gets. destruct (find_editor w e) as [editor|];
    [|exists w; now repeat split].
  unfold setDecorations, modify. eexists. split; [reflexivity|].
  now repeat split.
Qed.

Section Building.

Variable JSON_parse : string -> option (Js.Obj string).

(** [updateTranslationsForWorkspace] on a workspace whose locale path
    names a directory: it returns, the state holds the translations
    read from the entries of the directory, and the console has the
    lines of the documents that were skipped. *)
Lemma updateTranslationsForWorkspace_loads (folder : WorkspaceFolder)
    (w : World) (r : nat) (state : WorkspaceState)
    (entries : list (string * FsNode)) :
  Js.get (workspaceStates w) (uri folder) = Some r ->
  nth_error (heap w) r = Some state ->
  localePath state <> EmptyString ->
  resolve (fs w) (localePath state) = Some (Dir entries) ->
  exists w',
    updateTranslationsForWorkspace JSON_parse folder w = (Ok tt, w')
    /\ nth_error (heap w') r
       = Some (set_translations
                 (fst (load_locale_tree JSON_parse entries)) state)
    /\ console w'
       = (console w ++ snd (load_locale_tree JSON_parse entries))%list.
Proof.
  intros Hs Hh Hp Hr.
  unfold updateTranslationsForWorkspace, bind at 1 2, the_state, read_state.
  rewrite Hs, Hh.
  destruct (localePath state) as [|c p] eqn:Elp; [congruence|].
  set (loaded := load_locale_tree JSON_parse entries).
  unfold bind, write_state, modify, gets, lift. simpl.
  rewrite Hr. simpl. fold loaded.
  match goal with
  | |- exists w', updateDecorationsForWorkspace folder ?w2 = _ /\ _ =>
      destruct (updateDecorationsForWorkspace_returns folder w2 r
                  (set_translations (fst loaded) state))
        as [w' [Hrun [Hheap [Hcons _]]]]
  end.
  - exact Hs.
  - simpl. rewrite nth_error_update_nth, nth_error_update_nth, Hh. reflexivity.
  - exists w'. split; [exact Hrun|]. rewrite Hheap, Hcons. simpl.
    rewrite nth_error_update_nth, nth_error_update_nth, Hh. now split.
Qed.

End Building.

(** ** The lines written to the console while reading *)

Section Console.

Variable JSON_parse : string -> option (Js.Obj string).

#[local] Abbreviation load_file := (load_file JSON_parse).
#[local] Abbreviation load_language := (load_language JSON_parse).
#[local] Abbreviation is_document := (is_document JSON_parse).

(** A document that parses is read without a line on the console. *)
Lemma load_file_quiet (lang : string) (st : Loading) (f : string * FsNode)
    (target : Js.Obj string) :
  is_document f = true ->
  Js.get (fst st) lang = Some target ->
  snd (load_file lang st f) = snd st.
Proof.
  unfold is_document, load_file, read_document, parse, readFile.
  intros Hd Ht. apply andb_true_iff in Hd as [He Hd]. rewrite He.
  destruct (snd f) as [content|]; [|discriminate].
  destruct (JSON_parse content); [|discriminate].
  now rewrite Ht.
Qed.

Lemma load_files_quiet (lang : string) (files : list (string * FsNode))
    (st : Loading) (target : Js.Obj string) :
  forallb is_document files = true ->
  Js.get (fst st) lang = Some target ->
  snd (fold_left (load_file lang) files st) = snd st.
Proof.
  revert st target; induction files as [|f files IH];
    intros st target Hall Ht; simpl; [reflexivity|].
  simpl in Hall. apply andb_true_iff in Hall as [Hf Hall].
  destruct (load_file_get JSON_parse lang st f target Ht) as [t1 [G1 _]].
  rewrite (IH _ t1 Hall G1). eapply load_file_quiet; eauto.
Qed.

Lemma load_entries_quiet (entries : list (string * FsNode)) (st : Loading) :
  forallb (fun e =>
             match snd e with
             | Dir files => forallb is_document files
             | File _ => true
             end) entries = true ->
  snd (fold_left load_language entries st) = snd st.
Proof.
  revert st; induction entries as [|e entries IH]; intros st Hall; simpl;
    [reflexivity|].
  simpl in Hall. apply andb_true_iff in Hall as [He Hall].
  rewrite (IH _ Hall). unfold load_language.
  destruct (snd e) as [content|files]; [reflexivity|].
  rewrite (load_files_quiet (fst e) files _ Js.empty He); [reflexivity|].
  simpl. now rewrite get_set, String.eqb_refl.
Qed.

(** A document that does not parse leaves its line on the console. *)
Lemma load_file_malformed (lang : string) (st : Loading)
    (file content : string) :
  extname file = ".json" ->
  JSON_parse content = None ->
  load_file lang st (file, File content)
  = (fst st, (snd st ++ [error_reading file])%list).
Proof.
  intros He Hp. unfold load_file, read_document, parse, readFile. simpl.
  now rewrite He, Hp.
Qed.

(** Lines once written stay. *)
Lemma load_file_keeps (lang : string) (st : Loading) (f : string * FsNode)
    (line : string) :
  In line (snd st) -> In line (snd (load_file lang st f)).
Proof.
  intros H. unfold load_file.
  destruct (String.eqb (extname (fst f)) ".json"); [|exact H].
  destruct (read_document JSON_parse (snd f));
    [destruct (Js.get (fst st) lang)|]; simpl; auto;
    apply in_or_app; now left.
Qed.

Lemma load_files_keep (lang : string) (files : list (string * FsNode))
    (st : Loading) (line : string) :
  In line (snd st) -> In line (snd (fold_left (load_file lang) files st)).
Proof.
  revert st; induction files as [|f files IH]; intros st H; simpl;
    [exact H|].
  apply IH. now apply load_file_keeps.
Qed.

Lemma load_entries_keep (entries : list (string * FsNode)) (st : Loading)
    (line : string) :
  In line (snd st) -> In line (snd (fold_left load_language entries st)).
Proof.
  revert st; induction entries as [|e entries IH]; intros st H; simpl;
    [exact H|].
  apply IH. unfold load_language. destruct (snd e); [exact H|].
  now apply load_files_keep.
Qed.

End Console.

(** ** The index of the locale tree *)





(** ** Removing a workspace folder *)

(** Without a state for the folder, the two functions that recompute stop
    at their first property access: nothing is scanned, nothing is set. *)
Lemma updateDecorationsForWorkspace_without_state (folder : WorkspaceFolder)
    (w : World) :
  Js.get (workspaceStates w) (uri folder) = None ->
  updateDecorationsForWorkspace folder w = (Throw TypeError, w).
Proof.
  intros H. unfold updateDecorationsForWorkspace, bind, the_state.
  now rewrite H.
Qed.

Lemma updateTranslationsForWorkspace_without_state
    (JSON_parse : string -> option (Js.Obj string))
    (folder : WorkspaceFolder) (w : World) :
  Js.get (workspaceStates w) (uri folder) = None ->
  updateTranslationsForWorkspace JSON_parse folder w = (Throw TypeError, w).
Proof.
  intros H. unfold updateTranslationsForWorkspace, bind, the_state.
  now rewrite H.
Qed.


(** ** Editors and workspace folders *)

(** C6, evaluated where it fails.  The document [/w/app2/main.go] does not
    lie under the workspace folder [/w/app], yet its path starts with the
    path of the folder: the listener of the active editor takes the
    editor for one of the workspace, scans its text and sets an inline
    payload on it. *)
Theorem sibling_folder_document_is_decorated :
  lies_under (fsPath Demo.app) (uri_fsPath (document Demo.editor2)) = false
  /\ belongs Demo.editor2 Demo.app = true
  /\ shown Demo.running 2 1 = []
  /\ map activeEditor (heap Demo.sibling_opened) = [Some 2]
  /\ shown Demo.sibling_opened 2 1
     = [inline_payload (mkRange 8 13) "Salut"].
Proof. vm_compute. repeat split. Qed.

(** * Further properties of the code *)

(** ** The scanner: order, completeness, round trip *)

(** X1.  The references of a text come in the order of the text and do not
    overlap: each key ends at least ten characters before the next key
    begins. *)
Theorem scan_sorted (text : string) :
  StronglySorted well_separated (scan text).
Proof. exact (scan_separated text). Qed.

(** X2.  The scanner finds no reference exactly when the text holds no
    call site: no place where the opening of a call, a key that is not
    empty and has no line terminator, and the closing follow one another. *)
Theorem scan_empty_iff (text : string) :
  scan text = [] <-> ~ holds_call_site text.
Proof.
  split.
  - intros Hs [pre [k [post [E [Hne Hlt]]]]].
    destruct (lazy_group_complete k post Hne Hlt) as [k' Hk].
    assert (Hm : match_here (call_open ++ k ++ call_close ++ post) = Some k').
    { unfold match_here. now rewrite strip_append. }
    unfold scan, matches in Hs. apply map_eq_nil in Hs.
    destruct (String.length text) as [|fuel] eqn:El.
    + destruct text; [|discriminate]. destruct pre; discriminate.
    + simpl in Hs. unfold exec in Hs. simpl in Hs.
      destruct (search text 0) as [m|] eqn:Es.
      * change (while_exec fuel text (index m + String.length (match0 m))
                  snoc (snoc m []) = []) in Hs.
        rewrite while_exec_snoc in Hs. discriminate.
      * rewrite (search_None _ _ pre _ Es E) in Hm. discriminate.
  - intros Hn. destruct (scan text) as [|r l] eqn:Es; [reflexivity|].
    exfalso. apply Hn.
    destruct (scan_reference_key text r) as [Hne [Hlt [pre [post E]]]].
    { rewrite Es. now left. }
    exists pre, (key r), post. auto.
Qed.

Lemma lazy_group_plain (k : string) :
  k <> EmptyString ->
  (forall c, In c (chars k) -> isLineTerminator c = false /\ c <> dquote) ->
  lazy_group (k ++ call_close) = Some k.
Proof.
  induction k as [|c k IH]; intros Hne Hc; [congruence|].
  change (String c k ++ call_close) with (String c (k ++ call_close)).
  cbn [lazy_group]. rewrite (proj1 (Hc c (or_introl eq_refl))).
  destruct k as [|c' k'].
  - reflexivity.
  - assert (Hq : startsWith (String c' k' ++ call_close) call_close = false).
    { destruct (startsWith (String c' k' ++ call_close) call_close) eqn:X;
        [|reflexivity].
      apply startsWith_true in X as [rest X]. exfalso.
      apply (proj2 (Hc c' (or_intror (or_introl eq_refl)))).
      unfold call_close in X. simpl in X. congruence. }
    rewrite Hq, IH; [reflexivity | discriminate|].
    intros x Hx. apply Hc. now right.
Qed.

Lemma while_exec_step {A : Type} (fuel : nat) (text : string) (i : nat)
    (body : RegExpExecArray -> A -> A) (acc : A) (m : RegExpExecArray) :
  exec text i = Some m ->
  while_exec (S fuel) text i body acc
  = while_exec fuel text (index m + String.length (match0 m)) body
      (body m acc).
Proof. intros H. cbn [while_exec]. now rewrite H. Qed.

Lemma while_exec_stop {A : Type} (fuel : nat) (text : string) (i : nat)
    (body : RegExpExecArray -> A -> A) (acc : A) :
  exec text i = None -> while_exec fuel text i body acc = acc.
Proof. intros H. destruct fuel; cbn [while_exec]; now rewrite ?H. Qed.

Lemma drop_all (s : string) : drop (String.length s) s = EmptyString.
Proof. induction s as [|c s IH]; simpl; auto. Qed.

(** X3.  Round trip of a call site: for every key that is not empty and
    holds neither a line terminator nor a double quote, scanning the call
    site of the key gives back exactly that key, with the range of its
    characters. *)
Theorem scan_call_site (k : string) :
  k <> EmptyString ->
  (forall c, In c (chars k) -> isLineTerminator c = false /\ c <> dquote) ->
  scan (call_open ++ k ++ call_close)
  = [mkReference k (mkRange 8 (8 + String.length k))].
Proof.
  intros Hne Hc.
  set (text := call_open ++ k ++ call_close).
  assert (Hlen : String.length text = 10 + String.length k).
  { unfold text. rewrite !length_append. unfold call_open, call_close.
    simpl. lia. }
  assert (Hm : exec text 0
               = Some (mkMatch 0 (call_open ++ k ++ call_close) k)).
  { unfold exec.
    replace (String.length text <? 0)%nat with false
      by (symmetry; apply Nat.ltb_ge; lia).
    change (drop 0 text) with text. apply search_here.
    unfold match_here, text. rewrite strip_append.
    now apply lazy_group_plain. }
  assert (Hend : exec text (String.length text) = None).
  { unfold exec. rewrite Nat.ltb_irrefl, drop_all. reflexivity. }
  unfold scan, matches. rewrite Hlen. change (10 + String.length k)
    with (S (9 + String.length k)).
  rewrite (while_exec_step _ _ _ _ _ _ Hm). cbn [index match0]. fold text.
  rewrite Nat.add_0_l, (while_exec_stop _ _ _ _ _ Hend).
  cbn [map app]. unfold reference_of. cbn [match1]. f_equal. f_equal.
  unfold key_range, positionAt, newRange. cbn [index match0].
  rewrite Nat.add_0_l, Hlen.
  replace (Nat.min (10 + String.length k - 2) (10 + String.length k))
    with (8 + String.length k) by lia.
  replace (Nat.min (0 + 8) (10 + String.length k)) with 8 by lia.
  destruct (Nat.ltb_spec (8 + String.length k) 8); [lia | reflexivity].
Qed.

Lemma scan_call_site_witness :
  scan (call_open ++ "user.name" ++ call_close)
  = [mkReference "user.name" (mkRange 8 17)].
Proof.
  apply (scan_call_site "user.name"); [discriminate|].
  intros c Hc. simpl in Hc.
  repeat (destruct Hc as [<-|Hc]; [split; [reflexivity | discriminate]|]).
  destruct Hc.
Defined.

(** ** The two decoration sets: partition, fallback, cursor *)

Lemma filter_length_negb {A : Type} (p : A -> bool) (l : list A) :
  List.length (filter p l) + List.length (filter (fun a => negb (p a)) l)
  = List.length l.
Proof.
  induction l as [|a l IH]; simpl; [reflexivity|].
  destruct (p a); simpl; lia.
Qed.

(** X4.  The loop sorts every reference into exactly one of its two
    arrays: together the arrays have as many elements as the text has
    references, and no range carries both a hover decoration and an
    in-place annotation. *)
Theorem decorate_partition (text : string) (sel : Range) (tr : Translations)
    (lang : option string) :
  List.length (decorationsArray (decorate text sel tr lang))
  + List.length (inplaceAnnotations (decorate text sel tr lang))
  = List.length (scan text)
  /\ (forall d1 d2,
        In d1 (decorationsArray (decorate text sel tr lang)) ->
        In d2 (inplaceAnnotations (decorate text sel tr lang)) ->
        range d1 <> range d2).
Proof.
  split.
  - rewrite decorate_scan. simpl. rewrite !length_map.
    apply filter_length_negb.
  - intros d1 d2 H1 H2 E.
    apply In_decorationsArray in H1 as [r1 [_ [I1 ->]]].
    apply In_inplaceAnnotations in H2 as [r2 [_ [I2 ->]]].
    simpl in E. rewrite E in I1. congruence.
Qed.

Lemma resolved_missing (tr : Translations) (lang k : string) :
  (forall l m, Js.get tr l = Some m -> Js.get m k = None) ->
  resolved (Js.get tr lang) k = k.
Proof.
  intros H. unfold resolved.
  destruct (Js.get tr lang) as [m|] eqn:E; simpl; [|reflexivity].
  now rewrite (H lang m E).
Qed.

(** X5.  A reference to a key that no locale translates, and that is not
    the name of a member of [Object.prototype], shows the raw key: its
    inline payload is the key, whatever the display language, be it a
    locale or another plain name, and each line of the message of its
    hover decoration is the locale, a colon and the key. *)
Theorem missing_key_falls_back (text : string) (sel : Range)
    (tr : Translations) (lang : option string) (r : Reference) :
  In r (scan text) ->
  plain_name (key r) = true ->
  (forall l m, Js.get tr l = Some m -> Js.get m (key r) = None) ->
  (intersects sel (sourceRange r) = false ->
     plain_name (Js.propertyKey lang) = true
     \/ In (Js.propertyKey lang) (Js.keys tr) ->
     In (inline_payload (sourceRange r) (key r))
        (inplaceAnnotations (decorate text sel tr lang)))
  /\ (intersects sel (sourceRange r) = true ->
        In (hover_message (sourceRange r)
              (map (fun l : string => l ++ ": " ++ key r) (Js.ownKeys tr)))
           (decorationsArray (decorate text sel tr lang))).
Proof.
  intros Hr Hk Hm. split; intros Hi.
  - intros Hl. apply In_inplaceAnnotations. exists r. repeat split; auto.
    unfold inplace_annotation, inline_payload.
    now rewrite (translated_plain tr _ _ Hk Hl), resolved_missing.
  - apply In_decorationsArray. exists r. repeat split; auto.
    unfold hover_decoration, hover_message.
    rewrite hover_markdown_text, (hover_lines_plain tr _ Hk).
    do 4 f_equal. apply map_ext. intros l. now rewrite resolved_missing.
Qed.

Lemma missing_key_falls_back_witness :
  In (mkReference "bye" (mkRange 8 11)) (scan (Demo.call_site "bye"))
  /\ plain_name "bye" = true
  /\ In (inline_payload (mkRange 8 11) "bye")
       (inplaceAnnotations
          (decorate (Demo.call_site "bye") (mkRange 0 0) Demo.greetings
             (Some "fr")))
  /\ In (hover_message (mkRange 8 11) ["en: bye"; "fr: bye"])
       (decorationsArray
          (decorate (Demo.call_site "bye") (mkRange 9 9) Demo.greetings
             (Some "fr"))).
Proof.
  split; [left; reflexivity|]. split; [reflexivity|].
  assert (Hm : forall l m, Js.get Demo.greetings l = Some m ->
                           Js.get m "bye" = None).
  { intros l m H. unfold Demo.greetings in H. cbn [Js.get] in H.
    destruct (String.eqb "en" l); [injection H as <-; reflexivity|].
    destruct (String.eqb "fr" l); [injection H as <-; reflexivity|].
    discriminate. }
  split.
  - exact (proj1 (missing_key_falls_back (Demo.call_site "bye") (mkRange 0 0)
                    Demo.greetings (Some "fr")
                    (mkReference "bye" (mkRange 8 11))
                    (or_introl eq_refl) eq_refl Hm)
             eq_refl (or_introl eq_refl)).
  - exact (proj2 (missing_key_falls_back (Demo.call_site "bye") (mkRange 9 9)
                    Demo.greetings (Some "fr")
                    (mkReference "bye" (mkRange 8 11))
                    (or_introl eq_refl) eq_refl Hm) eq_refl).
Defined.

(** A key that bears the name of a member of [Object.prototype] and that
    the display language does not translate reads the built-in: the
    inline payload shows its text, not the key. *)
Example constructor_is_inherited :
  plain_name "constructor" = false
  /\ inplaceAnnotations
       (decorate (Demo.call_site "constructor") (mkRange 0 0) Demo.greetings
          (Some "fr"))
     = [inline_payload (mkRange 8 19) "function Object() { [native code] }"].
Proof. split; reflexivity. Qed.

Lemma scan_range_ordered (text : string) (r : Reference) :
  In r (scan text) ->
  range_start (sourceRange r) < range_end (sourceRange r).
Proof.
  intros H. destruct (scan_reference _ _ H) as [pre [post [_ [R L]]]].
  destruct (lazy_group_Some _ _ L) as [_ [_ [N _]]].
  rewrite R. simpl. destruct (key r); [congruence | simpl; lia].
Qed.

Lemma intersects_cursor (p a b : nat) :
  a <= b ->
  intersects (mkRange p p) (mkRange a b) = true <-> a <= p <= b.
Proof.
  intros Hab. unfold intersects, intersection. simpl.
  destruct (Nat.ltb_spec (Nat.min b p) (Nat.max a p)); split;
    try discriminate; try reflexivity; lia.
Qed.

(** X6.  With the cursor at a position and nothing selected, a reference
    gets the hover decoration exactly when the cursor is inside its key or
    at one of the two ends of the key, and the in-place annotation exactly
    when the cursor is before the first or behind the last end. *)
Theorem cursor_on_key (text : string) (p : Position) (tr : Translations)
    (lang : option string) (r : Reference) :
  In r (scan text) ->
  (In (hover_decoration tr (sourceRange r) (key r))
      (decorationsArray (decorate text (mkRange p p) tr lang))
   <-> range_start (sourceRange r) <= p <= range_end (sourceRange r))
  /\ (In (inplace_annotation tr lang (sourceRange r) (key r))
         (inplaceAnnotations (decorate text (mkRange p p) tr lang))
      <-> p < range_start (sourceRange r) \/ range_end (sourceRange r) < p).
Proof.
  intros Hr. pose proof (scan_range_ordered _ _ Hr) as Ho.
  assert (Hc := intersects_cursor p (range_start (sourceRange r))
                  (range_end (sourceRange r)) (Nat.lt_le_incl _ _ Ho)).
  destruct (sourceRange r) as [a b] eqn:Er. simpl in *.
  split.
  - rewrite <- Hc, In_decorationsArray. split.
    + intros [r' [_ [Hi E]]]. injection E as E _. now rewrite E.
    + intros Hi. exists r. rewrite Er. auto.
  - rewrite In_inplaceAnnotations. split.
    + intros [r' [_ [Hi E]]]. injection E as E _. rewrite <- E in Hi.
      destruct (intersects (mkRange p p) (mkRange a b)) eqn:X;
        [discriminate|].
      destruct (Nat.le_gt_cases a p); [|now left].
      destruct (Nat.le_gt_cases p b); [|now right].
      assert (false = true) by (apply Hc; lia). discriminate.
    + intros Hp. exists r. rewrite Er. repeat split; auto.
      destruct (intersects (mkRange p p) (mkRange a b)) eqn:X;
        [|reflexivity].
      assert (a <= p <= b) by (now apply Hc). lia.
Qed.

Lemma cursor_on_key_witness :
  In (mkReference "greet" (mkRange 8 13)) (scan (Demo.call_site "greet"))
  /\ In (hover_decoration Demo.greetings (mkRange 8 13) "greet")
       (decorationsArray
          (decorate (Demo.call_site "greet") (mkRange 13 13) Demo.greetings
             (Some "fr"))).
Proof.
  split; [left; reflexivity|].
  apply (proj1 (cursor_on_key (Demo.call_site "greet") 13 Demo.greetings
                  (Some "fr") (mkReference "greet" (mkRange 8 13))
                  (or_introl eq_refl))).
  simpl. lia.
Defined.

(** ** [updateDecorationsForWorkspace]: what the editors show afterwards *)

Lemma shown_setDecorations (w : World) (e t : nat)
    (options : list DecorationOptions) (e' t' : nat) :
  shown (with_rendered ((e, t, options) :: drop_rendered e t (rendered w)) w)
    e' t'
  = if Nat.eqb e e' && Nat.eqb t t' then options else shown w e' t'.
Proof.
  unfold shown. simpl.
  destruct (Nat.eqb_spec e e') as [<-|He]; simpl.
  - destruct (Nat.eqb_spec t t') as [<-|Ht]; simpl; [reflexivity|].
    f_equal. unfold drop_rendered.
    induction (rendered w) as [|x l IH]; simpl; [reflexivity|].
    destruct (Nat.eqb_spec (fst (fst x)) e) as [Ex|Ex]; simpl.
    + destruct (Nat.eqb_spec (snd (fst x)) t) as [Et|Et]; simpl.
      * destruct (Nat.eqb_spec (snd (fst x)) t'); [congruence | exact IH].
      * rewrite Ex, Nat.eqb_refl. simpl.
        destruct (Nat.eqb (snd (fst x)) t'); [reflexivity | exact IH].
    + destruct (Nat.eqb_spec (fst (fst x)) e); [congruence|]. exact IH.
  - f_equal. unfold drop_rendered.
    induction (rendered w) as [|x l IH]; simpl; [reflexivity|].
    destruct (Nat.eqb_spec (fst (fst x)) e) as [Ex|Ex]; simpl.
    + destruct (Nat.eqb_spec (snd (fst x)) t) as [Et|Et]; simpl.
      * destruct (Nat.eqb_spec (fst (fst x)) e'); [congruence | exact IH].
      * destruct (Nat.eqb_spec (fst (fst x)) e'); [congruence | exact IH].
    + destruct (Nat.eqb (fst (fst x)) e' && Nat.eqb (snd (fst x)) t');
        [reflexivity | exact IH].
Qed.

(** The world [updateDecorationsForWorkspace] leaves when all its guards
    pass. *)
Lemma updateDecorationsForWorkspace_run (folder : WorkspaceFolder)
    (w : World) (r : nat) (state : WorkspaceState) (e d i : nat)
    (editor : TextEditor) :
  Js.get (workspaceStates w) (uri folder) = Some r ->
  nth_error (heap w) r = Some state ->
  activeEditor state = Some e ->
  decorationType state = Some d ->
  inplaceAnnotationType state = Some i ->
  find_editor w e = Some editor ->
  updateDecorationsForWorkspace folder w
  = (Ok tt,
     with_rendered
       ((e, i,
         inplaceAnnotations
           (decorate (getText (document editor)) (selection editor)
              (translations state) (displayLanguage state)))
          :: drop_rendered e i
               (rendered
                  (with_rendered
                     ((e, d,
                       decorationsArray
                         (decorate (getText (document editor))
                            (selection editor) (translations state)
                            (displayLanguage state)))
                        :: drop_rendered e d (rendered w)) w)))
       (with_rendered
          ((e, d,
            decorationsArray
              (decorate (getText (document editor)) (selection editor)
                 (translations state) (displayLanguage state)))
             :: drop_rendered e d (rendered w)) w)).
Proof.
  intros Hs Hh He Hd Hi Hf.
  unfold updateDecorationsForWorkspace, bind, the_state, read_state, gets.
  rewrite Hs, Hh, He, Hd, Hi, Hf. reflexivity.
Qed.

(** What the editors show after [updateDecorationsForWorkspace]. *)
Lemma updateDecorationsForWorkspace_after (folder : WorkspaceFolder)
    (w : World) (r : nat) (state : WorkspaceState) (e d i : nat)
    (editor : TextEditor) :
  Js.get (workspaceStates w) (uri folder) = Some r ->
  nth_error (heap w) r = Some state ->
  activeEditor state = Some e ->
  decorationType state = Some d ->
  inplaceAnnotationType state = Some i ->
  d <> i ->
  find_editor w e = Some editor ->
  exists w',
    updateDecorationsForWorkspace folder w = (Ok tt, w')
    /\ shown w' e i
       = inplaceAnnotations
           (decorate (getText (document editor)) (selection editor)
              (translations state) (displayLanguage state))
    /\ shown w' e d
       = decorationsArray
           (decorate (getText (document editor)) (selection editor)
              (translations state) (displayLanguage state))
    /\ (forall e' t', (e' <> e \/ (t' <> d /\ t' <> i)) ->
          shown w' e' t' = shown w e' t')
    /\ heap w' = heap w.
Proof.
  intros Hs Hh He Hd Hi Hne Hf. eexists. split.
  - eapply updateDecorationsForWorkspace_run; eauto.
  - split; [|split; [|split]].
    + rewrite shown_setDecorations, !Nat.eqb_refl. reflexivity.
    + rewrite !shown_setDecorations, !Nat.eqb_refl.
      destruct (Nat.eqb_spec i d); [congruence | reflexivity].
    + intros e' t' Ho. rewrite !shown_setDecorations.
      destruct (Nat.eqb_spec e e') as [<-|]; simpl; [|reflexivity].
      destruct Ho as [Ho|[Ho1 Ho2]]; [congruence|].
      destruct (Nat.eqb_spec i t'); [congruence|].
      destruct (Nat.eqb_spec d t'); [congruence | reflexivity].
    + reflexivity.
Qed.

(** X7.  When the workspace has a state with an active editor and its
    two decoration types, [updateDecorationsForWorkspace] returns; the
    active editor then shows, for the in-place type, exactly the in-place
    annotations the loop computes from its text and selection, for the
    hover type exactly the hover decorations, and every other editor and
    every other decoration type shows what it showed before.  The state
    objects are not touched. *)
Theorem updateDecorationsForWorkspace_shows (folder : WorkspaceFolder)
    (w : World) (r : nat) (state : WorkspaceState) (e d i : nat)
    (editor : TextEditor) :
  Js.get (workspaceStates w) (uri folder) = Some r ->
  nth_error (heap w) r = Some state ->
  activeEditor state = Some e ->
  decorationType state = Some d ->
  inplaceAnnotationType state = Some i ->
  d <> i ->
  find_editor w e = Some editor ->
  exists w',
    updateDecorationsForWorkspace folder w = (Ok tt, w')
    /\ shown w' e i
       = inplaceAnnotations
           (decorate (getText (document editor)) (selection editor)
              (translations state) (displayLanguage state))
    /\ shown w' e d
       = decorationsArray
           (decorate (getText (document editor)) (selection editor)
              (translations state) (displayLanguage state))
    /\ (forall e' t', (e' <> e \/ (t' <> d /\ t' <> i)) ->
          shown w' e' t' = shown w e' t')
    /\ heap w' = heap w.
Proof.
  intros Hs Hh He Hd Hi Hne Hf.
  exact (updateDecorationsForWorkspace_after folder w r state e d i editor
           Hs Hh He Hd Hi Hne Hf).
Qed.

Lemma updateDecorationsForWorkspace_shows_witness :
  exists w',
    updateDecorationsForWorkspace Demo.app
      (step read_flat (DidChangeTextEditorSelection 1 (mkRange 9 9))
         Demo.running)
    = (Ok tt, w')
    /\ shown w' 1 1 = []
    /\ shown w' 1 0 = [hover_decoration Demo.greetings (mkRange 8 13) "greet"].
Proof.
  destruct (updateDecorationsForWorkspace_shows Demo.app
              (step read_flat (DidChangeTextEditorSelection 1 (mkRange 9 9))
                 Demo.running)
              0 (Demo.app_state Demo.greetings) 1 0 1
              (mkEditor 1
                 (mkDocument 1 "file" "/w/app/main.go" (Demo.call_site "greet"))
                 (mkRange 9 9))
              eq_refl eq_refl eq_refl eq_refl eq_refl
              ltac:(discriminate) eq_refl)
    as [w' [Hrun [Hi [Hd _]]]].
  exists w'. split; [exact Hrun|]. split.
  - rewrite Hi. reflexivity.
  - rewrite Hd. reflexivity.
Defined.

(** A change of the selection that falls into the wait of the throttled
    function of the workspace is kept: the editor goes on showing what it
    showed, and shows the decorations of the new selection once the wait
    is over. *)
Example held_selection_is_deferred :
  shown (step read_flat
           (DidChangeTextEditorSelectionWithin 1 (mkRange 9 9) [0])
           Demo.running) 1 1
  = [inline_payload (mkRange 8 13) "Salut"]
  /\ map listener_state
       (deferred (step read_flat
                    (DidChangeTextEditorSelectionWithin 1 (mkRange 9 9) [0])
                    Demo.running)) = [0]
  /\ shown (step read_flat (ThrottleElapsed 0)
              (step read_flat
                 (DidChangeTextEditorSelectionWithin 1 (mkRange 9 9) [0])
                 Demo.running)) 1 1 = []
  /\ shown (step read_flat (ThrottleElapsed 0)
              (step read_flat
                 (DidChangeTextEditorSelectionWithin 1 (mkRange 9 9) [0])
                 Demo.running)) 1 0
     = [hover_message (mkRange 8 13) ["en: Hi"; "fr: Salut"]]
  /\ deferred (step read_flat (ThrottleElapsed 0)
                 (step read_flat
                    (DidChangeTextEditorSelectionWithin 1 (mkRange 9 9) [0])
                    Demo.running)) = [].
Proof. vm_compute. repeat split. Qed.

(** X8.  Recomputation is idempotent: whatever the world, what every
    editor shows after two calls of [updateDecorationsForWorkspace] in a
    row is what it shows after one. *)
Theorem updateDecorationsForWorkspace_idempotent (folder : WorkspaceFolder)
    (w : World) (e' t' : nat) :
  shown (snd (updateDecorationsForWorkspace folder
                (snd (updateDecorationsForWorkspace folder w)))) e' t'
  = shown (snd (updateDecorationsForWorkspace folder w)) e' t'.
Proof.
  destruct (Js.get (workspaceStates w) (uri folder)) as [r|] eqn:Hs.
  2:{ rewrite !(updateDecorationsForWorkspace_without_state folder w Hs).
      simpl. now rewrite (updateDecorationsForWorkspace_without_state folder w Hs). }
  destruct (nth_error (heap w) r) as [state|] eqn:Hh.
  2:{ assert (E : updateDecorationsForWorkspace folder w = (Throw TypeError, w)).
      { unfold updateDecorationsForWorkspace, bind, the_state, read_state.
        now rewrite Hs, Hh. }
      rewrite E. simpl. now rewrite E. }
  assert (Hskip : forall w0,
             Js.get (workspaceStates w0) (uri folder) = Some r ->
             nth_error (heap w0) r = Some state ->
             (activeEditor state = None \/ decorationType state = None
              \/ inplaceAnnotationType state = None
              \/ (exists e, activeEditor state = Some e
                            /\ find_editor w0 e = None)) ->
             updateDecorationsForWorkspace folder w0 = (Ok tt, w0)).
  { intros w0 H1 H2 H3.
    unfold updateDecorationsForWorkspace, bind, the_state, read_state, gets.
    rewrite H1, H2.
    destruct (activeEditor state) as [e|]; [|reflexivity].
    destruct (decorationType state) as [d|]; [|reflexivity].
    destruct (inplaceAnnotationType state) as [i|]; [|reflexivity].
    destruct H3 as [H3|[H3|[H3|[e0 [H3 H4]]]]]; try discriminate.
    injection H3 as <-. now rewrite H4. }
  destruct (activeEditor state) as [e|] eqn:He;
    [|rewrite !(Hskip w) by auto; simpl; now rewrite Hskip by auto].
  destruct (decorationType state) as [d|] eqn:Hd;
    [|rewrite !(Hskip w) by auto; simpl; now rewrite Hskip by auto].
  destruct (inplaceAnnotationType state) as [i|] eqn:Hi;
    [|rewrite !(Hskip w) by auto; simpl; now rewrite Hskip by auto].
  destruct (find_editor w e) as [editor|] eqn:Hf;
    [|rewrite !(Hskip w) by eauto 6; simpl; now rewrite Hskip by eauto 6].
  rewrite (updateDecorationsForWorkspace_run folder w r state e d i editor)
    by assumption.
  cbn [snd].
  erewrite updateDecorationsForWorkspace_run; try eassumption;
    try reflexivity.
  cbn [snd]. rewrite !shown_setDecorations.
  destruct (Nat.eqb e e' && Nat.eqb i t'); [reflexivity|].
  destruct (Nat.eqb e e' && Nat.eqb d t'); reflexivity.
Qed.

(** ** Frame rules for the computations *)

Section Frame.

Variable P : World -> Prop.
Variable R : World -> World -> Prop.
Hypothesis R_refl : forall w, R w w.
Hypothesis R_trans : forall w1 w2 w3, R w1 w2 -> R w2 w3 -> R w1 w3.
Hypothesis P_stable : forall w w', P w -> R w w' -> P w'.

Lemma preserves_ret {A : Type} (a : A) : preserves_if P R (ret a).
Proof. intros w _. apply R_refl. Qed.

Lemma preserves_throw {A : Type} (e : JsError) :
  preserves_if P R (@throw A e).
Proof. intros w _. apply R_refl. Qed.

Lemma preserves_gets {A : Type} (f : World -> A) : preserves_if P R (gets f).
Proof. intros w _. apply R_refl. Qed.

Lemma preserves_lift {A : Type} (o : Outcome A) : preserves_if P R (lift o).
Proof. intros w _. apply R_refl. Qed.

Lemma preserves_modify (f : World -> World) :
  (forall w, P w -> R w (f w)) -> preserves_if P R (modify f).
Proof. intros H w Hw. now apply H. Qed.

Lemma preserves_bind {A B : Type} (c : M A) (k : A -> M B) :
  preserves_if P R c -> (forall a, preserves_if P R (k a)) ->
  preserves_if P R (bind c k).
Proof.
  intros Hc Hk w Hw. unfold bind. specialize (Hc w Hw).
  destruct (c w) as [[a|e] w1]; simpl in *; [|exact Hc].
  eapply R_trans; [exact Hc|]. apply Hk. eapply P_stable; eauto.
Qed.

Lemma preserves_try_catch {A : Type} (c : M A) (h : JsError -> M A) :
  preserves_if P R c -> (forall e, preserves_if P R (h e)) ->
  preserves_if P R (try_catch c h).
Proof.
  intros Hc Hh w Hw. unfold try_catch. specialize (Hc w Hw).
  destruct (c w) as [[a|e] w1]; simpl in *; [exact Hc|].
  eapply R_trans; [exact Hc|]. apply Hh. eapply P_stable; eauto.
Qed.

Lemma preserves_forEach {A : Type} (l : list A) (f : A -> M unit) :
  (forall a, preserves_if P R (f a)) -> preserves_if P R (forEach l f).
Proof.
  intros H. induction l as [|a l IH]; simpl.
  - apply preserves_ret.
  - apply preserves_bind; [apply H | intros _; exact IH].
Qed.

Lemma preserves_read_state (r : nat) : preserves_if P R (read_state r).
Proof.
  intros w _. unfold read_state. destruct (nth_error (heap w) r); apply R_refl.
Qed.

Lemma preserves_the_state (folder : WorkspaceFolder) :
  preserves_if P R (the_state folder).
Proof.
  intros w _. unfold the_state.
  destruct (Js.get (workspaceStates w) (uri folder)); apply R_refl.
Qed.

(** The host calls a computation, and calls one for each target. *)
Hypothesis R_unhandled :
  forall w e, R w (with_unhandled (unhandled w ++ [e])%list w).

Lemma preserves_call (c : M unit) :
  preserves_if P R c -> forall w, P w -> R w (call c w).
Proof.
  intros Hc w Hw. unfold call. specialize (Hc w Hw).
  destruct (c w) as [[a|e] w1]; simpl in *; [exact Hc|].
  eapply R_trans; [exact Hc | apply R_unhandled].
Qed.

Lemma preserves_fire {A : Type} (targets : list A) (c : A -> M unit) :
  (forall t, preserves_if P R (c t)) ->
  forall w, P w -> R w (fire targets c w).
Proof.
  intros Hc. unfold fire.
  induction targets as [|t targets IH]; intros w Hw; simpl; [apply R_refl|].
  eapply R_trans; [apply (preserves_call (c t) (Hc t) w Hw)|].
  apply IH. eapply P_stable; [exact Hw|].
  apply (preserves_call (c t) (Hc t) w Hw).
Qed.

End Frame.

Ltac frame_step Rrefl Rtrans Pstable leaf :=
  match goal with
  | |- preserves_if _ _ (bind _ _) =>
      apply (preserves_bind _ _ Rtrans Pstable); [|intros ?]
  | |- preserves_if _ _ (ret _) => apply (preserves_ret _ _ Rrefl)
  | |- preserves_if _ _ (throw _) => apply (preserves_throw _ _ Rrefl)
  | |- preserves_if _ _ (gets _) => apply (preserves_gets _ _ Rrefl)
  | |- preserves_if _ _ (lift _) => apply (preserves_lift _ _ Rrefl)
  | |- preserves_if _ _ (read_state _) =>
      apply (preserves_read_state _ _ Rrefl)
  | |- preserves_if _ _ (the_state _) =>
      apply (preserves_the_state _ _ Rrefl)
  | |- preserves_if _ _ (try_catch _ _) =>
      apply (preserves_try_catch _ _ Rtrans Pstable); [|intros ?]
  | |- preserves_if _ _ (forEach _ _) =>
      apply (preserves_forEach _ _ Rrefl Rtrans Pstable); intros ?
  | |- preserves_if _ _ (modify _) => apply preserves_modify; leaf
  | |- preserves_if _ _ (match ?x with _ => _ end) => destruct x
  end.

Ltac frame Rrefl Rtrans Pstable leaf :=
  repeat frame_step Rrefl Rtrans Pstable leaf.

(** ** Listeners and watchers are never released *)

Lemma keeps_registrations_refl (w : World) : keeps_registrations w w.
Proof. split; exists []; symmetry; apply app_nil_r. Qed.

Lemma keeps_registrations_trans (w1 w2 w3 : World) :
  keeps_registrations w1 w2 -> keeps_registrations w2 w3 ->
  keeps_registrations w1 w3.
Proof.
  intros [[a Ha] [b Hb]] [[c Hc] [d Hd]]. split.
  - exists (a ++ c)%list. now rewrite Hc, Ha, app_assoc.
  - exists (b ++ d)%list. now rewrite Hd, Hb, app_assoc.
Qed.

Lemma anywhere_stable (w w' : World) :
  anywhere w -> keeps_registrations w w' -> anywhere w'.
Proof. intros _ _. exact I. Qed.

Ltac registrations_leaf :=
  intros ? _; unfold keeps_registrations; simpl; split; eexists;
  first [reflexivity | symmetry; apply app_nil_r].

Ltac registrations :=
  frame keeps_registrations_refl keeps_registrations_trans anywhere_stable
    registrations_leaf.

Section Registrations.

Variable JSON_parse : string -> option (Js.Obj string).

#[local] Abbreviation kept := (preserves_if anywhere keeps_registrations).

Lemma kept_createTextEditorDecorationType :
  kept createTextEditorDecorationType.
Proof.
  intros w _. unfold createTextEditorDecorationType. simpl.
  split; exists []; symmetry; apply app_nil_r.
Qed.

Lemma kept_updateDecorationsForWorkspace (folder : WorkspaceFolder) :
  kept (updateDecorationsForWorkspace folder).
Proof.
  unfold updateDecorationsForWorkspace, setDecorations. registrations.
Qed.

Lemma kept_updateTranslationsForWorkspace (folder : WorkspaceFolder) :
  kept (updateTranslationsForWorkspace JSON_parse folder).
Proof.
  unfold updateTranslationsForWorkspace, write_state. registrations.
  all: apply kept_updateDecorationsForWorkspace.
Qed.

Lemma kept_readConfigFileForWorkspace (folder : WorkspaceFolder) :
  kept (readConfigFileForWorkspace JSON_parse folder).
Proof.
  unfold readConfigFileForWorkspace, write_state, console_error.
  registrations. all: apply kept_updateTranslationsForWorkspace.
Qed.

Lemma kept_fs_watch (p : string) (recursive : bool) (kind : WatchKind)
    (folder : WorkspaceFolder) :
  kept (fs_watch p recursive kind folder).
Proof. unfold fs_watch. registrations. Qed.

Lemma kept_watch_callback (watcher : Watcher) (eventType : string)
    (filename : option string) :
  kept (watch_callback JSON_parse watcher eventType filename).
Proof.
  unfold watch_callback. registrations.
  - apply kept_updateTranslationsForWorkspace.
  - apply kept_readConfigFileForWorkspace.
Qed.

Lemma kept_adopt_editor (r : nat) (folder : WorkspaceFolder)
    (editor : TextEditor) :
  kept (adopt_editor r folder editor).
Proof.
  unfold adopt_editor, write_state. registrations.
  apply kept_updateDecorationsForWorkspace.
Qed.

Lemma kept_initializeWorkspace (folder : WorkspaceFolder) :
  kept (initializeWorkspace JSON_parse folder).
Proof.
  unfold initializeWorkspace, isPluginActiveInWorkspace,
    createDecorationTypeForWorkspace, watchLocaleFilesForWorkspace,
    watchConfigFileForWorkspace, write_state.
  registrations;
    first [ apply kept_readConfigFileForWorkspace
          | apply kept_createTextEditorDecorationType
          | apply kept_updateDecorationsForWorkspace
          | apply kept_fs_watch
          | apply kept_adopt_editor ].
Qed.

Lemma kept_forget_workspace (folder : WorkspaceFolder) :
  kept (forget_workspace folder).
Proof. unfold forget_workspace, dispose. registrations. Qed.

Lemma kept_onDidChangeWorkspaceFolders (added removed : list WorkspaceFolder) :
  kept (onDidChangeWorkspaceFolders JSON_parse added removed).
Proof.
  unfold onDidChangeWorkspaceFolders. registrations.
  - apply kept_forget_workspace.
  - apply kept_initializeWorkspace.
Qed.

Lemma kept_listeners (l : Listener) :
  (forall editor, kept (onDidChangeActiveTextEditor l editor))
  /\ (forall doc, kept (onDidChangeTextDocument l doc))
  /\ (forall textEditor held,
        kept (onDidChangeTextEditorSelection l textEditor held))
  /\ kept (throttleElapsed l).
Proof.
  split; [|split; [|split]].
  - intros x. unfold onDidChangeActiveTextEditor. registrations.
    apply kept_adopt_editor.
  - intros x. unfold onDidChangeTextDocument. registrations.
    apply kept_updateDecorationsForWorkspace.
  - intros x held.
    unfold onDidChangeTextEditorSelection, throttledUpdateDecorations,
      forget_deferred. registrations.
    apply kept_updateDecorationsForWorkspace.
  - unfold throttleElapsed, forget_deferred. registrations.
    apply kept_updateDecorationsForWorkspace.
Qed.

Lemma keeps_registrations_unhandled (w : World) (e : JsError) :
  keeps_registrations w (with_unhandled (unhandled w ++ [e])%list w).
Proof. split; exists []; symmetry; apply app_nil_r. Qed.

End Registrations.

(** X9.  No event releases a listener or a watcher: after every event the
    listeners and the watchers registered before are still registered, in
    their places; new ones are only added behind them. *)
Theorem registrations_only_grow
    (JSON_parse : string -> option (Js.Obj string)) (ev : Event) (w : World) :
  keeps_registrations w (step JSON_parse ev w).
Proof.
  assert (Hcall := preserves_call anywhere keeps_registrations
                     keeps_registrations_trans keeps_registrations_unhandled).
  assert (Hfire := fun A => @preserves_fire anywhere keeps_registrations
                     keeps_registrations_refl keeps_registrations_trans
                     anywhere_stable keeps_registrations_unhandled A).
  assert (Hhost : forall f es vis wf,
             keeps_registrations w (with_host f es vis wf w)).
  { intros. split; exists []; symmetry; apply app_nil_r. }
  destruct ev as [added removed|editor|doc text|textEditor sel
                  |textEditor sel held|r
                  |fs' watched eventType filename];
    unfold step, selection_changed.
  - eapply keeps_registrations_trans; [apply Hhost|].
    apply Hfire; [|exact I]. intros _.
    apply kept_onDidChangeWorkspaceFolders.
  - destruct editor as [e|].
    + eapply keeps_registrations_trans; [apply Hhost|].
      apply Hfire; [|exact I]. intros l. apply (proj1 (kept_listeners l)).
    + apply Hfire; [|exact I]. intros l. apply (proj1 (kept_listeners l)).
  - eapply keeps_registrations_trans; [apply Hhost|].
    apply Hfire; [|exact I]. intros l.
    apply (proj1 (proj2 (kept_listeners l))).
  - eapply keeps_registrations_trans; [apply Hhost|].
    apply Hfire; [|exact I]. intros l.
    apply (proj1 (proj2 (proj2 (kept_listeners l)))).
  - eapply keeps_registrations_trans; [apply Hhost|].
    apply Hfire; [|exact I]. intros l.
    apply (proj1 (proj2 (proj2 (kept_listeners l)))).
  - apply Hfire; [|exact I]. intros l.
    apply (proj2 (proj2 (proj2 (kept_listeners l)))).
  - eapply keeps_registrations_trans; [apply Hhost|].
    apply Hfire; [|exact I]. intros x. apply kept_watch_callback.
Qed.

(** ** A workspace touches no state but its own *)

Lemma length_update_nth {A : Type} (n : nat) (f : A -> A) (l : list A) :
  List.length (update_nth n f l) = List.length l.
Proof.
  revert l; induction n as [|n IH]; intros [|a l]; simpl; auto.
Qed.

Lemma nth_error_update_nth_other {A : Type} (n m : nat) (f : A -> A)
    (l : list A) :
  n <> m -> nth_error (update_nth n f l) m = nth_error l m.
Proof.
  revert m l; induction n as [|n IH]; intros [|m] [|a l] H; simpl; auto;
    try congruence.
Qed.

Section Isolation.

Variable JSON_parse : string -> option (Js.Obj string).
Variable folder : WorkspaceFolder.
Variable state_of_folder : option nat.

#[local] Abbreviation here := (has_state folder state_of_folder).
#[local] Abbreviation same := (same_other_workspaces folder).

Lemma same_refl (w : World) : same w w.
Proof. repeat split. Qed.

Lemma same_trans (w1 w2 w3 : World) : same w1 w2 -> same w2 w3 -> same w1 w3.
Proof.
  intros [A1 [B1 C1]] [A2 [B2 C2]]. split; [congruence|].
  split; [congruence|]. intros r Hr. rewrite C2, C1; auto. now rewrite A1.
Qed.

Lemma here_stable (w w' : World) : here w -> same w w' -> here w'.
Proof. unfold has_state. intros H [A _]. now rewrite A. Qed.

Lemma same_unhandled (w : World) (e : JsError) :
  same w (with_unhandled (unhandled w ++ [e])%list w).
Proof. repeat split. Qed.

(** Behind [workspaceStates.get] the computation goes on with the state of
    the folder, or throws when there is none. *)
Lemma same_bind_the_state {B : Type} (k : nat -> M B) :
  (forall r, state_of_folder = Some r -> preserves_if here same (k r)) ->
  preserves_if here same (bind (the_state folder) k).
Proof.
  intros H w Hw. unfold bind, the_state. rewrite Hw.
  destruct state_of_folder as [r|]; [now apply H | apply same_refl].
Qed.

Lemma same_write_state (r : nat) (f : WorkspaceState -> WorkspaceState) :
  state_of_folder = Some r -> preserves_if here same (write_state r f).
Proof.
  intros E w Hw. unfold write_state, modify, same_other_workspaces. simpl.
  split; [reflexivity|]. split; [apply length_update_nth|].
  intros r' Hr'. apply nth_error_update_nth_other.
  unfold has_state in Hw. congruence.
Qed.

Ltac same_leaf := intros ? _; repeat split.

Ltac isolation :=
  repeat match goal with
  | |- preserves_if _ _ (bind (the_state _) _) =>
      apply same_bind_the_state; intros ? ?
  | |- preserves_if _ _ (write_state _ _) => now apply same_write_state
  | |- _ => frame_step same_refl same_trans here_stable same_leaf
  end.

Lemma same_updateDecorationsForWorkspace :
  preserves_if here same (updateDecorationsForWorkspace folder).
Proof. unfold updateDecorationsForWorkspace, setDecorations. isolation. Qed.

Lemma same_updateTranslationsForWorkspace :
  preserves_if here same (updateTranslationsForWorkspace JSON_parse folder).
Proof.
  unfold updateTranslationsForWorkspace. isolation.
  all: apply same_updateDecorationsForWorkspace.
Qed.

Lemma same_readConfigFileForWorkspace :
  preserves_if here same (readConfigFileForWorkspace JSON_parse folder).
Proof.
  unfold readConfigFileForWorkspace, console_error. isolation.
  all: apply same_updateTranslationsForWorkspace.
Qed.

End Isolation.

(** X10.  Workspaces do not touch one another: whatever a watcher of a
    folder is called with, its callback leaves the map of the states as it
    was and changes no state object but the one of its own folder. *)
Theorem watch_callback_isolated
    (JSON_parse : string -> option (Js.Obj string)) (watcher : Watcher)
    (eventType : string) (filename : option string) (w : World) :
  same_other_workspaces (watch_folder watcher) w
    (snd (watch_callback JSON_parse watcher eventType filename w)).
Proof.
  set (folder := watch_folder watcher).
  set (r := Js.get (workspaceStates w) (uri folder)).
  assert (Hw : has_state folder r w) by reflexivity.
  unfold watch_callback.
  destruct (String.eqb eventType "change"); [|apply same_refl].
  destruct filename as [name|]; [|apply same_refl].
  destruct (String.eqb (extname name) ".json"); [|apply same_refl].
  destruct (watch_kind watcher).
  - now apply (same_updateTranslationsForWorkspace JSON_parse folder r).
  - now apply (same_readConfigFileForWorkspace JSON_parse folder r).
Qed.

(** ** Errors while reading the translations and the descriptor *)

(** X11.  When the locale path of a workspace names no directory,
    [updateTranslationsForWorkspace] throws the error of [readdirSync]
    after it has emptied the translations of the state: the index is
    lost, and the decorations the editors show are left as they were. *)
Theorem updateTranslationsForWorkspace_without_directory
    (JSON_parse : string -> option (Js.Obj string))
    (folder : WorkspaceFolder) (w : World) (r : nat) (state : WorkspaceState) :
  Js.get (workspaceStates w) (uri folder) = Some r ->
  nth_error (heap w) r = Some state ->
  localePath state <> EmptyString ->
  (forall entries, resolve (fs w) (localePath state) <> Some (Dir entries)) ->
  exists e w',
    updateTranslationsForWorkspace JSON_parse folder w = (Throw e, w')
    /\ (e = ENOENT \/ e = ENOTDIR)
    /\ nth_error (heap w') r = Some (set_translations Js.empty state)
    /\ rendered w' = rendered w
    /\ console w' = console w.
Proof.
  intros Hs Hh Hp Hr.
  unfold updateTranslationsForWorkspace, bind at 1 2, the_state, read_state.
  rewrite Hs, Hh.
  destruct (localePath state) as [|c p] eqn:Elp; [congruence|].
  unfold bind, write_state, modify, gets, lift, readdir. simpl.
  destruct (resolve (fs w) (String c p)) as [[content|entries]|] eqn:E.
  - exists ENOTDIR. eexists. split; [reflexivity|]. simpl.
    rewrite nth_error_update_nth, Hh. auto.
  - exfalso. now apply (Hr entries).
  - exists ENOENT. eexists. split; [reflexivity|]. simpl.
    rewrite nth_error_update_nth, Hh. auto.
Qed.

Lemma updateTranslationsForWorkspace_without_directory_witness :
  exists e w',
    updateTranslationsForWorkspace read_flat Demo.app
      (step read_flat
         (FileChanged
            (Dir [("w", Dir [("app", Dir [(".iris-i18n.json",
                                            File Demo.descriptor)])])])
            "/nowhere" "rename" None)
         Demo.running)
    = (Throw e, w')
    /\ (e = ENOENT \/ e = ENOTDIR)
    /\ map translations (heap w') = [Js.empty].
Proof.
  destruct (updateTranslationsForWorkspace_without_directory read_flat
              Demo.app
              (step read_flat
                 (FileChanged
                    (Dir [("w", Dir [("app", Dir [(".iris-i18n.json",
                                                    File Demo.descriptor)])])])
                    "/nowhere" "rename" None)
                 Demo.running)
              0 (Demo.app_state Demo.greetings)
              eq_refl eq_refl ltac:(discriminate)
              ltac:(intros entries; vm_compute; discriminate))
    as [e [w' [Hrun [He _]]]].
  exists e, w'. split; [exact Hrun|]. split; [exact He|].
  vm_compute in Hrun. injection Hrun as _ <-. reflexivity.
Defined.

(** X12.  [readConfigFileForWorkspace] never throws: whatever goes wrong
    inside is caught, and the call returns. *)
Theorem readConfigFileForWorkspace_never_throws
    (JSON_parse : string -> option (Js.Obj string))
    (folder : WorkspaceFolder) (w : World) :
  fst (readConfigFileForWorkspace JSON_parse folder w) = Ok tt.
Proof.
  unfold readConfigFileForWorkspace, try_catch.
  match goal with
  | |- fst (match ?c with _ => _ end) = _ => destruct c as [[[]|e] w1]
  end; reflexivity.
Qed.

(** X13.  When the descriptor cannot be read, does not parse, or names no
    locale path, [readConfigFileForWorkspace] writes one line to the
    console and changes nothing else: the locale path, the display
    language and the translations of the workspace stay as they were. *)
Theorem readConfigFileForWorkspace_failure
    (JSON_parse : string -> option (Js.Obj string))
    (folder : WorkspaceFolder) (w : World) :
  (forall content config,
     readFile (resolve (fs w) (path_join (fsPath folder) config_name))
     = Ok content ->
     JSON_parse content = Some config ->
     Js.get config "locale_path" = None) ->
  readConfigFileForWorkspace JSON_parse folder w
  = (Ok tt,
     with_console (console w ++ ["Error reading .iris-i18n.json:"])%list w).
Proof.
  intros H.
  unfold readConfigFileForWorkspace, try_catch, bind, gets, lift, parse,
    console_error, modify, the_state, throw.
  destruct (readFile (resolve (fs w) (path_join (fsPath folder) config_name)))
    as [content|e] eqn:Er; [|reflexivity].
  destruct (JSON_parse content) as [config|] eqn:Ep; [|reflexivity].
  rewrite (H content config eq_refl Ep).
  destruct (Js.get (workspaceStates w) (uri folder)); reflexivity.
Qed.

Lemma readConfigFileForWorkspace_failure_witness :
  readConfigFileForWorkspace read_flat Demo.app
    (Demo.started (Demo.disk "{oops" Demo.locale_tree))
  = (Ok tt,
     with_console
       (console (Demo.started (Demo.disk "{oops" Demo.locale_tree))
          ++ ["Error reading .iris-i18n.json:"])%list
       (Demo.started (Demo.disk "{oops" Demo.locale_tree))).
Proof.
  apply (readConfigFileForWorkspace_failure read_flat Demo.app
           (Demo.started (Demo.disk "{oops" Demo.locale_tree))).
  intros content config Hr Hp. vm_compute in Hr. injection Hr as <-.
  vm_compute in Hp. discriminate.
Defined.

Lemma append_nonempty_l (a b : string) :
  a <> EmptyString -> a ++ b <> EmptyString.
Proof. destruct a; [congruence | discriminate]. Qed.

Lemma normalize_nonempty (p : string) : normalize p <> EmptyString.
Proof.
  unfold normalize. destruct p as [|c p]; [discriminate|].
  destruct (String.concat "/"
              (normalize_segments (negb (isAbsolute (String c p)))
                 (split_path (String c p)) [])) as [|b body].
  - destruct (isAbsolute (String c p)); [discriminate|].
    destruct (endsWithSlash (String c p)); discriminate.
  - destruct (isAbsolute (String c p)); [discriminate|].
    destruct (endsWithSlash (String c p)); discriminate.
Qed.

Lemma path_join_nonempty (a b : string) : path_join a b <> EmptyString.
Proof.
  unfold path_join.
  destruct a; destruct b; try apply normalize_nonempty. discriminate.
Qed.

(** X14.  When the descriptor parses and names a locale path that is a
    directory, [readConfigFileForWorkspace] returns with the state of the
    workspace updated: its locale path is the folder joined with the
    locale path of the descriptor, its display language is the one of the
    descriptor ([undefined] when there is none), and its translations are
    those read from the entries of the directory. *)
Theorem readConfigFileForWorkspace_success
    (JSON_parse : string -> option (Js.Obj string))
    (folder : WorkspaceFolder) (w : World) (r : nat) (state : WorkspaceState)
    (content : string) (config : Js.Obj string) (locale_path : string)
    (entries : list (string * FsNode)) :
  resolve (fs w) (path_join (fsPath folder) config_name)
  = Some (File content) ->
  JSON_parse content = Some config ->
  Js.get config "locale_path" = Some locale_path ->
  Js.get (workspaceStates w) (uri folder) = Some r ->
  nth_error (heap w) r = Some state ->
  resolve (fs w) (path_join (fsPath folder) locale_path)
  = Some (Dir entries) ->
  exists w' state',
    readConfigFileForWorkspace JSON_parse folder w = (Ok tt, w')
    /\ nth_error (heap w') r = Some state'
    /\ localePath state' = path_join (fsPath folder) locale_path
    /\ displayLanguage state' = Js.get config "display_language"
    /\ translations state' = fst (load_locale_tree JSON_parse entries)
    /\ activeEditor state' = activeEditor state.
Proof.
  intros Hc Hp Hl Hs Hh Hd.
  set (state1 := set_config (path_join (fsPath folder) locale_path)
                   (Js.get config "display_language") state).
  set (w1 := with_heap (update_nth r (fun _ => state1) (heap w)) w).
  destruct (updateTranslationsForWorkspace_loads JSON_parse folder w1 r state1
              entries) as [w' [Hrun [Hheap _]]].
  - exact Hs.
  - unfold w1. simpl. now rewrite nth_error_update_nth, Hh.
  - apply path_join_nonempty.
  - exact Hd.
  - exists w',
      (set_translations (fst (load_locale_tree JSON_parse entries)) state1).
    split; [|split; [exact Hheap | repeat split]].
    unfold readConfigFileForWorkspace, try_catch, bind at 1 2 3 4, gets, lift,
      parse, the_state.
    rewrite Hc. simpl. rewrite Hp, Hs, Hl.
    unfold bind, write_state, modify.
    assert (Ew : with_heap
                   (update_nth r
                      (set_config (path_join (fsPath folder) locale_path)
                         (Js.get config "display_language")) (heap w)) w
                 = w1).
    { unfold w1. f_equal. clear - Hh. revert Hh. generalize (heap w).
      induction r as [|r IH]; intros [|a l]; simpl; try discriminate.
      - now intros [= ->].
      - intros H. f_equal. now apply IH. }
    rewrite Ew, Hrun. reflexivity.
Qed.

Lemma readConfigFileForWorkspace_success_witness :
  exists w' state',
    readConfigFileForWorkspace read_flat Demo.app
      (Demo.started (Demo.disk Demo.descriptor Demo.colliding_tree))
    = (Ok tt, w')
    /\ nth_error (heap w') 0 = Some state'
    /\ localePath state' = "/w/app/locale"
    /\ displayLanguage state' = Some "fr".
Proof.
  destruct (readConfigFileForWorkspace_success read_flat Demo.app
              (Demo.started (Demo.disk Demo.descriptor Demo.colliding_tree))
              0
              (Demo.app_state
                 [("en", [("greet", "Hello"); ("bye", "Bye")]);
                  ("fr", [("greet", "Salut")])])
              Demo.descriptor
              [("locale_path", "./locale"); ("display_language", "fr")]
              "./locale" Demo.colliding_tree
              eq_refl eq_refl eq_refl eq_refl eq_refl eq_refl)
    as [w' [state' [Hrun [Hheap [Hl [Hd _]]]]]].
  exists w', state'. split; [exact Hrun|]. split; [exact Hheap|].
  split; [exact Hl | exact Hd].
Defined.

(** ** Events the watchers ignore *)

Lemma fire_skip {A : Type} (targets : list A) (c : A -> M unit) (w : World) :
  (forall t w0, c t w0 = (Ok tt, w0)) -> fire targets c w = w.
Proof.
  intros H. unfold fire. induction targets as [|t targets IH]; simpl;
    [reflexivity|].
  unfold call at 2. now rewrite H.
Qed.

(** X15.  A watcher reacts to nothing but a change of a file whose name
    has the extension of a JSON document: on every other notification (a
    rename, which is what the creation and the removal of a file give, or
    a change of another file) the event changes the disk and nothing
    else; no translation is read again and no decoration is set. *)
Theorem other_notifications_are_ignored
    (JSON_parse : string -> option (Js.Obj string)) (fs' : FsNode)
    (watched eventType : string) (filename : option string) (w : World) :
  eventType <> "change"
  \/ (exists name, filename = Some name /\ extname name <> ".json") ->
  step JSON_parse (FileChanged fs' watched eventType filename) w
  = with_host fs' (editors w) (visibleTextEditors w) (workspaceFolders w) w.
Proof.
  intros H. unfold step. apply fire_skip. intros x w0. unfold watch_callback.
  destruct H as [H|[name [-> H]]].
  - apply String.eqb_neq in H. now rewrite H.
  - apply String.eqb_neq in H. rewrite H.
    destruct (String.eqb eventType "change"); reflexivity.
Qed.

Lemma other_notifications_are_ignored_witness :
  step read_flat
    (FileChanged (Demo.disk Demo.descriptor Demo.damaged_tree)
       "/w/app/locale" "rename" (Some "fr/extra.json"))
    Demo.running
  = with_host (Demo.disk Demo.descriptor Demo.damaged_tree)
      (editors Demo.running) (visibleTextEditors Demo.running)
      (workspaceFolders Demo.running) Demo.running.
Proof.
  apply (other_notifications_are_ignored read_flat). left. discriminate.
Defined.

(** ** Folders without a descriptor *)

Lemma forEach_skip {A : Type} (l : list A) (f : A -> M unit) (w : World) :
  (forall a, In a l -> f a w = (Ok tt, w)) -> forEach l f w = (Ok tt, w).
Proof.
  induction l as [|a l IH]; intros H; simpl; [reflexivity|].
  unfold bind. rewrite (H a (or_introl eq_refl)). apply IH.
  intros b Hb. apply H. now right.
Qed.

(** X16.  The descriptor is the trigger: when no open folder has the file
    [.iris-i18n.json], [activate] registers its listener of the workspace
    folders and does nothing else; no state is created, no watcher and no
    listener of an editor is registered. *)
Theorem activate_without_descriptor
    (JSON_parse : string -> option (Js.Obj string)) (w : World) :
  (forall folder, In folder (workspaceFolders w) ->
     resolve (fs w) (path_join (fsPath folder) config_name) = None) ->
  activate JSON_parse w
  = (Ok tt, with_folderListeners (S (folderListeners w)) w).
Proof.
  intros H. unfold activate, bind at 1, gets. unfold bind.
  rewrite forEach_skip; [reflexivity|].
  intros folder Hin. unfold initializeWorkspace, bind at 1,
    isPluginActiveInWorkspace, gets.
  now rewrite (H folder Hin).
Qed.

Lemma activate_without_descriptor_witness :
  activate read_flat
    (mkWorld (Dir [("w", Dir [("app2", Dir [])])]) [] []
       [mkFolder "file:///w/app2" "/w/app2"] [] [] [] 0 [] [] 0 [] [] [])
  = (Ok tt,
     mkWorld (Dir [("w", Dir [("app2", Dir [])])]) [] []
       [mkFolder "file:///w/app2" "/w/app2"] [] [] [] 0 [] [] 1 [] [] []).
Proof.
  apply (activate_without_descriptor read_flat
           (mkWorld (Dir [("w", Dir [("app2", Dir [])])]) [] []
              [mkFolder "file:///w/app2" "/w/app2"] [] [] [] 0 [] [] 0 [] []
              [])).
  intros folder Hin.
  simpl in Hin. destruct Hin as [<-|[]]. reflexivity.
Defined.

(** ** The active editor *)

Lemma updateDecorationsForWorkspace_heap (folder : WorkspaceFolder)
    (w : World) :
  heap (snd (updateDecorationsForWorkspace folder w)) = heap w
  /\ editors (snd (updateDecorationsForWorkspace folder w)) = editors w.
Proof.
  assert (H : preserves_if anywhere
                (fun w w' => heap w' = heap w /\ editors w' = editors w)
                (updateDecorationsForWorkspace folder)).
  { unfold updateDecorationsForWorkspace, setDecorations.
    frame (fun w : World => conj (eq_refl (heap w)) (eq_refl (editors w)))
          (fun (w1 w2 w3 : World)
               (H1 : heap w2 = heap w1 /\ editors w2 = editors w1)
               (H2 : heap w3 = heap w2 /\ editors w3 = editors w2) =>
             conj (eq_trans (proj1 H2) (proj1 H1))
                  (eq_trans (proj2 H2) (proj2 H1)))
          (fun (w w' : World) (H : anywhere w)
               (_ : heap w' = heap w /\ editors w' = editors w) => H)
          ltac:(intros ? _; split; reflexivity). }
  exact (H w I).
Qed.

Lemma lies_under_startsWith (dir p : string) :
  lies_under dir p = true -> startsWith p dir = true.
Proof.
  unfold lies_under. intros H. apply orb_true_iff in H as [H|H].
  - apply String.eqb_eq in H as ->. apply startsWith_true.
    exists EmptyString. symmetry. apply append_empty_r.
  - apply startsWith_true in H as [rest ->]. apply startsWith_true.
    exists ("/" ++ rest). apply append_assoc.
Qed.

(** X17.  Every file document that lies under the folder of a listener
    passes the test of the listener: when its editor becomes the active
    editor, the state of the listener takes it as its active editor. *)
Theorem file_under_folder_is_adopted (l : Listener) (editor : TextEditor)
    (w : World) (state : WorkspaceState) :
  nth_error (heap w) (listener_state l) = Some state ->
  uri_scheme (document editor) = "file" ->
  lies_under (fsPath (listener_folder l)) (uri_fsPath (document editor))
  = true ->
  exists state',
    nth_error (heap (snd (onDidChangeActiveTextEditor l (Some editor) w)))
      (listener_state l) = Some state'
    /\ activeEditor state' = Some (editor_id editor).
Proof.
  intros Hh Hs Hu. unfold onDidChangeActiveTextEditor, adopt_editor, belongs.
  rewrite Hs, (lies_under_startsWith _ _ Hu). simpl.
  unfold bind, write_state, modify. simpl.
  match goal with
  | |- context [updateDecorationsForWorkspace ?f ?w1] =>
      pose proof (proj1 (updateDecorationsForWorkspace_heap f w1)) as E;
      destruct (updateDecorationsForWorkspace f w1) as [[[]|e] w2]
  end; simpl in *; rewrite E, nth_error_update_nth, Hh; simpl; eauto.
Qed.

Lemma file_under_folder_is_adopted_witness :
  exists state',
    nth_error
      (heap (snd (onDidChangeActiveTextEditor
                    (mkListener OnDidChangeActiveTextEditor 0 Demo.app)
                    (Some (mkEditor 7
                             (mkDocument 7 "file" "/w/app/pkg/view.go"
                                (Demo.call_site "greet"))
                             (mkRange 0 0)))
                    Demo.running)))
      0 = Some state'
    /\ activeEditor state' = Some 7.
Proof.
  apply (file_under_folder_is_adopted
           (mkListener OnDidChangeActiveTextEditor 0 Demo.app)
           (mkEditor 7
              (mkDocument 7 "file" "/w/app/pkg/view.go" (Demo.call_site "greet"))
              (mkRange 0 0))
           Demo.running (Demo.app_state Demo.greetings));
    reflexivity.
Defined.

(** ** A change of a locale file *)

(** X18.  The index is live and rebuilt wholesale: when a watcher of the
    locale files is told that a JSON file changed, the translations of
    its workspace become those read from the disk as it is now, whatever
    they were before, and the active editor shows the decorations
    computed from its text and selection with the new translations. *)
Theorem locale_change_rebuilds
    (JSON_parse : string -> option (Js.Obj string)) (watcher : Watcher)
    (name : string) (w : World) (r : nat) (state : WorkspaceState)
    (entries : list (string * FsNode)) (e d i : nat) (editor : TextEditor) :
  watch_kind watcher = LocaleFiles ->
  extname name = ".json" ->
  Js.get (workspaceStates w) (uri (watch_folder watcher)) = Some r ->
  nth_error (heap w) r = Some state ->
  localePath state <> EmptyString ->
  resolve (fs w) (localePath state) = Some (Dir entries) ->
  activeEditor state = Some e ->
  decorationType state = Some d ->
  inplaceAnnotationType state = Some i ->
  d <> i ->
  find_editor w e = Some editor ->
  exists w' state',
    watch_callback JSON_parse watcher "change" (Some name) w = (Ok tt, w')
    /\ nth_error (heap w') r = Some state'
    /\ translations state' = fst (load_locale_tree JSON_parse entries)
    /\ shown w' e i
       = inplaceAnnotations
           (decorate (getText (document editor)) (selection editor)
              (fst (load_locale_tree JSON_parse entries))
              (displayLanguage state))
    /\ shown w' e d
       = decorationsArray
           (decorate (getText (document editor)) (selection editor)
              (fst (load_locale_tree JSON_parse entries))
              (displayLanguage state)).
Proof.
  intros Hk Hx Hs Hh Hp Hr He Hd Hi Hne Hf.
  unfold watch_callback. rewrite Hk, Hx. simpl.
  unfold updateTranslationsForWorkspace, bind at 1 2, the_state, read_state.
  rewrite Hs, Hh.
  destruct (localePath state) as [|c p] eqn:Elp; [congruence|].
  set (loaded := load_locale_tree JSON_parse entries).
  unfold bind, write_state, modify, gets, lift. simpl.
  rewrite Hr. simpl. fold loaded.
  match goal with
  | |- exists w' state',
         updateDecorationsForWorkspace ?f ?w2 = _ /\ _ =>
      destruct (updateDecorationsForWorkspace_after f w2 r
                  (set_translations (fst loaded) state) e d i editor)
        as [w' [Hrun [Si [Sd [_ Hheap]]]]]
  end; try assumption.
  - simpl. now rewrite !nth_error_update_nth, Hh.
  - exists w', (set_translations (fst loaded) state).
    split; [exact Hrun|]. rewrite Hheap. simpl.
    rewrite !nth_error_update_nth, Hh. simpl.
    split; [reflexivity|]. split; [reflexivity|]. split; assumption.
Qed.

Lemma locale_change_rebuilds_witness :
  exists w' state',
    watch_callback read_flat
      (mkWatcher "/w/app/locale" true LocaleFiles Demo.app)
      "change" (Some "en/b.json")
      (step read_flat
         (FileChanged (Demo.disk Demo.descriptor Demo.colliding_tree)
            "/w/app/locale" "rename" None)
         Demo.running)
    = (Ok tt, w')
    /\ nth_error (heap w') 0 = Some state'
    /\ translations state'
       = [("en", [("greet", "Hello"); ("bye", "Bye")]);
          ("fr", [("greet", "Salut")])].
Proof.
  destruct (locale_change_rebuilds read_flat
              (mkWatcher "/w/app/locale" true LocaleFiles Demo.app)
              "en/b.json"
              (step read_flat
                 (FileChanged (Demo.disk Demo.descriptor Demo.colliding_tree)
                    "/w/app/locale" "rename" None)
                 Demo.running)
              0 (Demo.app_state Demo.greetings) Demo.colliding_tree 1 0 1
              Demo.editor1
              eq_refl eq_refl eq_refl eq_refl ltac:(discriminate) eq_refl
              eq_refl eq_refl eq_refl ltac:(discriminate) eq_refl)
    as [w' [state' [Hrun [Hheap [Ht _]]]]].
  exists w', state'. split; [exact Hrun|]. split; [exact Hheap|].
  rewrite Ht. reflexivity.
Defined.

(** ** Which files count as documents *)

Lemma backwards_app (a b : string) (i : nat) (acc : list (nat * ascii)) :
  backwards (a ++ b) i acc
  = backwards b (i + String.length a) (backwards a i acc).
Proof.
  revert i acc; induction a as [|c a IH]; intros i acc; simpl.
  - now rewrite Nat.add_0_r.
  - rewrite IH. f_equal. lia.
Qed.

Lemma backwards_chars (s : string) (i : nat) (acc : list (nat * ascii))
    (x : nat * ascii) :
  In x (backwards s i acc) -> In x acc \/ In (snd x) (chars s).
Proof.
  revert i acc; induction s as [|c s IH]; intros i acc; simpl; [auto|].
  intros H. apply IH in H as [[<-|H]|H]; simpl; auto.
Qed.

Lemma backwards_nonempty (s : string) (i : nat) (acc : list (nat * ascii)) :
  s <> EmptyString -> backwards s i acc <> [].
Proof.
  destruct s as [|c s]; [congruence|]. intros _. simpl.
  generalize (S i) ((i, c) :: acc) (@nil_cons _ (i, c) acc).
  induction s as [|c' s IH]; intros j l Hl; simpl.
  - congruence.
  - apply IH. discriminate.
Qed.

(** The scan of [path.extname] over characters that are no separators,
    once the dot of the extension is found. *)
Lemma ext_scan_base (l : list (nat * ascii)) (d e : nat) (pre : PreDot) :
  (forall x, In x l -> snd x <> slash) ->
  exists pre',
    fold_left (fun st ic => ext_step st (fst ic) (snd ic)) l
      (mkExtScan (Some d) 0 (Some e) false pre false)
    = mkExtScan (Some d) 0 (Some e) false pre' false
    /\ (l <> [] -> pre' <> NoneSeen).
Proof.
  revert pre; induction l as [|[i c] l IH]; intros pre Hl; simpl.
  - exists pre. split; [reflexivity | congruence].
  - assert (Hc : Ascii.eqb c slash = false).
    { apply Ascii.eqb_neq. apply (Hl (i, c)). now left. }
    unfold ext_step at 2. simpl. rewrite Hc.
    destruct (Ascii.eqb c dot); simpl.
    + destruct (IH DotsOnly) as [pre' [E _]];
        [intros x Hx; apply Hl; now right|].
      destruct l as [|y l'].
      * exists DotsOnly. split; [reflexivity | discriminate].
      * destruct (IH DotsOnly) as [pre'' [E' N]];
          [intros x Hx; apply Hl; now right|].
        exists pre''. split; [exact E' | intros _; apply N; discriminate].
    + destruct l as [|y l'].
      * exists NonDotSeen. split; [reflexivity | discriminate].
      * destruct (IH NonDotSeen) as [pre'' [E' N]];
          [intros x Hx; apply Hl; now right|].
        exists pre''. split; [exact E' | intros _; apply N; discriminate].
Qed.

Lemma substring_append (a b : string) (m : nat) :
  substring (String.length a) m (a ++ b) = substring 0 m b.
Proof. induction a as [|c a IH]; simpl; auto. Qed.

(** X19.  A file counts as a document by its name alone: every name made
    of a base that is not empty and holds no separator, followed by the
    extension of a JSON document, has that extension for [path.extname],
    while the file named by the bare extension has none and is never
    read. *)
Theorem extname_json (base : string) :
  base <> EmptyString ->
  (forall c, In c (chars base) -> c <> slash) ->
  extname (base ++ ".json") = ".json" /\ extname ".json" = EmptyString.
Proof.
  intros Hne Hc. split; [|reflexivity].
  set (n := String.length base).
  assert (Hst : exists pre',
             fold_left (fun st ic => ext_step st (fst ic) (snd ic))
               (backwards (base ++ ".json") 0 [])
               (mkExtScan None 0 None true NoneSeen false)
             = mkExtScan (Some n) 0 (Some (n + 5)) false pre' false
             /\ pre' <> NoneSeen).
  { rewrite backwards_app. rewrite Nat.add_0_l. fold n.
    change (backwards ".json" n (backwards base 0 []))
      with ([(4 + n, "n"%char); (3 + n, "o"%char); (2 + n, "s"%char);
             (1 + n, "j"%char); (n, "."%char)] ++ backwards base 0 [])%list.
    rewrite fold_left_app.
    replace (fold_left (fun st ic => ext_step st (fst ic) (snd ic))
               [(4 + n, "n"%char); (3 + n, "o"%char); (2 + n, "s"%char);
                (1 + n, "j"%char); (n, "."%char)]
               (mkExtScan None 0 None true NoneSeen false))
      with (mkExtScan (Some n) 0 (Some (n + 5)) false NoneSeen false)
      by (cbn; do 2 f_equal; lia).
    destruct (ext_scan_base (backwards base 0 []) n (n + 5) NoneSeen)
      as [pre' [E N]].
    { intros x Hx. apply backwards_chars in Hx as [[]|Hx]. now apply Hc. }
    exists pre'. split; [exact E|].
    apply N. now apply backwards_nonempty. }
  destruct Hst as [pre' [Hst N]].
  unfold extname. rewrite Hst.
  cbn [startDot ext_end preDotState startPart].
  replace (n + 5 - n) with 5 by lia.
  assert (Hsub : substring n 5 (base ++ ".json") = ".json").
  { unfold n. rewrite substring_append. reflexivity. }
  destruct pre'; [congruence | | exact Hsub].
  destruct (Nat.eqb_spec n (n + 5 - 1)); [lia|]. exact Hsub.
Qed.

Lemma extname_json_witness :
  extname ("common" ++ ".json") = ".json" /\ extname ".json" = EmptyString.
Proof.
  apply (extname_json "common"); [discriminate|].
  intros c Hc. simpl in Hc.
  repeat (destruct Hc as [<-|Hc]; [discriminate|]). destruct Hc.
Defined.

(** ** An initialization that fails *)

Lemma same_subscriptions_refl (w : World) : same_subscriptions w w.
Proof. reflexivity. Qed.

Lemma same_subscriptions_trans (w1 w2 w3 : World) :
  same_subscriptions w1 w2 -> same_subscriptions w2 w3 ->
  same_subscriptions w1 w3.
Proof. unfold same_subscriptions. congruence. Qed.

Lemma anywhere_stable' (w w' : World) :
  anywhere w -> same_subscriptions w w' -> anywhere w'.
Proof. intros _ _. exact I. Qed.

Ltac silent :=
  frame same_subscriptions_refl same_subscriptions_trans anywhere_stable'
    ltac:(intros ? _; reflexivity).

Section Silent.

Variable JSON_parse : string -> option (Js.Obj string).

#[local] Abbreviation silently := (preserves_if anywhere same_subscriptions).

Lemma silently_createTextEditorDecorationType :
  silently createTextEditorDecorationType.
Proof. intros w _. reflexivity. Qed.

Lemma silently_updateDecorationsForWorkspace (folder : WorkspaceFolder) :
  silently (updateDecorationsForWorkspace folder).
Proof. unfold updateDecorationsForWorkspace, setDecorations. silent. Qed.

Lemma silently_updateTranslationsForWorkspace (folder : WorkspaceFolder) :
  silently (updateTranslationsForWorkspace JSON_parse folder).
Proof.
  unfold updateTranslationsForWorkspace, write_state. silent.
  all: apply silently_updateDecorationsForWorkspace.
Qed.

Lemma silently_readConfigFileForWorkspace (folder : WorkspaceFolder) :
  silently (readConfigFileForWorkspace JSON_parse folder).
Proof.
  unfold readConfigFileForWorkspace, write_state, console_error. silent.
  all: apply silently_updateTranslationsForWorkspace.
Qed.

Lemma silently_fs_watch (p : string) (recursive : bool) (kind : WatchKind)
    (folder : WorkspaceFolder) :
  silently (fs_watch p recursive kind folder).
Proof. unfold fs_watch. silent. Qed.

Lemma silently_adopt_editor (r : nat) (folder : WorkspaceFolder)
    (editor : TextEditor) :
  silently (adopt_editor r folder editor).
Proof.
  unfold adopt_editor, write_state. silent.
  apply silently_updateDecorationsForWorkspace.
Qed.

Lemma quiet_throw_bind {A B : Type} (c : M A) (k : A -> M B) :
  silently c -> (forall a, quiet_throw (k a)) -> quiet_throw (bind c k).
Proof.
  intros Hc Hk w e w' H. unfold bind in H. specialize (Hc w I).
  destruct (c w) as [[a|e0] w1]; simpl in Hc.
  - rewrite (Hk a w1 e w' H). exact Hc.
  - injection H as _ <-. exact Hc.
Qed.

Lemma quiet_throw_modify (f : World -> World) : quiet_throw (modify f).
Proof. intros w e w' H. discriminate. Qed.

Lemma quiet_throw_ret {A : Type} (a : A) : quiet_throw (ret a).
Proof. intros w e w' H. discriminate. Qed.

End Silent.

(** X20.  Initialization registers its listeners last: when
    [initializeWorkspace] throws, whatever the reason, no listener of the
    folder is registered, so that no later event of the editors reaches
    the folder. *)
Theorem initializeWorkspace_throws_without_listeners
    (JSON_parse : string -> option (Js.Obj string))
    (folder : WorkspaceFolder) (w : World) (e : JsError) (w' : World) :
  initializeWorkspace JSON_parse folder w = (Throw e, w') ->
  subscriptions w' = subscriptions w.
Proof.
  revert w e w'. change (quiet_throw (initializeWorkspace JSON_parse folder)).
  unfold initializeWorkspace, isPluginActiveInWorkspace,
    createDecorationTypeForWorkspace, watchLocaleFilesForWorkspace,
    watchConfigFileForWorkspace, write_state.
  apply quiet_throw_bind; [silent|]. intros [|]; [|apply quiet_throw_ret].
  repeat (apply quiet_throw_bind;
          [ silent;
            first [ apply silently_readConfigFileForWorkspace
                  | apply silently_createTextEditorDecorationType
                  | apply silently_updateDecorationsForWorkspace
                  | apply silently_fs_watch
                  | apply silently_adopt_editor ]
          | intros ? ]).
  apply quiet_throw_modify.
Qed.

Lemma nth_error_app_length {A : Type} (l : list A) (a : A) :
  nth_error (l ++ [a]) (List.length l) = Some a.
Proof. induction l as [|b l IH]; simpl; auto. Qed.

Section MissingDirectory.

Variable JSON_parse : string -> option (Js.Obj string).
Variable folder : WorkspaceFolder.

Lemma updateTranslationsForWorkspace_enoent (w : World) (r : nat)
    (state : WorkspaceState) :
  Js.get (workspaceStates w) (uri folder) = Some r ->
  nth_error (heap w) r = Some state ->
  localePath state <> EmptyString ->
  resolve (fs w) (localePath state) = None ->
  updateTranslationsForWorkspace JSON_parse folder w
  = (Throw ENOENT,
     with_heap (update_nth r (set_translations Js.empty) (heap w)) w).
Proof.
  intros Hs Hh Hp Hr.
  unfold updateTranslationsForWorkspace, bind at 1 2, the_state, read_state.
  rewrite Hs, Hh.
  destruct (localePath state) as [|c p] eqn:Elp; [congruence|].
  unfold bind, write_state, modify, gets, lift, readdir. simpl.
  now rewrite Hr.
Qed.

Lemma readConfigFileForWorkspace_enoent (w : World) (r : nat)
    (state : WorkspaceState) (content : string) (config : Js.Obj string)
    (locale_path : string) :
  resolve (fs w) (path_join (fsPath folder) config_name)
  = Some (File content) ->
  JSON_parse content = Some config ->
  Js.get config "locale_path" = Some locale_path ->
  Js.get (workspaceStates w) (uri folder) = Some r ->
  nth_error (heap w) r = Some state ->
  resolve (fs w) (path_join (fsPath folder) locale_path) = None ->
  readConfigFileForWorkspace JSON_parse folder w
  = (Ok tt,
     with_console (console w ++ ["Error reading .iris-i18n.json:"])%list
       (with_heap
          (update_nth r (set_translations Js.empty)
             (update_nth r
                (set_config (path_join (fsPath folder) locale_path)
                   (Js.get config "display_language")) (heap w))) w)).
Proof.
  intros Hc Hp Hl Hs Hh Hd.
  unfold readConfigFileForWorkspace, try_catch, bind at 1 2 3 4, gets, lift,
    parse, the_state.
  rewrite Hc. simpl. rewrite Hp, Hs, Hl.
  unfold bind, write_state, modify.
  erewrite updateTranslationsForWorkspace_enoent.
  - reflexivity.
  - exact Hs.
  - simpl. rewrite nth_error_update_nth, Hh. reflexivity.
  - apply path_join_nonempty.
  - exact Hd.
Qed.

Lemma createDecorationTypeForWorkspace_run (w : World) (r : nat)
    (state : WorkspaceState) :
  Js.get (workspaceStates w) (uri folder) = Some r ->
  nth_error (heap w) r = Some state ->
  exists w' state',
    createDecorationTypeForWorkspace folder w = (Ok tt, w')
    /\ fs w' = fs w
    /\ workspaceStates w' = workspaceStates w
    /\ subscriptions w' = subscriptions w
    /\ watchers w' = watchers w
    /\ console w' = console w
    /\ nth_error (heap w') r = Some state'
    /\ localePath state' = localePath state
    /\ activeEditor state' = activeEditor state.
Proof.
  intros Hs Hh.
  unfold createDecorationTypeForWorkspace, bind,
    createTextEditorDecorationType, the_state, write_state, modify.
  simpl. rewrite Hs. simpl. eexists. eexists.
  split; [reflexivity|]. simpl.
  rewrite !nth_error_update_nth, Hh. simpl. repeat split.
Qed.

Lemma watchLocaleFilesForWorkspace_enoent (w : World) (r : nat)
    (state : WorkspaceState) :
  Js.get (workspaceStates w) (uri folder) = Some r ->
  nth_error (heap w) r = Some state ->
  localePath state <> EmptyString ->
  resolve (fs w) (localePath state) = None ->
  watchLocaleFilesForWorkspace folder w = (Throw ENOENT, w).
Proof.
  intros Hs Hh Hp Hr.
  unfold watchLocaleFilesForWorkspace, bind, the_state, read_state.
  rewrite Hs, Hh.
  destruct (localePath state) as [|c p] eqn:E; [congruence|].
  unfold fs_watch, bind, gets, throw. now rewrite Hr.
Qed.

Lemma updateDecorationsForWorkspace_no_editor (w : World) (r : nat)
    (state : WorkspaceState) :
  Js.get (workspaceStates w) (uri folder) = Some r ->
  nth_error (heap w) r = Some state ->
  activeEditor state = None ->
  updateDecorationsForWorkspace folder w = (Ok tt, w).
Proof.
  intros Hs Hh He.
  unfold updateDecorationsForWorkspace, bind, the_state, read_state.
  now rewrite Hs, Hh, He.
Qed.

End MissingDirectory.

(** X21.  A descriptor that names a locale path which does not exist
    makes the initialization of its folder fail: [initializeWorkspace]
    throws the [ENOENT] of [fs.watch] after the error of reading the
    translations was caught and written to the console; the folder is left
    with a state but without watcher and without listener, and [activate]
    throws with it, so that the folders behind it are not initialized. *)
Theorem initializeWorkspace_missing_locale_directory
    (JSON_parse : string -> option (Js.Obj string))
    (folder : WorkspaceFolder) (w : World) (content : string)
    (config : Js.Obj string) (locale_path : string) :
  resolve (fs w) (path_join (fsPath folder) config_name)
  = Some (File content) ->
  JSON_parse content = Some config ->
  Js.get config "locale_path" = Some locale_path ->
  resolve (fs w) (path_join (fsPath folder) locale_path) = None ->
  exists w',
    initializeWorkspace JSON_parse folder w = (Throw ENOENT, w')
    /\ subscriptions w' = subscriptions w
    /\ watchers w' = watchers w
    /\ Js.get (workspaceStates w') (uri folder) = Some (List.length (heap w))
    /\ In "Error reading .iris-i18n.json:" (console w')
    /\ (forall others, workspaceFolders w = folder :: others ->
          activate JSON_parse w = (Throw ENOENT, w')).
Proof.
  intros Hc Hp Hl Hd.
  pose proof (path_join_nonempty (fsPath folder) locale_path) as Hne.
  set (r := List.length (heap w)).
  set (w1 := with_workspaceStates (Js.set (workspaceStates w) (uri folder) r)
               (with_heap (heap w ++ [new_state folder])%list w)).
  assert (Hs1 : Js.get (workspaceStates w1) (uri folder) = Some r).
  { unfold w1. simpl. now rewrite get_set, String.eqb_refl. }
  assert (Hh1 : nth_error (heap w1) r = Some (new_state folder)).
  { unfold w1, r. simpl. apply nth_error_app_length. }
  pose proof (readConfigFileForWorkspace_enoent JSON_parse folder w1 r _
                content config locale_path Hc Hp Hl Hs1 Hh1 Hd) as Hread.
  match type of Hread with _ = (_, ?x) => set (w2 := x) in * end.
  destruct (createDecorationTypeForWorkspace_run folder w2 r
              (set_translations Js.empty
                 (set_config (path_join (fsPath folder) locale_path)
                    (Js.get config "display_language") (new_state folder))))
    as [w3 [st3 [Hcreate [F3 [S3 [Su3 [Wa3 [C3 [H3 [L3 A3]]]]]]]]]].
  { exact Hs1. }
  { unfold w2. cbn [heap with_console with_heap].
    rewrite !nth_error_update_nth, Hh1. reflexivity. }
  simpl in L3, A3.
  assert (Hs3 : Js.get (workspaceStates w3) (uri folder) = Some r)
    by (rewrite S3; exact Hs1).
  assert (Hinit : initializeWorkspace JSON_parse folder w = (Throw ENOENT, w3)).
  { unfold initializeWorkspace.
    unfold bind at 1. unfold isPluginActiveInWorkspace, gets at 1.
    rewrite Hc. cbv iota beta.
    unfold bind at 1, gets at 1. cbv iota beta. fold r.
    unfold bind at 1, modify at 1. cbv iota beta.
    unfold bind at 1, modify at 1. cbv iota beta.
    match goal with |- _ ?x = _ => change x with w1 end.
    unfold bind at 1. rewrite Hread. cbv iota beta. fold w2.
    unfold bind at 1. rewrite Hcreate. cbv iota beta.
    unfold bind at 1.
    rewrite (updateDecorationsForWorkspace_no_editor folder w3 r st3 Hs3 H3 A3).
    cbv iota beta.
    unfold bind at 1.
    rewrite (watchLocaleFilesForWorkspace_enoent folder w3 r st3 Hs3 H3).
    - reflexivity.
    - rewrite L3. exact Hne.
    - rewrite L3, F3. exact Hd. }
  exists w3. split; [exact Hinit|].
  split; [rewrite Su3; reflexivity|].
  split; [rewrite Wa3; reflexivity|].
  split; [exact Hs3|].
  split.
  - rewrite C3. unfold w2. simpl. apply in_or_app. right. now left.
  - intros others Hw. unfold activate, bind at 1, gets. rewrite Hw.
    simpl. unfold bind. now rewrite Hinit.
Qed.

Lemma initializeWorkspace_missing_locale_directory_witness :
  exists w',
    initializeWorkspace read_flat Demo.app
      (Demo.boot (Demo.disk (render [("locale_path", "./missing")])
                    Demo.locale_tree))
    = (Throw ENOENT, w')
    /\ subscriptions w' = []
    /\ watchers w' = [].
Proof.
  destruct (initializeWorkspace_missing_locale_directory read_flat Demo.app
              (Demo.boot (Demo.disk (render [("locale_path", "./missing")])
                            Demo.locale_tree))
              (render [("locale_path", "./missing")])
              [("locale_path", "./missing")] "./missing"
              eq_refl eq_refl eq_refl eq_refl)
    as [w' [Hrun [Hs [Hw _]]]].
  exists w'. split; [exact Hrun|]. split; [exact Hs | exact Hw].
Defined.

(** When [activate] throws, its listener of the workspace folders is not
    registered either: a later removal of the folder calls nothing, and
    the state of the folder stays in [workspaceStates]. *)
Example failed_activation_registers_nothing :
  unhandled
    (Demo.started (Demo.disk (render [("locale_path", "./missing")])
                     Demo.locale_tree)) = [ENOENT]
  /\ folderListeners
       (Demo.started (Demo.disk (render [("locale_path", "./missing")])
                        Demo.locale_tree)) = 0
  /\ folderListeners Demo.running = 1
  /\ workspaceStates
       (step read_flat (DidChangeWorkspaceFolders [] [Demo.app])
          (Demo.started (Demo.disk (render [("locale_path", "./missing")])
                           Demo.locale_tree)))
     = [("file:///w/app", 0)].
Proof. vm_compute. repeat split. Qed.

Lemma initializeWorkspace_throws_without_listeners_witness :
  subscriptions
    (snd (initializeWorkspace read_flat Demo.app
            (Demo.boot (Demo.disk (render [("locale_path", "./missing")])
                          Demo.locale_tree))))
  = [].
Proof.
  apply (initializeWorkspace_throws_without_listeners read_flat Demo.app
           (Demo.boot (Demo.disk (render [("locale_path", "./missing")])
                         Demo.locale_tree))
           ENOENT).
  vm_compute. reflexivity.
Defined.

(** ** The order of the locales and the files that are skipped *)

Lemma keys_set_absent {A : Type} (o : Js.Obj A) (k : string) (v : A) :
  ~ In k (Js.keys o) -> Js.keys (Js.set o k v) = (Js.keys o ++ [k])%list.
Proof.
  induction o as [|[k0 v0] o IH]; simpl; intros H; [reflexivity|].
  destruct (String.eqb_spec k0 k) as [->|Hne]; [tauto|].
  simpl. f_equal. apply IH. tauto.
Qed.

Section Order.

Variable JSON_parse : string -> option (Js.Obj string).

Lemma load_language_keys (st : Loading) (e : string * FsNode) :
  ~ In (fst e) (Js.keys (fst st)) ->
  Js.keys (fst (load_language JSON_parse st e))
  = (Js.keys (fst st) ++ subdirectories [e])%list.
Proof.
  intros Hn. destruct e as [lang node]. unfold load_language, subdirectories.
  simpl in *. destruct node as [content|files]; simpl.
  - now rewrite app_nil_r.
  - destruct (load_files_get JSON_parse lang files
                (Js.set (fst st) lang Js.empty, snd st) Js.empty)
      as [m [_ [_ [_ [_ Ks]]]]].
    { simpl. now rewrite get_set, String.eqb_refl. }
    rewrite Ks. simpl. now apply keys_set_absent.
Qed.

Lemma load_entries_keys (entries : list (string * FsNode)) (st : Loading) :
  NoDup (map fst entries) ->
  (forall n, In n (map fst entries) -> ~ In n (Js.keys (fst st))) ->
  Js.keys (fst (fold_left (load_language JSON_parse) entries st))
  = (Js.keys (fst st) ++ subdirectories entries)%list.
Proof.
  revert st; induction entries as [|e entries IH]; intros st Hnd Hfresh; simpl.
  - unfold subdirectories. simpl. now rewrite app_nil_r.
  - inversion Hnd as [|? ? Hnotin Hnd']; subst.
    rewrite IH; [|exact Hnd'|].
    + rewrite load_language_keys by (apply Hfresh; now left).
      rewrite <- app_assoc. f_equal. unfold subdirectories. simpl.
      destruct (isDirectory (snd e)); reflexivity.
    + intros n Hn Hin.
      rewrite load_language_keys in Hin by (apply Hfresh; now left).
      apply in_app_or in Hin as [Hin|Hin].
      * apply (Hfresh n); [now right | exact Hin].
      * unfold subdirectories in Hin. simpl in Hin.
        destruct (isDirectory (snd e)); simpl in Hin; [|destruct Hin].
        destruct Hin as [<-|[]]. contradiction.
Qed.

Lemma NoDup_map_subdirectories (entries : list (string * FsNode)) :
  NoDup (map fst entries) -> NoDup (subdirectories entries).
Proof.
  unfold subdirectories. induction entries as [|e entries IH]; simpl;
    intros H; [constructor|].
  inversion H as [|? ? Hnotin Hn]; subst.
  destruct (isDirectory (snd e)); simpl; [|auto].
  constructor; [|auto]. intros Hin. apply Hnotin.
  apply in_map_iff in Hin as [x [Ex Hx]]. apply filter_In in Hx as [Hx _].
  apply in_map_iff. eauto.
Qed.


Lemma load_file_skipped (lang : string) (st : Loading) (f : string * FsNode) :
  is_document JSON_parse f = false ->
  fst (load_file JSON_parse lang st f) = fst st.
Proof.
  unfold is_document, load_file, read_document, parse, readFile.
  destruct (String.eqb (extname (fst f)) ".json"); [|reflexivity].
  simpl. destruct (snd f) as [content|]; [|reflexivity].
  destruct (JSON_parse content); [discriminate | reflexivity].
Qed.

Lemma load_files_filter (lang : string) (files : list (string * FsNode))
    (st : Loading) :
  fst (fold_left (load_file JSON_parse lang) files st)
  = fst (fold_left (load_file JSON_parse lang)
           (filter (is_document JSON_parse) files) st).
Proof.
  revert st; induction files as [|f files IH]; intros st; simpl;
    [reflexivity|].
  destruct (is_document JSON_parse f) eqn:E; simpl; [apply IH|].
  rewrite IH. pose proof (load_file_skipped lang st f E) as Hs.
  destruct (load_file JSON_parse lang st f) as [t c]. simpl in Hs. subst t.
  destruct st as [t0 c0]. simpl. apply load_files_console.
Qed.

Lemma load_entries_filter (entries : list (string * FsNode)) (st : Loading) :
  fst (fold_left (load_language JSON_parse) entries st)
  = fst (fold_left (load_language JSON_parse)
           (map (keep_documents JSON_parse) entries) st).
Proof.
  revert st; induction entries as [|e entries IH]; intros st; simpl;
    [reflexivity|].
  rewrite IH.
  assert (E : fst (load_language JSON_parse st e)
              = fst (load_language JSON_parse st
                       (keep_documents JSON_parse e))).
  { unfold load_language, keep_documents.
    destruct (snd e) as [content|files] eqn:Es; simpl; [now rewrite Es|].
    apply load_files_filter. }
  destruct (load_language JSON_parse st e) as [t1 c1].
  destruct (load_language JSON_parse st (keep_documents JSON_parse e))
    as [t2 c2].
  simpl in E. subst t2. apply load_entries_console.
Qed.

(** X23.  What the reader skips leaves no trace in the index: the
    translations read from a locale tree are those read from the tree in
    which every language folder has lost its files without the extension
    of a JSON document, its subdirectories and its documents that do not
    parse, however many there are. *)
Theorem skipped_files_leave_no_trace (entries : list (string * FsNode)) :
  fst (load_locale_tree JSON_parse entries)
  = fst (load_locale_tree JSON_parse
           (map (keep_documents JSON_parse) entries)).
Proof. apply load_entries_filter. Qed.

End Order.


(** The locales 10, 9 and en, listed in this order by the directory, are
    enumerated as 9, 10 and en. *)
Example numbered_locales :
  subdirectories Demo.numbered_tree = ["10"; "9"; "en"]
  /\ Js.ownKeys (fst (load_locale_tree read_flat Demo.numbered_tree))
     = ["9"; "10"; "en"]
  /\ hover_lines (fst (load_locale_tree read_flat Demo.numbered_tree)) "greet"
     = ["9: Nine"; "10: Ten"; "en: Hi"].
Proof. vm_compute. repeat split. Qed.

(** ** The state object of a folder that is initialized *)

Section Fresh.

Variable JSON_parse : string -> option (Js.Obj string).
Variable folder : WorkspaceFolder.
Variable r : nat.

#[local] Abbreviation own :=
  (preserves_if (has_state folder (Some r)) (same_other_workspaces folder)).

Ltac own_leaf := intros ? _; repeat split.

Ltac owning :=
  repeat match goal with
  | |- preserves_if _ _ (bind (the_state _) _) =>
      apply (same_bind_the_state folder (Some r)); intros ? ?
  | |- preserves_if _ _ (write_state _ _) =>
      now apply (same_write_state folder (Some r))
  | |- _ =>
      frame_step (same_refl folder) (same_trans folder)
        (here_stable folder (Some r)) own_leaf
  end.

Lemma own_createDecorationTypeForWorkspace :
  own (createDecorationTypeForWorkspace folder).
Proof.
  unfold createDecorationTypeForWorkspace.
  assert (Hc : own createTextEditorDecorationType)
    by (intros w _; repeat split).
  owning; exact Hc.
Qed.

Lemma own_fs_watch (p : string) (recursive : bool) (kind : WatchKind) :
  own (fs_watch p recursive kind folder).
Proof. unfold fs_watch. owning. Qed.

Lemma own_adopt_editor (editor : TextEditor) :
  own (adopt_editor r folder editor).
Proof.
  unfold adopt_editor. owning.
  apply (same_updateDecorationsForWorkspace folder (Some r)).
Qed.

(** What [initializeWorkspace] does once the state is created and put
    into [workspaceStates]. *)
Lemma own_initialization :
  own (readConfigFileForWorkspace JSON_parse folder ;;;
       createDecorationTypeForWorkspace folder ;;;
       updateDecorationsForWorkspace folder ;;;
       watchLocaleFilesForWorkspace folder ;;;
       watchConfigFileForWorkspace folder ;;;
       visible <- gets (fun w =>
         flat_map (fun id =>
                     match find_editor w id with
                     | Some editor => [editor]
                     | None => []
                     end) (visibleTextEditors w)) ;;
       forEach visible (adopt_editor r folder) ;;;
       modify (fun w =>
         with_subscriptions
           (subscriptions w
              ++ [mkListener OnDidChangeActiveTextEditor r folder;
                  mkListener OnDidChangeTextDocument r folder;
                  mkListener OnDidChangeTextEditorSelection r folder])%list
           w)).
Proof.
  unfold watchLocaleFilesForWorkspace, watchConfigFileForWorkspace.
  owning;
    first [ apply (same_readConfigFileForWorkspace JSON_parse folder (Some r))
          | apply own_createDecorationTypeForWorkspace
          | apply (same_updateDecorationsForWorkspace folder (Some r))
          | apply own_fs_watch
          | apply own_adopt_editor ].
Qed.

End Fresh.

(** X24.  A folder that is initialized gets a state object of its own:
    [workspaceStates] then gives the folder a new object, and every state
    object that existed before, those of other folders and the one an
    earlier session of the same folder left to its listeners, is
    unchanged. *)
Theorem initializeWorkspace_fresh_state
    (JSON_parse : string -> option (Js.Obj string))
    (folder : WorkspaceFolder) (w : World) (node : FsNode) :
  resolve (fs w) (path_join (fsPath folder) config_name) = Some node ->
  workspaceStates (snd (initializeWorkspace JSON_parse folder w))
  = Js.set (workspaceStates w) (uri folder) (List.length (heap w))
  /\ List.length (heap (snd (initializeWorkspace JSON_parse folder w)))
     = S (List.length (heap w))
  /\ forall r, r < List.length (heap w) ->
       nth_error (heap (snd (initializeWorkspace JSON_parse folder w))) r
       = nth_error (heap w) r.
Proof.
  intros Hc.
  set (r0 := List.length (heap w)).
  set (w1 := with_workspaceStates (Js.set (workspaceStates w) (uri folder) r0)
               (with_heap (heap w ++ [new_state folder])%list w)).
  assert (Hs1 : has_state folder (Some r0) w1).
  { unfold has_state, w1. simpl. now rewrite get_set, String.eqb_refl. }
  pose proof (own_initialization JSON_parse folder r0 w1 Hs1) as [A [B C]].
  assert (E : initializeWorkspace JSON_parse folder w
              = (readConfigFileForWorkspace JSON_parse folder ;;;
                 createDecorationTypeForWorkspace folder ;;;
                 updateDecorationsForWorkspace folder ;;;
                 watchLocaleFilesForWorkspace folder ;;;
                 watchConfigFileForWorkspace folder ;;;
                 visible <- gets (fun w =>
                   flat_map (fun id =>
                               match find_editor w id with
                               | Some editor => [editor]
                               | None => []
                               end) (visibleTextEditors w)) ;;
                 forEach visible (adopt_editor r0 folder) ;;;
                 modify (fun w =>
                   with_subscriptions
                     (subscriptions w
                        ++ [mkListener OnDidChangeActiveTextEditor r0 folder;
                            mkListener OnDidChangeTextDocument r0 folder;
                            mkListener OnDidChangeTextEditorSelection r0
                              folder])%list
                     w)) w1).
  { unfold initializeWorkspace.
    unfold bind at 1. unfold isPluginActiveInWorkspace, gets at 1.
    rewrite Hc. cbv iota beta.
    unfold bind at 1, gets at 1. cbv iota beta. fold r0.
    unfold bind at 1, modify at 1. cbv iota beta.
    unfold bind at 1, modify at 1. cbv iota beta. reflexivity. }
  rewrite E. split; [exact A|]. split.
  - rewrite B. unfold w1. simpl. rewrite length_app. simpl. lia.
  - intros r Hr. rewrite C.
    + unfold w1. simpl. apply nth_error_app1. exact Hr.
    + unfold has_state in Hs1. rewrite Hs1. intros [= <-]. unfold r0 in Hr. lia.
Qed.

Lemma initializeWorkspace_fresh_state_witness :
  workspaceStates
    (snd (initializeWorkspace read_flat Demo.app Demo.removed))
  = [("file:///w/app", 1)]
  /\ nth_error
       (heap (snd (initializeWorkspace read_flat Demo.app Demo.removed))) 0
     = Some (Demo.app_state Demo.greetings).
Proof.
  destruct (initializeWorkspace_fresh_state read_flat Demo.app Demo.removed
              (File Demo.descriptor) eq_refl) as [A [_ C]].
  split.
  - rewrite A. reflexivity.
  - rewrite (C 0); [reflexivity|]. vm_compute. lia.
Defined.
